(** * agents.toml: the manifest parser and its structural schema

    A shallow embedding of [schema.ts] (the zod schemas of the manifest) and
    of [parse.ts] (the parser built on them), followed by the properties of
    the parsing pipeline.

    Conventions.
    - A JavaScript string is the list of its UTF-16 code units ([jstring]).
    - A JavaScript object is the association list of its own enumerable
      properties in enumeration order; reading a property returns the first
      binding, [None] stands for [undefined].  A [Map] is the list of its
      entries.  The reordering of integer-like keys that JavaScript performs
      is not represented: no statement below depends on the order of
      enumeration.
    - The TOML parser ([smol-toml]) is an external collaborator and a
      variable of the parser; [Fixtures.parseToml] knows the documents of
      the scenarios only, and [Samples.parseToml] a few more.
    - The zod combinators follow zod 3: a schema returns a status (valid,
      dirty or aborted) and adds issues to a shared list; a union returns
      its first valid option and otherwise the issues of its first dirty
      option.  The default error map of the library is a variable of the
      parser; [Fixtures.en] is the English one. *)

From Stdlib Require Import List NArith Bool Arith Lia String Ascii.
From Stdlib Require Import SpecFloat DecimalString.
Import ListNotations.

Set Implicit Arguments.
Set Warnings "-register-all".
Set Default Goal Selector "!".

(* ================================================================== *)
(** * JavaScript strings *)
(* ================================================================== *)

Module JS.

(** A string is a sequence of UTF-16 code units. *)
Definition jstring := list N.

(** The code units of an ASCII literal. *)
Definition js (s : string) : jstring :=
  map N_of_ascii (list_ascii_of_string s).
Arguments js s%_string.

Definition jeqb (a b : jstring) : bool :=
  if list_eq_dec N.eq_dec a b then true else false.

(** [Array.prototype.includes] on an array of strings. *)
Definition includes (l : list jstring) (k : jstring) : bool :=
  existsb (jeqb k) l.

(** [String.prototype.includes] for a one-unit needle. *)
Definition includes_unit (s : jstring) (c : N) : bool :=
  existsb (N.eqb c) s.

(** [Array.prototype.join]. *)
Fixpoint join (sep : jstring) (l : list jstring) : jstring :=
  match l with
  | [] => []
  | [x] => x
  | x :: rest => x ++ sep ++ join sep rest
  end.

(** ECMAScript LineTerminator: LF, CR, LS, PS. *)
Definition isLineTerminator (c : N) : bool :=
  (c =? 10)%N || (c =? 13)%N || (c =? 8232)%N || (c =? 8233)%N.

(** ECMAScript WhiteSpace: TAB, VT, FF, SP, NBSP, ZWNBSP and category Zs. *)
Definition isWhiteSpace (c : N) : bool :=
  (c =? 9)%N || (c =? 11)%N || (c =? 12)%N || (c =? 32)%N || (c =? 160)%N
  || (c =? 5760)%N || ((8192 <=? c)%N && (c <=? 8202)%N)
  || (c =? 8239)%N || (c =? 8287)%N || (c =? 12288)%N || (c =? 65279)%N.

Definition isTrimmable (c : N) : bool := isWhiteSpace c || isLineTerminator c.

Fixpoint trimStart (s : jstring) : jstring :=
  match s with
  | c :: s' => if isTrimmable c then trimStart s' else s
  | [] => []
  end.

Definition trimEnd (s : jstring) : jstring := rev (trimStart (rev s)).

(** [String.prototype.trim]. *)
Definition trim (s : jstring) : jstring := trimEnd (trimStart s).

(** [msg] contains [x] as a substring. *)
Definition mentions (msg x : jstring) : Prop :=
  exists pre post, msg = pre ++ x ++ post.

(** A value is truthy; for a string: it is not empty. *)
Definition truthy (s : jstring) : bool :=
  match s with [] => false | _ => true end.

End JS.
Import JS.

(* ================================================================== *)
(** * Regular expressions *)
(* ================================================================== *)

(** The fragment of ECMAScript regular expressions that the source uses,
    with the backtracking semantics of the language: alternatives are tried
    in priority order, quantifiers are greedy. *)
Module RegExp.

Inductive regex : Type :=
| Chr (c : N)                    (* a literal character *)
| Plus (cls : N -> bool)         (* [cls]+ , a class or the dot, greedy *)
| Seq (r1 r2 : regex)            (* r1 r2 *)
| Opt (r : regex)                (* (?:r)? , greedy *)
| Group (i : nat) (r : regex)    (* the i-th capturing group *)
| Bol                            (* ^ without the m flag *)
| Eol.                           (* $ without the m flag *)

(** Captured substrings, most recent first; a group that did not take part
    in the match has no entry ([undefined]). *)
Definition captures := list (nat * jstring).

Fixpoint capture (caps : captures) (i : nat) : option jstring :=
  match caps with
  | [] => None
  | (j, s) :: rest => if Nat.eqb i j then Some s else capture rest i
  end.

(** [cls]* at position [pos] of the input, the rest of which is [s]:
    the longest run first, then shorter ones. *)
Fixpoint star (cls : N -> bool) (pos : nat) (s : jstring)
    (k : nat -> jstring -> option captures) : option captures :=
  match s with
  | c :: s' =>
      if cls c then
        match star cls (S pos) s' k with
        | Some r => Some r
        | None => k pos s
        end
      else k pos s
  | [] => k pos s
  end.

(** The matcher in continuation-passing style: [pos] is the index of the
    next code unit, [s] the input from there on. *)
Fixpoint run (r : regex) (pos : nat) (s : jstring) (caps : captures)
    (k : nat -> jstring -> captures -> option captures) : option captures :=
  match r with
  | Chr c =>
      match s with
      | c' :: s' => if (c =? c')%N then k (S pos) s' caps else None
      | [] => None
      end
  | Plus cls =>
      match s with
      | c :: s' =>
          if cls c then star cls (S pos) s' (fun p t => k p t caps) else None
      | [] => None
      end
  | Seq r1 r2 => run r1 pos s caps (fun p t c => run r2 p t c k)
  | Opt r1 =>
      match run r1 pos s caps k with
      | Some res => Some res
      | None => k pos s caps
      end
  | Group i r1 =>
      run r1 pos s caps (fun p t c => k p t ((i, firstn (p - pos) s) :: c))
  | Bol => if Nat.eqb pos 0 then k pos s caps else None
  | Eol => match s with [] => k pos s caps | _ :: _ => None end
  end.

(** A match is looked for at every start index, leftmost first. *)
Fixpoint exec_from (r : regex) (pos : nat) (s : jstring) : option captures :=
  match run r pos s [] (fun _ _ c => Some c) with
  | Some c => Some c
  | None =>
      match s with
      | [] => None
      | _ :: s' => exec_from r (S pos) s'
      end
  end.

(** [String.prototype.match] with a regex that has no g flag. *)
Definition exec (r : regex) (s : jstring) : option captures := exec_from r 0 s.

(** [RegExp.prototype.test]. *)
Definition test (r : regex) (s : jstring) : bool :=
  match exec r s with Some _ => true | None => false end.

(** The same expression with its groups made non-capturing. *)
Fixpoint erase (r : regex) : regex :=
  match r with
  | Seq r1 r2 => Seq (erase r1) (erase r2)
  | Opt r1 => Opt (erase r1)
  | Group _ r1 => erase r1
  | _ => r
  end.

Declare Scope regex_scope.
Delimit Scope regex_scope with re.
Infix ";;" := Seq (at level 61, right associativity) : regex_scope.

(** Character classes of the source. *)
Definition in_range (lo hi c : N) : bool := ((lo <=? c) && (c <=? hi))%N.

Definition alnum (c : N) : bool :=
  in_range 97 122 c || in_range 65 90 c || in_range 48 57 c.

(** [[a-zA-Z0-9_-]] *)
Definition word_dash (c : N) : bool := alnum c || (c =? 95)%N || (c =? 45)%N.

(** [[a-zA-Z0-9_.-]] *)
Definition word_dot_dash (c : N) : bool :=
  alnum c || (c =? 95)%N || (c =? 46)%N || (c =? 45)%N.

(** [.] without the s flag *)
Definition dot (c : N) : bool := negb (isLineTerminator c).

Definition AT : N := 64.
Definition SLASH : N := 47.

(** The match succeeded. *)
Definition succeeds {A} (o : option A) : bool :=
  match o with Some _ => true | None => false end.

(** The class stops at the head of [rest]. *)
Definition stops (cls : N -> bool) (rest : jstring) : Prop :=
  match rest with
  | [] => True
  | c :: _ => cls c = false
  end.

End RegExp.
Import RegExp.

(* ================================================================== *)
(** * Objects, maps and the TOML tree *)
(* ================================================================== *)

(** Own enumerable properties of an object, and the entries of a [Map]. *)
Module Obj.

Definition t (V : Type) := list (jstring * V).

(** [o[k]], with [None] for [undefined]. *)
Fixpoint get {V} (o : t V) (k : jstring) : option V :=
  match o with
  | [] => None
  | (k', v) :: rest => if jeqb k k' then Some v else get rest k
  end.

(** [k in o] *)
Definition has {V} (o : t V) (k : jstring) : bool :=
  match get o k with Some _ => true | None => false end.

(** [o[k] = v]: an existing property keeps its place. *)
Fixpoint set {V} (o : t V) (k : jstring) (v : V) : t V :=
  match o with
  | [] => [(k, v)]
  | (k', v') :: rest =>
      if jeqb k k' then (k, v) :: rest else (k', v') :: set rest k v
  end.

(** The keys visited by [for (const key in o)]. *)
Definition keys {V} (o : t V) : list jstring := map fst o.

End Obj.

(** What [smol-toml] hands back. *)
Module Toml.

Inductive value : Type :=
| String (s : jstring)
| Boolean (b : bool)
| Number (x : spec_float)
| Date (iso : jstring)
| Array (items : list value)
| Table (entries : list (jstring * value)).

Definition table := Obj.t value.

(** What a failed parse throws: an [Error] with its message, or anything
    else. *)
Inductive thrown : Type :=
| ThrownError (message : jstring)
| ThrownOther.

Inductive outcome : Type :=
| Parsed (doc : table)
| Throws (err : thrown).

End Toml.

(* ================================================================== *)
(** * The zod combinators used by the schemas *)
(* ================================================================== *)

Module Zod.

Inductive ZodParsedType : Type :=
| t_string | t_nan | t_number | t_boolean | t_date
| t_undefined | t_array | t_object.

Definition getParsedType (data : option Toml.value) : ZodParsedType :=
  match data with
  | None => t_undefined
  | Some (Toml.String _) => t_string
  | Some (Toml.Boolean _) => t_boolean
  | Some (Toml.Number S754_nan) => t_nan
  | Some (Toml.Number _) => t_number
  | Some (Toml.Date _) => t_date
  | Some (Toml.Array _) => t_array
  | Some (Toml.Table _) => t_object
  end.

Inductive Literal : Type :=
| LitString (s : jstring)
| LitBoolean (b : bool).

Inductive ZodIssueCode : Type :=
| invalid_type (expected received : ZodParsedType)
| invalid_literal (expected : Literal)
| unrecognized_keys (keys : list jstring)
| invalid_union
| invalid_string
| too_small (minimum : nat)
| custom.

(** An issue as it is raised: [given] is the message supplied by the schema,
    if any; otherwise the error map provides the text when the issue is
    read. *)
Record ZodIssue : Type := mkIssue {
  code : ZodIssueCode;
  path : list jstring;
  given : option jstring
}.

(** The [message] property of an issue under an error map. *)
Definition message (errorMap : ZodIssueCode -> jstring) (i : ZodIssue) : jstring :=
  match given i with
  | Some m => m
  | None => errorMap (code i)
  end.

(** The status of a synchronous parse: valid, dirty (a value and issues) or
    aborted. *)
Inductive status (A : Type) : Type :=
| OK (v : A)
| DIRTY (v : A)
| INVALID.
Arguments INVALID {A}.

Definition ParseReturn (A : Type) : Type := (status A * list ZodIssue)%type.

(** A schema: the path of the datum, the datum, the outcome. *)
Definition ZodType (A : Type) : Type :=
  list jstring -> option Toml.value -> ParseReturn A.

Definition isValid {A} (s : status A) : bool :=
  match s with OK _ => true | _ => false end.

Definition isDirty {A} (s : status A) : bool :=
  match s with DIRTY _ => true | _ => false end.

(** [status.dirty()] *)
Definition dirty {A} (s : status A) : status A :=
  match s with OK v => DIRTY v | _ => s end.

Definition invalid_type_at {A} (expected : ZodParsedType) (p : list jstring)
    (data : option Toml.value) : ParseReturn A :=
  (INVALID, [mkIssue (invalid_type expected (getParsedType data)) p None]).

(** ** z.string() with its checks *)

Inductive StringCheck : Type :=
| check_min (n : nat) (msg : jstring)
| check_regex (re : regex) (msg : jstring).

Definition check_passes (c : StringCheck) (s : jstring) : bool :=
  match c with
  | check_min n _ => n <=? List.length s
  | check_regex re _ => RegExp.test re s
  end.

Definition check_issue (p : list jstring) (c : StringCheck) : ZodIssue :=
  match c with
  | check_min n msg => mkIssue (too_small n) p (Some msg)
  | check_regex _ msg => mkIssue invalid_string p (Some msg)
  end.

Definition string (checks : list StringCheck) : ZodType jstring :=
  fun p data =>
    match data with
    | Some (Toml.String s) =>
        let issues :=
          flat_map (fun c => if check_passes c s then [] else [check_issue p c])
                   checks in
        (match issues with [] => OK s | _ :: _ => DIRTY s end, issues)
    | _ => invalid_type_at t_string p data
    end.

(** ** z.boolean() *)
Definition boolean : ZodType bool :=
  fun p data =>
    match data with
    | Some (Toml.Boolean b) => (OK b, [])
    | _ => invalid_type_at t_boolean p data
    end.

(** ** z.literal(v): strict equality with a primitive. *)
Definition strictly_equal (l : Literal) (data : option Toml.value) : bool :=
  match l, data with
  | LitString s, Some (Toml.String s') => jeqb s s'
  | LitBoolean b, Some (Toml.Boolean b') => Bool.eqb b b'
  | _, _ => false
  end.

Definition literal (l : Literal) : ZodType Literal :=
  fun p data =>
    if strictly_equal l data then (OK l, [])
    else (INVALID, [mkIssue (invalid_literal l) p None]).

(** ** .transform(f), for a transformation that keeps the type *)
Definition transform {A} (inner : ZodType A) (f : A -> A) : ZodType A :=
  fun p data =>
    match inner p data with
    | (OK v, issues) => (OK (f v), issues)
    | base => base
    end.

(** ** a.pipe(b), between two string schemas *)
Definition pipe (a b : ZodType jstring) : ZodType jstring :=
  fun p data =>
    match a p data with
    | (INVALID, issues) => (INVALID, issues)
    | (DIRTY v, issues) => (DIRTY v, issues)
    | (OK v, issues) =>
        let '(st, issues') := b p (Some (Toml.String v)) in
        (st, issues ++ issues')
    end.

(** ** .refine(check, message): runs unless the inner parse aborted. *)
Definition refine {A} (inner : ZodType A) (check : A -> bool) (msg : jstring)
    : ZodType A :=
  fun p data =>
    match inner p data with
    | (INVALID, issues) => (INVALID, issues)
    | (st, issues) =>
        match st with
        | OK v | DIRTY v =>
            if check v then (st, issues)
            else (DIRTY v, issues ++ [mkIssue custom p (Some msg)])
        | INVALID => (INVALID, issues)
        end
    end.

(** ** .optional() *)
Definition optional {A} (inner : ZodType A) : ZodType (option A) :=
  fun p data =>
    match data with
    | None => (OK None, [])
    | Some _ =>
        match inner p data with
        | (OK v, issues) => (OK (Some v), issues)
        | (DIRTY v, issues) => (DIRTY (Some v), issues)
        | (INVALID, issues) => (INVALID, issues)
        end
    end.

(** ** .optional().default(d): [undefined] is replaced by the default before
    the inner schema runs, so the optional never sees [undefined]. *)
Definition optional_default {A} (inner : ZodType A) (d : Toml.value)
    : ZodType A :=
  fun p data =>
    inner p (Some (match data with None => d | Some v => v end)).

(** The static type of the output seen through an injection; the parse is
    the inner one. *)
Definition retag {A B} (f : A -> B) (inner : ZodType A) : ZodType B :=
  fun p data =>
    match inner p data with
    | (OK v, issues) => (OK (f v), issues)
    | (DIRTY v, issues) => (DIRTY (f v), issues)
    | (INVALID, issues) => (INVALID, issues)
    end.

(** ** z.union([...]): the first valid option; failing that the first dirty
    one, with its issues; failing that a single invalid_union issue. *)
Fixpoint union_scan {A} (options : list (ZodType A)) (p : list jstring)
    (data : option Toml.value) (firstDirty : option (ParseReturn A))
    : ParseReturn A :=
  match options with
  | [] =>
      match firstDirty with
      | Some d => d
      | None => (INVALID, [mkIssue invalid_union p None])
      end
  | option :: rest =>
      match option p data with
      | (OK v, _) => (OK v, [])
      | (DIRTY v, issues) =>
          union_scan rest p data
            (match firstDirty with
             | Some d => Some d
             | None => Some (DIRTY v, issues)
             end)
      | (INVALID, _) => union_scan rest p data firstDirty
      end
  end.

Definition union {A} (options : list (ZodType A)) : ZodType A :=
  fun p data => union_scan options p data None.

(** ** ParseStatus.mergeObjectSync, for the pairs of a record *)
Definition PROTO : jstring := js "__proto__".

Fixpoint mergeObjectSync {V} (isdirty : bool)
    (pairs : list (status jstring * status V)) (finalObject : Obj.t V)
    : status (Obj.t V) :=
  match pairs with
  | [] => if isdirty then DIRTY finalObject else OK finalObject
  | (INVALID, _) :: _ => INVALID
  | (_, INVALID) :: _ => INVALID
  | ((OK k | DIRTY k) as key, (OK v | DIRTY v) as val) :: rest =>
      mergeObjectSync (isdirty || isDirty key || isDirty val) rest
        (if jeqb k PROTO then finalObject else Obj.set finalObject k v)
  end.

(** ** z.record(keyType, valueType) *)
Definition record {V} (keyType : ZodType jstring) (valueType : ZodType V)
    : ZodType (Obj.t V) :=
  fun p data =>
    match data with
    | Some (Toml.Table entries) =>
        let pairs :=
          map (fun key =>
                 (keyType (p ++ [key]) (Some (Toml.String key)),
                  valueType (p ++ [key]) (Obj.get entries key)))
              (Obj.keys entries) in
        (mergeObjectSync false (map (fun kv => (fst (fst kv), fst (snd kv))) pairs) [],
         flat_map (fun kv => snd (fst kv) ++ snd (snd kv)) pairs)
    | _ => invalid_type_at t_object p data
    end.

(** ** z.object(shape).strict()

    The fields of the shape are parsed in the order of the shape and their
    outcomes merged: aborted if one is, dirty if one is. *)
Definition pure {A} (v : A) : ParseReturn A := (OK v, []).

Definition ap {A B} (f : ParseReturn (A -> B)) (x : ParseReturn A)
    : ParseReturn B :=
  (match fst f, fst x with
   | INVALID, _ | _, INVALID => INVALID
   | OK g, OK v => OK (g v)
   | OK g, DIRTY v | DIRTY g, OK v | DIRTY g, DIRTY v => DIRTY (g v)
   end,
   snd f ++ snd x).

Definition field {A} (p : list jstring) (data : Toml.table) (key : jstring)
    (validator : ZodType A) : ParseReturn A :=
  validator (p ++ [key]) (Obj.get data key).

Definition object_strict {A} (shapeKeys : list jstring)
    (fields : list jstring -> Toml.table -> ParseReturn A) : ZodType A :=
  fun p data =>
    match data with
    | Some (Toml.Table entries) =>
        let extraKeys :=
          filter (fun key => negb (includes shapeKeys key)) (Obj.keys entries) in
        let '(st, issues) := fields p entries in
        match extraKeys with
        | [] => (st, issues)
        | _ :: _ =>
            (dirty st, issues ++ [mkIssue (unrecognized_keys extraKeys) p None])
        end
    | _ => invalid_type_at t_object p data
    end.

(** ** schema.parse(data): the value, or a throw. *)
Inductive parsed (A : Type) : Type :=
| Success (data : A)
| ThrowZodError (issues : list ZodIssue)
| ThrowError (msg : jstring).
Arguments ThrowZodError {A}.
Arguments ThrowError {A}.

Definition schema_parse {A} (schema : ZodType A) (data : Toml.value) : parsed A :=
  match schema [] (Some data) with
  | (OK v, _) => Success v
  | (_, []) => ThrowError (js "Validation failed but no issues detected.")
  | (_, issues) => ThrowZodError issues
  end.

(** ** Notions used to reason about schemas *)

(** A parse that is not valid has reported an issue. *)
Definition reported {A} (r : ParseReturn A) : Prop :=
  isValid (fst r) = false -> snd r <> [].

Definition sound {A} (schema : ZodType A) : Prop :=
  forall p data, reported (schema p data).

(** The value carried by a status, if any. *)
Definition value_of {A} (s : status A) : option A :=
  match s with
  | OK v | DIRTY v => Some v
  | INVALID => None
  end.

End Zod.

Declare Scope zod_scope.
Delimit Scope zod_scope with zod.
Infix "<*>" := Zod.ap (at level 50, left associativity) : zod_scope.

(* ================================================================== *)
(** * schema.ts *)
(* ================================================================== *)

Module Schema.

Local Open Scope zod_scope.
Local Open Scope regex_scope.

(** ** Primitives *)

(** Non-empty string after trimming *)
Definition NonEmptyString : Zod.ZodType jstring :=
  Zod.pipe
    (Zod.transform (Zod.string []) trim)
    (Zod.string [Zod.check_min 1 (js "String cannot be empty")]).

(** Alias for dependencies - no special characters *)
Definition Alias : Zod.ZodType jstring :=
  Zod.pipe
    (Zod.transform (Zod.string []) trim)
    (Zod.refine
       (Zod.refine
          (Zod.refine
             (Zod.refine
                (Zod.string [Zod.check_min 1 (js "Alias cannot be empty")])
                (fun s => negb (includes_unit s 47)) (js "Alias cannot contain '/'"))
             (fun s => negb (includes_unit s 92)) (js "Alias cannot contain '\'"))
          (fun s => negb (includes_unit s 46)) (js "Alias cannot contain '.'"))
       (fun s => negb (includes_unit s 58)) (js "Alias cannot contain ':'")).

(** [/^[a-zA-Z0-9_.-]+\/[a-zA-Z0-9_.-]+$/] *)
Definition GithubRefPattern : regex :=
  Bol ;; Plus word_dot_dash ;; Chr SLASH ;; Plus word_dot_dash ;; Eol.

(** GitHub reference: owner/repo *)
Definition GithubRef : Zod.ZodType jstring :=
  Zod.string [Zod.check_regex GithubRefPattern (js "Must be in format 'owner/repo'")].

(** Known agent identifiers: [AgentId.options]. *)
Definition AgentId_options : list jstring :=
  [js "claude-code"; js "codex"; js "opencode"].

(** ** Package section *)

Record Package : Type := mkPackage {
  description : option jstring;
  license : option jstring;
  name : jstring;
  org : option jstring;
  version : jstring
}.

Definition Package_keys : list jstring :=
  [js "description"; js "license"; js "name"; js "org"; js "version"].

Definition PackageSchema : Zod.ZodType Package :=
  Zod.object_strict Package_keys
    (fun p data =>
       Zod.pure mkPackage
       <*> Zod.field p data (js "description") (Zod.optional NonEmptyString)
       <*> Zod.field p data (js "license") (Zod.optional NonEmptyString)
       <*> Zod.field p data (js "name") NonEmptyString
       <*> Zod.field p data (js "org") (Zod.optional NonEmptyString)
       <*> Zod.field p data (js "version") NonEmptyString).

(** ** Agents section *)

Definition Agents : Type := Obj.t bool.

Definition AgentsSchema : Zod.ZodType Agents :=
  Zod.record (Zod.string []) Zod.boolean.

(** ** Dependencies section *)

(** Registry package: [/^(@[a-zA-Z0-9_-]+\/)?[a-zA-Z0-9_-]+@.+$/] *)
Definition RegistryPattern : regex :=
  Bol ;; Opt (Group 1 (Chr AT ;; Plus word_dash ;; Chr SLASH))
      ;; Plus word_dash ;; Chr AT ;; Plus dot ;; Eol.

Definition RegistryDependency : Zod.ZodType jstring :=
  Zod.string
    [Zod.check_regex RegistryPattern (js "Must be in format '[@org/]name@version'")].

(** The object forms of a dependency declaration, seen as one object whose
    properties are all optional: a property is [None] when the object does
    not have the key. *)
Record DeclFields : Type := mkDecl {
  branch : option jstring;
  gh : option jstring;
  git : option jstring;
  marketplace : option jstring;
  path : option jstring;
  plugin : option jstring;
  rev : option jstring;
  tag : option jstring;
  type_ : option jstring
}.

(** [Boolean(v)] for an optional string. *)
Definition Boolean (v : option jstring) : bool :=
  match v with Some s => truthy s | None => false end.

(** The refinement shared by the GitHub and the git form. *)
Definition one_ref_at_most (d : DeclFields) : bool :=
  let refs := List.length (filter Boolean [tag d; branch d; rev d]) in
  refs <=? 1.

Definition one_ref_message : jstring :=
  js "Only one of 'tag', 'branch', or 'rev' can be specified".

Definition Github_keys : list jstring :=
  [js "branch"; js "gh"; js "path"; js "rev"; js "tag"].

(** GitHub dependency *)
Definition GithubDependency : Zod.ZodType DeclFields :=
  Zod.refine
    (Zod.object_strict Github_keys
       (fun p data =>
          Zod.pure (fun b g pa r t => mkDecl b (Some g) None None pa None r t None)
          <*> Zod.field p data (js "branch") (Zod.optional NonEmptyString)
          <*> Zod.field p data (js "gh") GithubRef
          <*> Zod.field p data (js "path") (Zod.optional NonEmptyString)
          <*> Zod.field p data (js "rev") (Zod.optional NonEmptyString)
          <*> Zod.field p data (js "tag") (Zod.optional NonEmptyString)))
    one_ref_at_most one_ref_message.

Definition Git_keys : list jstring :=
  [js "branch"; js "git"; js "path"; js "rev"; js "tag"].

(** Generic git dependency *)
Definition GitDependency : Zod.ZodType DeclFields :=
  Zod.refine
    (Zod.object_strict Git_keys
       (fun p data =>
          Zod.pure (fun b g pa r t => mkDecl b None (Some g) None pa None r t None)
          <*> Zod.field p data (js "branch") (Zod.optional NonEmptyString)
          <*> Zod.field p data (js "git") NonEmptyString
          <*> Zod.field p data (js "path") (Zod.optional NonEmptyString)
          <*> Zod.field p data (js "rev") (Zod.optional NonEmptyString)
          <*> Zod.field p data (js "tag") (Zod.optional NonEmptyString)))
    one_ref_at_most one_ref_message.

Definition Local_keys : list jstring := [js "path"].

(** Local filesystem dependency *)
Definition LocalDependency : Zod.ZodType DeclFields :=
  Zod.object_strict Local_keys
    (fun p data =>
       Zod.pure (fun pa => mkDecl None None None None (Some pa) None None None None)
       <*> Zod.field p data (js "path") NonEmptyString).

Definition CLAUDE_PLUGIN : jstring := js "claude-plugin".

Definition ClaudePlugin_keys : list jstring :=
  [js "marketplace"; js "plugin"; js "type"].

(** Claude plugin dependency *)
Definition ClaudePluginDependency : Zod.ZodType DeclFields :=
  Zod.object_strict ClaudePlugin_keys
    (fun p data =>
       Zod.pure (fun m pl (_ : Zod.Literal) =>
                   mkDecl None None None (Some m) None (Some pl) None None
                          (Some CLAUDE_PLUGIN))
       <*> Zod.field p data (js "marketplace") NonEmptyString
       <*> Zod.field p data (js "plugin") NonEmptyString
       <*> Zod.field p data (js "type") (Zod.literal (Zod.LitString CLAUDE_PLUGIN))).

(** The type of a validated declaration: a string or one of the objects. *)
Inductive Decl : Type :=
| DeclString (s : jstring)
| DeclObject (o : DeclFields).

(** Any dependency declaration *)
Definition DependencyDeclaration : Zod.ZodType Decl :=
  Zod.union
    [ Zod.retag DeclString RegistryDependency;
      Zod.retag DeclObject GithubDependency;
      Zod.retag DeclObject GitDependency;
      Zod.retag DeclObject LocalDependency;
      Zod.retag DeclObject ClaudePluginDependency ].

Definition Dependencies : Type := Obj.t Decl.

Definition DependenciesSchema : Zod.ZodType Dependencies :=
  Zod.record Alias DependencyDeclaration.

(** ** Exports section *)

Inductive Skills : Type :=
| SkillsDir (dir : jstring)
| SkillsFalse.

Record AutoDiscover : Type := mkAutoDiscover {
  skills : option Skills
}.

Record Exports : Type := mkExports {
  auto_discover : option AutoDiscover
}.

Definition AutoDiscover_keys : list jstring := [js "skills"].
Definition Exports_keys : list jstring := [js "auto_discover"].

Definition AutoDiscoverSchema : Zod.ZodType AutoDiscover :=
  Zod.object_strict AutoDiscover_keys
    (fun p data =>
       Zod.pure mkAutoDiscover
       <*> Zod.field p data (js "skills")
             (Zod.optional
                (Zod.union
                   [ Zod.retag SkillsDir NonEmptyString;
                     Zod.retag (fun _ => SkillsFalse)
                               (Zod.literal (Zod.LitBoolean false)) ]))).

Definition ExportsSchema : Zod.ZodType Exports :=
  Zod.object_strict Exports_keys
    (fun p data =>
       Zod.pure mkExports
       <*> Zod.field p data (js "auto_discover") (Zod.optional AutoDiscoverSchema)).

(** ** Full manifest *)

Record Manifest : Type := mkManifest {
  agents : Agents;
  dependencies : Dependencies;
  exports : option Exports;
  package : option Package
}.

Definition Manifest_keys : list jstring :=
  [js "agents"; js "dependencies"; js "exports"; js "package"].

Definition ManifestSchema : Zod.ZodType Manifest :=
  Zod.object_strict Manifest_keys
    (fun p data =>
       Zod.pure mkManifest
       <*> Zod.field p data (js "agents")
             (Zod.optional_default AgentsSchema (Toml.Table []))
       <*> Zod.field p data (js "dependencies")
             (Zod.optional_default DependenciesSchema (Toml.Table []))
       <*> Zod.field p data (js "exports") (Zod.optional ExportsSchema)
       <*> Zod.field p data (js "package") (Zod.optional PackageSchema)).

(** ** Validated types *)

Inductive RefKind : Type := ref_tag | ref_branch | ref_rev.

Record GitRef : Type := mkRef {
  ref_type : RefKind;
  ref_value : jstring
}.

(** The union [ValidatedDependency], by its [type] discriminator.  The two
    properties of a plugin are copied from properties the declaration may
    lack when it did not come out of the schema, hence their option. *)
Inductive ValidatedDependency : Type :=
| github (gh : jstring) (ref : option GitRef) (path : option jstring)
| git_ (url : jstring) (ref : option GitRef) (path : option jstring)
| registry (name : jstring) (org : option jstring) (version : jstring)
| local_ (path : jstring)
| claude_plugin (plugin marketplace : option jstring).

Record ValidatedManifest : Type := mkValidated {
  v_package : option Package;
  v_agents : Obj.t bool;
  v_dependencies : Obj.t ValidatedDependency;
  v_exports : option Exports
}.

End Schema.

(* ================================================================== *)
(** * parse.ts *)
(* ================================================================== *)

(** A call either returns a value or throws an [Error] with a message. *)
Inductive completion (A : Type) : Type :=
| Return (v : A)
| Throw (msg : jstring).
Arguments Throw {A}.

Module Parse.

Import Schema.
Local Open Scope regex_scope.

(** ** Error types *)

Inductive ParseErrorType : Type :=
| invalid_toml
| invalid_manifest
| invalid_dependency.

Inductive Cause : Type :=
| cause_thrown (err : Toml.thrown)
| cause_zod (issues : list Zod.ZodIssue).

Record ParseError : Type := mkError {
  type : ParseErrorType;
  message : jstring;
  cause : option Cause
}.

Inductive ParseResult (T : Type) : Type :=
| ok (value : T)
| fail (error : ParseError).
Arguments fail {T}.

(** ** Dependency parsing *)

(** [/^(?:@([a-zA-Z0-9_-]+)\/)?([a-zA-Z0-9_-]+)@(.+)$/] *)
Definition REGISTRY_PATTERN : regex :=
  Bol ;; Opt (Chr AT ;; Group 1 (Plus word_dash) ;; Chr SLASH)
      ;; Group 2 (Plus word_dash) ;; Chr AT ;; Group 3 (Plus dot) ;; Eol.

(** The destructuring [const [, org, name, version] = match] reads groups
    1 to 3; groups 2 and 3 take part in every match of the pattern
    (lemma [REGISTRY_PATTERN_groups]), so the last branch is never taken. *)
Definition parseRegistryString (value : jstring) : option ValidatedDependency :=
  match RegExp.exec REGISTRY_PATTERN value with
  | None => None
  | Some m =>
      let org := capture m 1 in
      match capture m 2, capture m 3 with
      | Some name, Some version =>
          Some (registry name
                         (match org with
                          | Some ((_ :: _) as o) => Some o
                          | _ => None
                          end)
                         version)
      | _, _ => None
      end
  end.

Definition extractGitRef (dep : DeclFields) : option GitRef :=
  match tag dep with
  | Some ((_ :: _) as v) => Some (mkRef ref_tag v)
  | _ =>
      match branch dep with
      | Some ((_ :: _) as v) => Some (mkRef ref_branch v)
      | _ =>
          match rev dep with
          | Some ((_ :: _) as v) => Some (mkRef ref_rev v)
          | _ => None
          end
      end
  end.

(** [...(decl.path && { path: decl.path })] *)
Definition spread_path (decl : DeclFields) : option jstring :=
  match path decl with
  | Some ((_ :: _) as p) => Some p
  | _ => None
  end.

Definition parseDependency (alias : jstring) (decl : Decl)
    : ParseResult ValidatedDependency :=
  match decl with
  | DeclString s =>
      (* String = registry shorthand *)
      match parseRegistryString s with
      | None =>
          fail (mkError invalid_dependency
                  (js "Invalid registry dependency format for '" ++ alias
                   ++ js "': " ++ s)
                  None)
      | Some parsed => ok parsed
      end
  | DeclObject o =>
      match gh o with
      | Some g =>
          (* Object with 'gh' = GitHub *)
          ok (github g (extractGitRef o) (spread_path o))
      | None =>
          match git o with
          | Some u =>
              (* Object with 'git' = generic git *)
              ok (git_ u (extractGitRef o) (spread_path o))
          | None =>
              if match type_ o with
                 | Some t => jeqb t CLAUDE_PLUGIN
                 | None => false
                 end
              then
                (* Object with 'type: claude-plugin' *)
                ok (claude_plugin (plugin o) (marketplace o))
              else
                match path o with
                | Some p =>
                    (* Object with 'path' = local *)
                    ok (local_ p)
                | None =>
                    fail (mkError invalid_dependency
                            (js "Unknown dependency format for '" ++ alias
                             ++ js "'")
                            None)
                end
          end
      end
  end.

(** ** Main parser *)

(** [KNOWN_AGENTS.has(id)] *)
Definition KNOWN_AGENTS_has (id : jstring) : bool := includes AgentId_options id.

(** Step 3: filter the agents to the known ids. *)
Definition process_agents (entries : list (jstring * bool)) : Obj.t bool :=
  fold_left
    (fun agents entry =>
       let '(id, enabled) := entry in
       if KNOWN_AGENTS_has id then Obj.set agents id enabled else agents)
    entries [].

(** Step 4: the loop over the declarations, left at the first failure. *)
Fixpoint process_dependencies (entries : list (jstring * Decl))
    (dependencies : Obj.t ValidatedDependency)
    : ParseResult (Obj.t ValidatedDependency) :=
  match entries with
  | [] => ok dependencies
  | (alias, decl) :: rest =>
      match parseDependency alias decl with
      | fail e => fail e
      | ok value => process_dependencies rest (Obj.set dependencies alias value)
      end
  end.

Definition issue_line (errorMap : Zod.ZodIssueCode -> jstring)
    (i : Zod.ZodIssue) : jstring :=
  join (js ".") (Zod.path i) ++ js ": " ++ Zod.message errorMap i.

Section Parser.

(** The TOML parser and zod's default error map. *)
Variable parseToml : jstring -> Toml.outcome.
Variable errorMap : Zod.ZodIssueCode -> jstring.

(** Parse and validate an agents.toml string *)
Definition parse (contents : jstring)
    : completion (ParseResult ValidatedManifest) :=
  (* Step 1: parse TOML *)
  match parseToml contents with
  | Toml.Throws err =>
      Return
        (fail (mkError invalid_toml
                 (match err with
                  | Toml.ThrownError m => m
                  | Toml.ThrownOther => js "Invalid TOML syntax"
                  end)
                 (Some (cause_thrown err))))
  | Toml.Parsed raw =>
      (* Step 2: validate against the schema *)
      match Zod.schema_parse ManifestSchema (Toml.Table raw) with
      | Zod.ThrowZodError issues =>
          Return
            (fail (mkError invalid_manifest
                     (js "Invalid manifest: "
                      ++ join (js "; ") (map (issue_line errorMap) issues))
                     (Some (cause_zod issues))))
      | Zod.ThrowError m => Throw m
      | Zod.Success manifest =>
          (* Step 3: process agents *)
          let agents := process_agents (agents manifest) in
          (* Step 4: process dependencies *)
          match process_dependencies (dependencies manifest) [] with
          | fail e => Return (fail e)
          | ok dependencies =>
              (* Step 5: build the validated manifest *)
              Return
                (ok (mkValidated (package manifest) agents dependencies
                                 (exports manifest)))
          end
      end
  end.

(** Parse agents.toml, throwing on error *)
Definition parseOrThrow (contents : jstring) : completion ValidatedManifest :=
  match parse contents with
  | Throw m => Throw m
  | Return (fail e) => Throw (message e)
  | Return (ok value) => Return value
  end.

End Parser.

End Parse.

(* ================================================================== *)
(** * Fixtures: documents with their trees, and the English error map *)
(* ================================================================== *)

Module Fixtures.

Import Schema Parse.

Definition DQ : jstring := [34%N].
Definition LF : jstring := [10%N].

Definition lines (l : list jstring) : jstring := join LF l.

(** [key = "value"] *)
Definition kv (key value : string) : jstring :=
  js key ++ js " = " ++ DQ ++ js value ++ DQ.

Definition str (s : string) : Toml.value := Toml.String (js s).

(** zod's default error map (locale en), for the issues the schemas leave
    without a message of their own. *)
Definition type_name (t : Zod.ZodParsedType) : jstring :=
  match t with
  | Zod.t_string => js "string"
  | Zod.t_nan => js "nan"
  | Zod.t_number => js "number"
  | Zod.t_boolean => js "boolean"
  | Zod.t_date => js "date"
  | Zod.t_undefined => js "undefined"
  | Zod.t_array => js "array"
  | Zod.t_object => js "object"
  end.

Definition en (c : Zod.ZodIssueCode) : jstring :=
  match c with
  | Zod.invalid_type _ Zod.t_undefined => js "Required"
  | Zod.invalid_type expected received =>
      js "Expected " ++ type_name expected ++ js ", received " ++ type_name received
  | Zod.invalid_literal (Zod.LitString s) =>
      js "Invalid literal value, expected " ++ DQ ++ s ++ DQ
  | Zod.invalid_literal (Zod.LitBoolean b) =>
      js "Invalid literal value, expected " ++ (if b then js "true" else js "false")
  | Zod.unrecognized_keys keys =>
      js "Unrecognized key(s) in object: "
      ++ join (js ", ") (map (fun k => js "'" ++ k ++ js "'") keys)
  | Zod.invalid_union => js "Invalid input"
  | Zod.invalid_string => js "Invalid"
  | Zod.too_small n =>
      js "String must contain at least "
      ++ js (NilEmpty.string_of_uint (Nat.to_uint n)) ++ js " character(s)"
  | Zod.custom => js "Invalid input"
  end.

(** Scenario 1: the minimal manifest. *)
Definition minimal_text : jstring :=
  lines [js "[package]"; kv "name" "test"; kv "version" "1.0.0";
         js "[agents]"; js "claude-code = true"].

Definition minimal_doc : Toml.table :=
  [(js "package", Toml.Table [(js "name", str "test"); (js "version", str "1.0.0")]);
   (js "agents", Toml.Table [(js "claude-code", Toml.Boolean true)])].

(** Scenario 2: a registry shorthand. *)
Definition registry_text : jstring :=
  lines [js "[agents]"; js "[dependencies]"; kv "superpowers" "superpowers@1.0.0"].

Definition registry_deps : Toml.table :=
  [(js "superpowers", str "superpowers@1.0.0")].

Definition registry_doc : Toml.table :=
  [(js "agents", Toml.Table []); (js "dependencies", Toml.Table registry_deps)].

(** Scenario 3: a GitHub dependency with a tag. *)
Definition github_text : jstring :=
  lines [js "[agents]"; js "[dependencies.sensei]";
         kv "gh" "sensei-marketplace/sensei"; kv "tag" "v2.0.0"].

Definition sensei : Toml.table :=
  [(js "gh", str "sensei-marketplace/sensei"); (js "tag", str "v2.0.0")].

Definition github_deps : Toml.table := [(js "sensei", Toml.Table sensei)].

Definition github_doc : Toml.table :=
  [(js "agents", Toml.Table []); (js "dependencies", Toml.Table github_deps)].

(** Scenario 4: a git dependency given by its SSH shorthand. *)
Definition ssh_text : jstring :=
  lines [js "[agents]"; js "[dependencies.ssh-dep]";
         kv "git" "git@github.com:org/repo.git"; kv "tag" "v1"].

Definition ssh_doc : Toml.table :=
  [(js "agents", Toml.Table []);
   (js "dependencies",
    Toml.Table [(js "ssh-dep",
                 Toml.Table [(js "git", str "git@github.com:org/repo.git");
                             (js "tag", str "v1")])])].

(** Scenario 5: two refs on a GitHub dependency. *)
Definition two_refs_text : jstring :=
  lines [js "[agents]"; js "[dependencies.bad]";
         kv "gh" "org/repo"; kv "tag" "v1"; kv "branch" "main"].

Definition two_refs : Toml.table :=
  [(js "gh", str "org/repo"); (js "tag", str "v1"); (js "branch", str "main")].

Definition two_refs_deps : Toml.table := [(js "bad", Toml.Table two_refs)].

Definition two_refs_doc : Toml.table :=
  [(js "agents", Toml.Table []); (js "dependencies", Toml.Table two_refs_deps)].

(** A manifest without an [agents] table. *)
Definition no_agents_text : jstring :=
  lines [js "[package]"; kv "name" "test"; kv "version" "1.0.0"].

Definition no_agents_doc : Toml.table :=
  [(js "package", Toml.Table [(js "name", str "test"); (js "version", str "1.0.0")])].

(** The same manifest with an empty [agents] table. *)
Definition empty_agents_text : jstring :=
  lines [js "[agents]"; js "[package]"; kv "name" "test"; kv "version" "1.0.0"].

Definition empty_agents_doc : Toml.table :=
  (js "agents", Toml.Table []) :: no_agents_doc.

(** An agent id of the future beside a known one. *)
Definition future_agent_text : jstring :=
  lines [js "[agents]"; js "claude-code = true"; js "future-agent = true"].

Definition future_agent_doc : Toml.table :=
  [(js "agents", Toml.Table [(js "claude-code", Toml.Boolean true);
                             (js "future-agent", Toml.Boolean true)])].

(** A string that is not a registry shorthand. *)
Definition not_shorthand_text : jstring :=
  lines [js "[agents]"; js "[dependencies]"; kv "broken" "no-version-here"].

Definition not_shorthand_deps : Toml.table :=
  [(js "broken", str "no-version-here")].

Definition not_shorthand_doc : Toml.table :=
  [(js "agents", Toml.Table []); (js "dependencies", Toml.Table not_shorthand_deps)].

(** A shorthand whose version holds a line feed (the escape \n of a TOML
    basic string). *)
Definition multiline_version_text : jstring :=
  lines [js "[agents]"; js "[dependencies]"; kv "dep" "pkg@1.0\n2.0"].

Definition multiline_version : jstring := js "pkg@1.0" ++ LF ++ js "2.0".

Definition multiline_version_doc : Toml.table :=
  [(js "agents", Toml.Table []);
   (js "dependencies", Toml.Table [(js "dep", Toml.String multiline_version)])].

(** An unknown top-level table. *)
Definition unknown_section_text : jstring :=
  lines [js "[agents]"; js "[unknown_section]"; kv "foo" "bar"].

Definition unknown_section_doc : Toml.table :=
  [(js "agents", Toml.Table []);
   (js "unknown_section", Toml.Table [(js "foo", str "bar")])].

Definition documents : Obj.t Toml.table :=
  [(minimal_text, minimal_doc);
   (registry_text, registry_doc);
   (github_text, github_doc);
   (ssh_text, ssh_doc);
   (two_refs_text, two_refs_doc);
   (no_agents_text, no_agents_doc);
   (empty_agents_text, empty_agents_doc);
   (future_agent_text, future_agent_doc);
   (not_shorthand_text, not_shorthand_doc);
   (multiline_version_text, multiline_version_doc);
   (unknown_section_text, unknown_section_doc)].

(** A TOML parser that knows the documents above and rejects any other
    text. *)
Definition parseToml (contents : jstring) : Toml.outcome :=
  match Obj.get documents contents with
  | Some doc => Toml.Parsed doc
  | None => Toml.Throws (Toml.ThrownError (js "Invalid TOML document"))
  end.

End Fixtures.

(** Further documents, for the corners of the dependency table. *)
Module Samples.

Import Schema Parse Fixtures.

(** A quoted key with its string value: ["key" = "value"]. *)
Definition quoted (key value : string) : jstring :=
  DQ ++ js key ++ DQ ++ js " = " ++ DQ ++ js value ++ DQ.

(** Two keys that differ by a leading space only. *)
Definition same_alias_text : jstring :=
  lines [js "[dependencies]"; quoted " a" "x@1"; kv "a" "y@2"].

Definition same_alias_deps : Toml.table :=
  [(js " a", str "x@1"); (js "a", str "y@2")].

Definition same_alias_doc : Toml.table :=
  [(js "dependencies", Toml.Table same_alias_deps)].

(** The key [__proto__], which the TOML parser stores as an own property. *)
Definition proto_alias_text : jstring :=
  lines [js "[dependencies]"; kv "__proto__" "x@1"].

Definition proto_alias_deps : Toml.table := [(js "__proto__", str "x@1")].

Definition proto_alias_doc : Toml.table :=
  [(js "dependencies", Toml.Table proto_alias_deps)].

(** A key with a dot. *)
Definition dotted_alias_text : jstring :=
  lines [js "[dependencies]"; quoted "a.b" "x@1"].

Definition dotted_alias_deps : Toml.table := [(js "a.b", str "x@1")].

Definition dotted_alias_doc : Toml.table :=
  [(js "dependencies", Toml.Table dotted_alias_deps)].

(** A GitHub dependency whose [gh] is no [owner/repo]. *)
Definition bad_gh_text : jstring :=
  lines [js "[dependencies.tool]"; kv "gh" "not-a-repo"].

Definition bad_gh : Toml.table := [(js "gh", str "not-a-repo")].

Definition bad_gh_deps : Toml.table := [(js "tool", Toml.Table bad_gh)].

Definition bad_gh_doc : Toml.table := [(js "dependencies", Toml.Table bad_gh_deps)].

(** A package without a version. *)
Definition no_version_text : jstring := lines [js "[package]"; kv "name" "test"].

Definition no_version : Toml.table := [(js "name", str "test")].

Definition no_version_doc : Toml.table := [(js "package", Toml.Table no_version)].

(** An agent whose value is a string. *)
Definition wrong_agent_text : jstring := lines [js "[agents]"; kv "future-agent" "yes"].

Definition wrong_agent : Toml.table := [(js "future-agent", str "yes")].

Definition wrong_agent_doc : Toml.table := [(js "agents", Toml.Table wrong_agent)].

(** A local dependency, with white space around its path. *)
Definition local_text : jstring :=
  lines [js "[dependencies.skills]"; kv "path" " ../skills "].

Definition local : Toml.table := [(js "path", str " ../skills ")].

Definition local_deps : Toml.table := [(js "skills", Toml.Table local)].

Definition local_doc : Toml.table := [(js "dependencies", Toml.Table local_deps)].

(** A Claude plugin. *)
Definition plugin_text : jstring :=
  lines [js "[dependencies.helper]"; kv "type" "claude-plugin";
         kv "plugin" "helper"; kv "marketplace" "official"].

Definition plugin : Toml.table :=
  [(js "type", str "claude-plugin"); (js "plugin", str "helper");
   (js "marketplace", str "official")].

Definition plugin_deps : Toml.table := [(js "helper", Toml.Table plugin)].

Definition plugin_doc : Toml.table := [(js "dependencies", Toml.Table plugin_deps)].

(** A dependency whose value is a boolean. *)
Definition flag_text : jstring := lines [js "[dependencies]"; js "tool = true"].

Definition flag_deps : Toml.table := [(js "tool", Toml.Boolean true)].

Definition flag_doc : Toml.table := [(js "dependencies", Toml.Table flag_deps)].

(** Skills discovery switched off, and switched on. *)
Definition skills_false_text : jstring :=
  lines [js "[exports.auto_discover]"; js "skills = false"].

Definition skills_false_doc : Toml.table :=
  [(js "exports",
    Toml.Table [(js "auto_discover", Toml.Table [(js "skills", Toml.Boolean false)])])].

Definition skills_true_text : jstring :=
  lines [js "[exports.auto_discover]"; js "skills = true"].

Definition skills_true_doc : Toml.table :=
  [(js "exports",
    Toml.Table [(js "auto_discover", Toml.Table [(js "skills", Toml.Boolean true)])])].

(** The minimal manifest with an empty [dependencies] table before it. *)
Definition empty_dependencies_text : jstring :=
  lines [js "[dependencies]"; js "[package]"; kv "name" "test"; kv "version" "1.0.0";
         js "[agents]"; js "claude-code = true"].

Definition empty_dependencies_doc : Toml.table :=
  (js "dependencies", Toml.Table []) :: minimal_doc.

Definition documents : Obj.t Toml.table :=
  [(same_alias_text, same_alias_doc);
   (proto_alias_text, proto_alias_doc);
   (dotted_alias_text, dotted_alias_doc);
   (bad_gh_text, bad_gh_doc);
   (no_version_text, no_version_doc);
   (wrong_agent_text, wrong_agent_doc);
   (local_text, local_doc);
   (plugin_text, plugin_doc);
   (flag_text, flag_doc);
   (skills_false_text, skills_false_doc);
   (skills_true_text, skills_true_doc);
   (empty_dependencies_text, empty_dependencies_doc)].

(** The parser of the fixtures, taught these documents too. *)
Definition parseToml (contents : jstring) : Toml.outcome :=
  match Obj.get documents contents with
  | Some doc => Toml.Parsed doc
  | None => Fixtures.parseToml contents
  end.

End Samples.

(* ================================================================== *)
(** * The vocabulary of the properties *)
(* ================================================================== *)

Module Spec.

Import Schema Parse.

(** The registry shorthand in words: an optional [@org/] prefix, a name,
    an [@], and a version that is whatever follows; org and name are not
    empty and consist of letters, digits, [_] and [-]; the version is not
    empty. *)
Definition shorthand (s : jstring) (org : option jstring) (name version : jstring)
    : Prop :=
  match org with
  | Some o => o <> [] /\ forallb word_dash o = true
  | None => True
  end
  /\ name <> [] /\ forallb word_dash name = true
  /\ version <> []
  /\ s = match org with
         | Some o => [AT] ++ o ++ [SLASH]
         | None => []
         end ++ name ++ [AT] ++ version.

(** The groups of a match of [REGISTRY_PATTERN] on such a string. *)
Definition captured (org : option jstring) (name version : jstring) : captures :=
  (3, version) :: (2, name)
  :: match org with Some o => [(1, o)] | None => [] end.

(** No line terminator occurs in the string. *)
Definition single_line (s : jstring) : Prop := forallb dot s = true.

(** The ref of a declaration in words: [tag], then [branch], then [rev];
    the first that is present and not empty, with its kind. *)
Definition first_ref (o : DeclFields) : option GitRef :=
  hd_error
    (flat_map
       (fun candidate =>
          match snd candidate with
          | Some s => if truthy s then [mkRef (fst candidate) s] else []
          | None => []
          end)
       [(ref_tag, tag o); (ref_branch, branch o); (ref_rev, rev o)]).

(** The declaration came out of the structural union. *)
Definition accepted (decl : Decl) : Prop :=
  exists p data issues,
    DependencyDeclaration p data = (Zod.OK decl, issues).

Definition ref_fields : list jstring := [js "tag"; js "branch"; js "rev"].

(** The property is a string that is not empty once trimmed. *)
Definition nonblank (t : Toml.table) (key : jstring) : bool :=
  match Obj.get t key with
  | Some (Toml.String s) => truthy (trim s)
  | _ => false
  end.

Definition is_string (t : Toml.table) (key : jstring) : bool :=
  match Obj.get t key with
  | Some (Toml.String _) => true
  | _ => false
  end.

Definition string_or_absent (t : Toml.table) (key : jstring) : bool :=
  match Obj.get t key with
  | None | Some (Toml.String _) => true
  | _ => false
  end.

(** Number of the properties [tag], [branch], [rev] that the table has. *)
Definition refs_present (t : Toml.table) : nat :=
  List.length (filter (Obj.has t) ref_fields).

(** Number of them that are strings with some text. *)
Definition refs_nonblank (t : Toml.table) : nat :=
  List.length (filter (nonblank t) ref_fields).

(** [branch], [path], [rev] and [tag] are strings where present. *)
Definition typed_fields (t : Toml.table) : bool :=
  forallb (string_or_absent t) [js "branch"; js "path"; js "rev"; js "tag"].

(** A table with the types of a GitHub or git declaration: [gh] or [git] is
    a string, and the optional fields are strings where present. *)
Definition ref_declaration (t : Toml.table) : bool :=
  (is_string t (js "gh") || is_string t (js "git")) && typed_fields t.

(** A GitHub declaration that is well formed but for the number of its
    refs. *)
Definition github_fields_ok (t : Toml.table) : bool :=
  forallb (includes Github_keys) (Obj.keys t)
  && match Obj.get t (js "gh") with
     | Some (Toml.String g) => RegExp.test GithubRefPattern g
     | _ => false
     end
  && forallb (fun k => negb (Obj.has t k) || nonblank t k)
             [js "branch"; js "path"; js "rev"; js "tag"].

(** The same for a git declaration. *)
Definition git_fields_ok (t : Toml.table) : bool :=
  forallb (includes Git_keys) (Obj.keys t)
  && nonblank t (js "git")
  && forallb (fun k => negb (Obj.has t k) || nonblank t k)
             [js "branch"; js "path"; js "rev"; js "tag"].

(** The table has a key outside the set. *)
Definition key_outside (declared : list jstring) (t : Toml.table) : bool :=
  existsb (fun k => negb (includes declared k)) (Obj.keys t).

(** The field set of the form that a dependency table declares; the forms
    are told apart by [gh], then [git], then [type], as the parser does. *)
Definition declared_fields (t : Toml.table) : list jstring :=
  if Obj.has t (js "gh") then Github_keys
  else if Obj.has t (js "git") then Git_keys
  else if Obj.has t (js "type") then ClaudePlugin_keys
  else Local_keys.

(** The places where a document can hold a key that no schema declares. *)
Inductive unknown_key (doc : Toml.table) : Prop :=
| unknown_top_level :
    key_outside Manifest_keys doc = true -> unknown_key doc
| unknown_in_package t :
    Obj.get doc (js "package") = Some (Toml.Table t) ->
    key_outside Package_keys t = true -> unknown_key doc
| unknown_in_exports t :
    Obj.get doc (js "exports") = Some (Toml.Table t) ->
    key_outside Exports_keys t = true -> unknown_key doc
| unknown_in_auto_discover e t :
    Obj.get doc (js "exports") = Some (Toml.Table e) ->
    Obj.get e (js "auto_discover") = Some (Toml.Table t) ->
    key_outside AutoDiscover_keys t = true -> unknown_key doc
| unknown_in_dependency deps alias t :
    Obj.get doc (js "dependencies") = Some (Toml.Table deps) ->
    Obj.get deps alias = Some (Toml.Table t) ->
    key_outside (declared_fields t) t = true ->
    unknown_key doc.

(** The boolean that the raw [agents] table gives to an id. *)
Definition raw_agent (doc : Toml.table) (id : jstring) : option bool :=
  match Obj.get doc (js "agents") with
  | Some (Toml.Table entries) =>
      match Obj.get entries id with
      | Some (Toml.Boolean b) => Some b
      | _ => None
      end
  | _ => None
  end.

(** The outcomes of the four sections of a document. *)
Definition agents_outcome (doc : Toml.table) : Zod.ParseReturn Agents :=
  Zod.field [] doc (js "agents")
    (Zod.optional_default AgentsSchema (Toml.Table [])).

Definition dependencies_outcome (doc : Toml.table) : Zod.ParseReturn Dependencies :=
  Zod.field [] doc (js "dependencies")
    (Zod.optional_default DependenciesSchema (Toml.Table [])).

Definition exports_outcome (doc : Toml.table) : Zod.ParseReturn (option Exports) :=
  Zod.field [] doc (js "exports") (Zod.optional ExportsSchema).

Definition package_outcome (doc : Toml.table) : Zod.ParseReturn (option Package) :=
  Zod.field [] doc (js "package") (Zod.optional PackageSchema).

(** The outcome of the whole document. *)
Definition manifest_outcome (doc : Toml.table) : Zod.ParseReturn Manifest :=
  ManifestSchema [] (Some (Toml.Table doc)).

(** The string property of a table, trimmed. *)
Definition trimmed (t : Toml.table) (key : jstring) : option jstring :=
  match Obj.get t key with
  | Some (Toml.String s) => Some (trim s)
  | _ => None
  end.

(** An optional string that is not empty when present. *)
Definition filled (v : option jstring) : Prop :=
  match v with
  | Some [] => False
  | _ => True
  end.

(** The objects that the four object schemas produce. *)
Inductive decl_shape : DeclFields -> Prop :=
| shape_github b g pa r t :
    filled pa -> decl_shape (mkDecl b (Some g) None None pa None r t None)
| shape_git b u pa r t :
    filled pa -> decl_shape (mkDecl b None (Some u) None pa None r t None)
| shape_local pa :
    decl_shape (mkDecl None None None None (Some pa) None None None None)
| shape_plugin m pl :
    decl_shape (mkDecl None None None (Some m) None (Some pl) None None
                       (Some CLAUDE_PLUGIN)).

(** The line of the message for an issue at a dependency. *)
Definition dependency_line (alias msg : jstring) : jstring :=
  js "dependencies." ++ alias ++ js ": " ++ msg.

(** No other key of the table is the alias once trimmed. *)
Definition unique_alias (deps : Toml.table) (alias : jstring) : Prop :=
  forall k, In k (Obj.keys deps) -> trim k = trim alias -> k = alias.

(** The document is valid but, perhaps, for the value of one entry of its
    dependencies: it has no unknown top-level key, its other sections pass
    their schemas, every key of the dependencies passes the schema of
    aliases, and every other entry passes the union of declarations. *)
Definition valid_but_for (doc deps : Toml.table) (alias : jstring) : Prop :=
  key_outside Manifest_keys doc = false
  /\ Zod.isValid (fst (agents_outcome doc)) = true
  /\ Zod.isValid (fst (exports_outcome doc)) = true
  /\ Zod.isValid (fst (package_outcome doc)) = true
  /\ Obj.get doc (js "dependencies") = Some (Toml.Table deps)
  /\ (forall key,
         In key (Obj.keys deps) ->
         Zod.isValid (fst (Alias [js "dependencies"; key] (Some (Toml.String key))))
         = true)
  /\ (forall key,
         In key (Obj.keys deps) -> key <> alias ->
         Zod.isValid
           (fst (DependencyDeclaration [js "dependencies"; key] (Obj.get deps key)))
         = true).

(** The error of a failed parse. *)
Definition fails_with (r : completion (ParseResult ValidatedManifest))
    (kind : ParseErrorType) (msg : jstring) : Prop :=
  exists c, r = Return (fail (mkError kind msg c)).

End Spec.

(* ================================================================== *)
(** * Further vocabulary: aliases, GitHub references, messages *)
(* ================================================================== *)

Module More.

Import Schema Parse Spec.

(** The rules of an alias, on the trimmed key: not empty, and none of
    [/], [\], [.], [:]. *)
Definition alias_ok (a : jstring) : bool :=
  truthy a && negb (includes_unit a 47) && negb (includes_unit a 92)
  && negb (includes_unit a 46) && negb (includes_unit a 58).

(** [owner/repo] in words: two non-empty runs of letters, digits, [_], [.]
    and [-] around one slash. *)
Definition owner_repo (s owner repo : jstring) : Prop :=
  owner <> [] /\ forallb word_dot_dash owner = true
  /\ repo <> [] /\ forallb word_dot_dash repo = true
  /\ s = owner ++ [SLASH] ++ repo.

(** Some code unit of the string is no white space and no line
    terminator. *)
Definition has_text (s : jstring) : bool :=
  existsb (fun c => negb (isTrimmable c)) s.

(** The options of the union of declarations, in the order of the source. *)
Definition declaration_options : list (Zod.ZodType Decl) :=
  [ Zod.retag DeclString RegistryDependency;
    Zod.retag DeclObject GithubDependency;
    Zod.retag DeclObject GitDependency;
    Zod.retag DeclObject LocalDependency;
    Zod.retag DeclObject ClaudePluginDependency ].

(** The line of the message for an issue: its path, a colon, its text. *)
Definition message_line (path : list jstring) (msg : jstring) : jstring :=
  join (js ".") path ++ js ": " ++ msg.

(** The message of what the TOML parser threw. *)
Definition thrown_message (err : Toml.thrown) : jstring :=
  match err with
  | Toml.ThrownError m => m
  | Toml.ThrownOther => js "Invalid TOML syntax"
  end.

Definition is_boolean (v : Toml.value) : bool :=
  match v with Toml.Boolean _ => true | _ => false end.

(** The package that the schema makes of a table with a name and a
    version. *)
Definition package_of (t : Toml.table) (name version : jstring) : Package :=
  mkPackage (trimmed t (js "description")) (trimmed t (js "license")) (trim name)
            (trimmed t (js "org")) (trim version).

(** The number of refs that a declaration carries. *)
Definition refs_carried (o : DeclFields) : nat :=
  List.length (filter Boolean [tag o; branch o; rev o]).

(** The issues of an alias, one for each rule that the trimmed key breaks,
    in the order of the rules. *)
Definition alias_issues (p : list jstring) (a : jstring) : list Zod.ZodIssue :=
  (if truthy a then []
   else [Zod.mkIssue (Zod.too_small 1) p (Some (js "Alias cannot be empty"))])
  ++ (if includes_unit a 47
      then [Zod.mkIssue Zod.custom p (Some (js "Alias cannot contain '/'"))]
      else [])
  ++ (if includes_unit a 92
      then [Zod.mkIssue Zod.custom p (Some (js "Alias cannot contain '\'"))]
      else [])
  ++ (if includes_unit a 46
      then [Zod.mkIssue Zod.custom p (Some (js "Alias cannot contain '.'"))]
      else [])
  ++ (if includes_unit a 58
      then [Zod.mkIssue Zod.custom p (Some (js "Alias cannot contain ':'"))]
      else []).

(** The text of a registry dependency: [@org/name@version], or
    [name@version] without an org. *)
Definition render (org : option jstring) (name version : jstring) : jstring :=
  match org with
  | Some o => [AT] ++ o ++ [SLASH]
  | None => []
  end ++ name ++ [AT] ++ version.

(** Not empty, and without white space at either end. *)
Definition clean (s : jstring) : Prop := s <> [] /\ trim s = s.

Definition clean_opt (v : option jstring) : Prop :=
  match v with Some s => clean s | None => True end.

Definition clean_ref (r : option GitRef) : Prop :=
  match r with Some r => clean (ref_value r) | None => True end.

(** What holds of a dependency that the parser resolved from a validated
    declaration. *)
Definition well_formed (d : ValidatedDependency) : Prop :=
  match d with
  | github g r pa =>
      (exists owner repo, owner_repo g owner repo) /\ clean_ref r /\ clean_opt pa
  | git_ u r pa => clean u /\ clean_ref r /\ clean_opt pa
  | registry n o v =>
      shorthand (render o n v) o n v /\ single_line v
  | local_ pa => clean pa
  | claude_plugin pl m =>
      (exists s, pl = Some s /\ clean s) /\ (exists s, m = Some s /\ clean s)
  end.

(** The objects that the four object forms let through: the strings are
    trimmed and not empty, [gh] is an [owner/repo], at most one ref is
    given. *)
Inductive valid_object : DeclFields -> Prop :=
| valid_github b g pa r t :
    RegExp.test GithubRefPattern g = true ->
    clean_opt b -> clean_opt pa -> clean_opt r -> clean_opt t ->
    one_ref_at_most (mkDecl b (Some g) None None pa None r t None) = true ->
    valid_object (mkDecl b (Some g) None None pa None r t None)
| valid_git b u pa r t :
    clean u ->
    clean_opt b -> clean_opt pa -> clean_opt r -> clean_opt t ->
    one_ref_at_most (mkDecl b None (Some u) None pa None r t None) = true ->
    valid_object (mkDecl b None (Some u) None pa None r t None)
| valid_local pa :
    clean pa ->
    valid_object (mkDecl None None None None (Some pa) None None None None)
| valid_plugin m pl :
    clean m -> clean pl ->
    valid_object (mkDecl None None None (Some m) None (Some pl) None None
                         (Some CLAUDE_PLUGIN)).

Definition valid_declaration (d : Decl) : Prop :=
  match d with
  | DeclString s =>
      exists org name version, shorthand s org name version /\ single_line version
  | DeclObject o => valid_object o
  end.

(** The ref field of a kind. *)
Definition ref_field (kind : RefKind) (o : DeclFields) : option jstring :=
  match kind with
  | ref_tag => tag o
  | ref_branch => branch o
  | ref_rev => rev o
  end.

(** The messages of the rules that an alias breaks. *)
Definition broken_rules (a : jstring) : list jstring :=
  (if truthy a then [] else [js "Alias cannot be empty"])
  ++ (if includes_unit a 47 then [js "Alias cannot contain '/'"] else [])
  ++ (if includes_unit a 92 then [js "Alias cannot contain '\'"] else [])
  ++ (if includes_unit a 46 then [js "Alias cannot contain '.'"] else [])
  ++ (if includes_unit a 58 then [js "Alias cannot contain ':'"] else []).

(** The message of [NonEmptyString] on a datum that it refuses: its own for
    a string, the one of the error map for anything else. *)
Definition string_message (errorMap : Zod.ZodIssueCode -> jstring)
    (data : option Toml.value) : jstring :=
  match data with
  | Some (Toml.String _) => js "String cannot be empty"
  | _ => errorMap (Zod.invalid_type Zod.t_string (Zod.getParsedType data))
  end.

(** The skills that the schema of the exports lets through: a directory
    that is not blank, trimmed, or [false]. *)
Definition skills_of (v : Toml.value) : option Skills :=
  match v with
  | Toml.String s => if has_text s then Some (SkillsDir (trim s)) else None
  | Toml.Boolean false => Some SkillsFalse
  | _ => None
  end.

End More.

(* ================================================================== *)
(** * Strings: equality, joining, substrings *)
(* ================================================================== *)

Module JSFacts.

Lemma jeqb_true_iff (a b : jstring) : jeqb a b = true <-> a = b.
Proof.
  unfold jeqb. destruct (list_eq_dec N.eq_dec a b); split; congruence.
Qed.

Lemma jeqb_false_iff (a b : jstring) : jeqb a b = false <-> a <> b.
Proof.
  unfold jeqb. destruct (list_eq_dec N.eq_dec a b); split; congruence.
Qed.

Lemma jeqb_refl (a : jstring) : jeqb a a = true.
Proof. now apply jeqb_true_iff. Qed.

Lemma jeqb_sym (a b : jstring) : jeqb a b = jeqb b a.
Proof.
  destruct (jeqb b a) eqn:E.
  - apply jeqb_true_iff in E. subst. apply jeqb_refl.
  - apply jeqb_false_iff in E. apply jeqb_false_iff. congruence.
Qed.

Lemma includes_true_iff (l : list jstring) (k : jstring) :
  includes l k = true <-> In k l.
Proof.
  unfold includes. rewrite existsb_exists. split.
  - intros (x & Hin & E). apply jeqb_true_iff in E. now subst.
  - intros Hin. exists k. split; [assumption | apply jeqb_refl].
Qed.

Lemma mentions_here (a x b : jstring) : mentions (a ++ x ++ b) x.
Proof. now exists a, b. Qed.

Lemma mentions_refl (x : jstring) : mentions x x.
Proof. exists [], []. now rewrite app_nil_r. Qed.

Lemma mentions_app_r (a m x : jstring) : mentions m x -> mentions (a ++ m) x.
Proof.
  intros (pre & post & ->). exists (a ++ pre), post. now rewrite <- app_assoc.
Qed.

Lemma mentions_app_l (m b x : jstring) : mentions m x -> mentions (m ++ b) x.
Proof.
  intros (pre & post & ->). exists pre, (post ++ b).
  now rewrite <- !app_assoc.
Qed.

Lemma mentions_trans (m y x : jstring) :
  mentions m y -> mentions y x -> mentions m x.
Proof.
  intros (a & b & ->) (c & d & ->).
  exists (a ++ c), (d ++ b). now rewrite <- !app_assoc.
Qed.

Lemma mentions_join (sep : jstring) (l : list jstring) (x : jstring) :
  In x l -> mentions (join sep l) x.
Proof.
  induction l as [|y l IH]; intros Hin; [contradiction|].
  destruct Hin as [-> | Hin].
  - destruct l; simpl.
    + apply mentions_refl.
    + apply (mentions_here [] x).
  - specialize (IH Hin). destruct l as [|z l]; [contradiction|].
    change (join sep (y :: z :: l)) with (y ++ sep ++ join sep (z :: l)).
    now apply mentions_app_r, mentions_app_r.
Qed.

Lemma truthy_true_iff (s : jstring) : truthy s = true <-> s <> [].
Proof. destruct s; simpl; split; congruence. Qed.

End JSFacts.
Import JSFacts.

(* ================================================================== *)
(** * The matcher *)
(* ================================================================== *)

Module RegExpFacts.

(** A greedy run takes the whole run when the continuation accepts that. *)
Lemma star_greedy cls k res (w : jstring) :
  forall pos rest,
    forallb cls w = true -> stops cls rest ->
    k (pos + List.length w) rest = Some res ->
    star cls pos (w ++ rest) k = Some res.
Proof.
  induction w as [|c w IH]; intros pos rest Hw Hstop Hk; simpl in *.
  - rewrite Nat.add_0_r in Hk.
    destruct rest as [|c rest]; simpl; [assumption|].
    simpl in Hstop. now rewrite Hstop.
  - apply andb_true_iff in Hw as [Hc Hw]. rewrite Hc.
    rewrite (IH (S pos) rest Hw Hstop); [reflexivity|].
    now rewrite <- Nat.add_succ_comm in Hk.
Qed.

(** Whatever a run returns was returned by the continuation after some
    prefix of the class. *)
Lemma star_inv cls k res (s : jstring) :
  forall pos,
    star cls pos s k = Some res ->
    exists w rest,
      s = w ++ rest /\ forallb cls w = true
      /\ k (pos + List.length w) rest = Some res.
Proof.
  induction s as [|c s IH]; intros pos H; simpl in H.
  - exists [], []. simpl. now rewrite Nat.add_0_r.
  - destruct (cls c) eqn:Hc.
    + destruct (star cls (S pos) s k) eqn:Hs.
      * injection H as ->. destruct (IH _ Hs) as (w & rest & -> & Hw & Hk).
        exists (c :: w), rest. simpl. rewrite Hc, Hw.
        now rewrite <- Nat.add_succ_comm.
      * exists [], (c :: s). simpl. now rewrite Nat.add_0_r.
    + exists [], (c :: s). simpl. now rewrite Nat.add_0_r.
Qed.

Lemma star_succeeds cls k k' :
  (forall p t, succeeds (k p t) = succeeds (k' p t)) ->
  forall s pos, succeeds (star cls pos s k) = succeeds (star cls pos s k').
Proof.
  intros Hk. induction s as [|c s IH]; intros pos; simpl; [apply Hk|].
  destruct (cls c); [|apply Hk].
  specialize (IH (S pos)).
  destruct (star cls (S pos) s k), (star cls (S pos) s k');
    simpl in *; try congruence; apply Hk.
Qed.

(** Capturing groups do not change whether an expression matches. *)
Lemma run_erase (r : regex) :
  forall pos s caps caps' k k',
    (forall p t c c', succeeds (k p t c) = succeeds (k' p t c')) ->
    succeeds (run r pos s caps k) = succeeds (run (erase r) pos s caps' k').
Proof.
  induction r as [c|cls|r1 IH1 r2 IH2|r IH|i r IH| |];
    intros pos s caps caps' k k' Hk; simpl.
  - destruct s as [|c' s]; [reflexivity|]. destruct (c =? c')%N; [apply Hk|reflexivity].
  - destruct s as [|c s]; [reflexivity|]. destruct (cls c); [|reflexivity].
    apply star_succeeds. intros. apply Hk.
  - apply IH1. intros. now apply IH2.
  - specialize (IH pos s caps caps' k k' Hk).
    destruct (run r pos s caps k), (run (erase r) pos s caps' k');
      simpl in *; try congruence; apply Hk.
  - apply IH. intros. apply Hk.
  - destruct (Nat.eqb pos 0); [apply Hk|reflexivity].
  - destruct s; [apply Hk|reflexivity].
Qed.

Lemma exec_from_erase (r : regex) (s : jstring) :
  forall pos, succeeds (exec_from r pos s) = succeeds (exec_from (erase r) pos s).
Proof.
  induction s as [|c s IH]; intros pos; simpl.
  - pose proof (run_erase r pos [] [] [] (fun _ _ c => Some c) (fun _ _ c => Some c)
                 (fun _ _ _ _ => eq_refl)) as E.
    destruct (run r pos [] [] _), (run (erase r) pos [] [] _); simpl in *; congruence.
  - pose proof (run_erase r pos (c :: s) [] [] (fun _ _ c => Some c) (fun _ _ c => Some c)
                 (fun _ _ _ _ => eq_refl)) as E.
    destruct (run r pos (c :: s) [] _), (run (erase r) pos (c :: s) [] _);
      simpl in *; try congruence; apply IH.
Qed.

Lemma test_erase (r : regex) (s : jstring) : test r s = test (erase r) s.
Proof.
  unfold test, exec. pose proof (exec_from_erase r s 0) as E.
  destruct (exec_from r 0 s), (exec_from (erase r) 0 s); simpl in *; congruence.
Qed.

(** The first successful start index gives the match. *)
Lemma exec_from_run r pos s c :
  run r pos s [] (fun _ _ c => Some c) = Some c -> exec_from r pos s = Some c.
Proof. intros H. destruct s; simpl; now rewrite H. Qed.

(** An anchored expression matches at the start of the input only. *)
Lemma exec_from_anchored r (s : jstring) :
  forall pos, exec_from (Seq Bol r) (S pos) s = None.
Proof. induction s as [|c s IH]; intros pos; simpl; [reflexivity|apply IH]. Qed.

Lemma exec_anchored r s c :
  exec (Seq Bol r) s = Some c ->
  run r 0 s [] (fun _ _ c => Some c) = Some c.
Proof.
  unfold exec. destruct s as [|x s]; simpl.
  - destruct (run r 0 [] [] _); congruence.
  - destruct (run r 0 (x :: s) [] _); [congruence|].
    now rewrite exec_from_anchored.
Qed.

(** [cls+] inside a group, run forwards. *)
Lemma run_group_plus i cls (w rest : jstring) pos caps k res :
  w <> [] -> forallb cls w = true -> stops cls rest ->
  k (pos + List.length w) rest ((i, w) :: caps) = Some res ->
  run (Group i (Plus cls)) pos (w ++ rest) caps k = Some res.
Proof.
  intros Hne Hw Hstop Hk. destruct w as [|c w]; [congruence|].
  simpl in Hw. apply andb_true_iff in Hw as [Hc Hw].
  simpl run. rewrite Hc. apply star_greedy; try assumption.
  change (List.length (c :: w)) with (S (List.length w)) in Hk.
  replace (S pos + List.length w) with (pos + S (List.length w)) by lia.
  replace (pos + S (List.length w) - pos) with (S (List.length w)) by lia.
  replace (firstn (S (List.length w)) (c :: w ++ rest)) with (c :: w); [assumption|].
  simpl. now rewrite firstn_app, firstn_all, Nat.sub_diag, firstn_O, app_nil_r.
Qed.


(** [cls+], run backwards. *)
Lemma run_plus_inv cls s pos caps k res :
  run (Plus cls) pos s caps k = Some res ->
  exists w rest,
    s = w ++ rest /\ w <> [] /\ forallb cls w = true
    /\ k (pos + List.length w) rest caps = Some res.
Proof.
  simpl. destruct s as [|c s]; [congruence|]. destruct (cls c) eqn:Hc; [|congruence].
  intros H. apply star_inv in H as (w & rest & -> & Hw & Hk).
  exists (c :: w), rest. simpl. rewrite Hc, Hw.
  repeat split; try congruence.
  now replace (pos + S (List.length w)) with (S pos + List.length w) by lia.
Qed.

Lemma run_chr_inv c s pos caps k res :
  run (Chr c) pos s caps k = Some res ->
  exists rest, s = c :: rest /\ k (S pos) rest caps = Some res.
Proof.
  simpl. destruct s as [|c' s]; [congruence|].
  destruct (c =? c')%N eqn:E; [|congruence].
  apply N.eqb_eq in E. subst. intros H. now exists s.
Qed.

Lemma word_dash_not_AT c : word_dash c = true -> (AT =? c)%N = false.
Proof.
  intros H. apply N.eqb_neq. intros <-. vm_compute in H. discriminate.
Qed.

End RegExpFacts.
Import RegExpFacts.

(* ================================================================== *)
(** * The two registry patterns *)
(* ================================================================== *)

Module RegistryFacts.

Import Schema Parse Spec.
Local Open Scope regex_scope.

Lemma run_Seq r1 r2 pos s caps k :
  run (r1 ;; r2) pos s caps k = run r1 pos s caps (fun p t c => run r2 p t c k).
Proof. reflexivity. Qed.

Lemma run_Chr_hit c pos s caps k :
  run (Chr c) pos (c :: s) caps k = k (S pos) s caps.
Proof. simpl. now rewrite N.eqb_refl. Qed.

Lemma run_Chr_miss c c' pos s caps k :
  (c =? c')%N = false -> run (Chr c) pos (c' :: s) caps k = None.
Proof. intros E. simpl. now rewrite E. Qed.

Lemma run_Eol_nil pos caps k : run Eol pos [] caps k = k pos [] caps.
Proof. reflexivity. Qed.

Lemma run_Bol_0 s caps k : run Bol 0 s caps k = k 0 s caps.
Proof. reflexivity. Qed.

Lemma run_Opt r pos s caps k :
  run (Opt r) pos s caps k =
  match run r pos s caps k with Some res => Some res | None => k pos s caps end.
Proof. reflexivity. Qed.

Lemma run_Group i r pos s caps k :
  run (Group i r) pos s caps k =
  run r pos s caps (fun p t c => k p t ((i, firstn (p - pos) s) :: c)).
Proof. reflexivity. Qed.

(** [NAME@VERSION$] run forwards. *)
Lemma name_version_forward name version pos caps :
  name <> [] -> forallb word_dash name = true ->
  version <> [] -> single_line version ->
  run (Group 2 (Plus word_dash) ;; Chr AT ;; Group 3 (Plus dot) ;; Eol)
      pos (name ++ [AT] ++ version) caps (fun _ _ c => Some c)
  = Some ((3, version) :: (2, name) :: caps).
Proof.
  intros Hn Hnw Hv Hsl.
  rewrite run_Seq. apply run_group_plus; try assumption; [reflexivity|].
  simpl app. rewrite run_Seq, run_Chr_hit, run_Seq.
  rewrite <- (app_nil_r version) at 1.
  apply run_group_plus; try assumption; [exact I|].
  reflexivity.
Qed.

Lemma REGISTRY_PATTERN_exec s org name version :
  shorthand s org name version -> single_line version ->
  exec REGISTRY_PATTERN s = Some (captured org name version).
Proof.
  intros (Horg & Hn & Hnw & Hv & ->) Hsl.
  apply exec_from_run. unfold REGISTRY_PATTERN.
  rewrite run_Seq, run_Bol_0, run_Seq, run_Opt.
  destruct org as [o|].
  - destruct Horg as [Ho How].
    match goal with
    | |- match ?x with _ => _ end = _ =>
        assert (E : x = Some (captured (Some o) name version)); [|now rewrite E]
    end.
    rewrite !run_Seq. simpl app at 1. rewrite run_Chr_hit.
    rewrite <- app_assoc.
    apply run_group_plus; try assumption; [reflexivity|].
    cbn [app]. rewrite N.eqb_refl.
    now apply name_version_forward.
  - simpl app at 1.
    replace (run (Chr AT ;; Group 1 (Plus word_dash) ;; Chr SLASH) 0 (name ++ [AT] ++ version) [] _)
      with (@None captures).
    + now apply name_version_forward.
    + destruct name as [|c name]; [congruence|].
      simpl in Hnw. apply andb_true_iff in Hnw as [Hc _].
      rewrite run_Seq. symmetry. apply run_Chr_miss. now apply word_dash_not_AT.
Qed.

(** [NAME@VERSION$] run backwards. *)
Lemma name_version_inv s pos caps res :
  run (Group 2 (Plus word_dash) ;; Chr AT ;; Group 3 (Plus dot) ;; Eol)
      pos s caps (fun _ _ c => Some c) = Some res ->
  exists name version,
    s = name ++ [AT] ++ version /\ name <> [] /\ forallb word_dash name = true
    /\ version <> [] /\ single_line version.
Proof.
  rewrite run_Seq, run_Group. intros H.
  apply run_plus_inv in H as (name & rest & -> & Hn & Hnw & H).
  rewrite run_Seq in H. apply run_chr_inv in H as (rest' & -> & H).
  rewrite run_Seq, run_Group in H.
  apply run_plus_inv in H as (version & rest & -> & Hv & Hvd & H).
  destruct rest; [|discriminate].
  exists name, version. rewrite app_nil_r. now repeat split.
Qed.

Lemma REGISTRY_PATTERN_inv s m :
  exec REGISTRY_PATTERN s = Some m ->
  exists org name version, shorthand s org name version /\ single_line version.
Proof.
  intros H. apply exec_anchored in H.
  rewrite run_Seq, run_Opt in H.
  destruct (run (Chr AT ;; Group 1 (Plus word_dash) ;; Chr SLASH) 0 s [] _) eqn:E.
  - clear H. rewrite run_Seq in E. apply run_chr_inv in E as (rest & -> & E).
    rewrite run_Seq, run_Group in E.
    apply run_plus_inv in E as (o & rest' & -> & Ho & How & E).
    apply run_chr_inv in E as (rest & -> & E).
    apply name_version_inv in E as (name & version & -> & Hn & Hnw & Hv & Hsl).
    exists (Some o), name, version. split; [|assumption].
    unfold shorthand. repeat split; try assumption.
    simpl. now rewrite <- app_assoc.
  - apply name_version_inv in H as (name & version & -> & Hn & Hnw & Hv & Hsl).
    exists None, name, version. split; [|assumption].
    unfold shorthand. now repeat split.
Qed.

(** The schema's pattern and the parser's pattern accept the same strings. *)
Lemma RegistryPattern_test s :
  RegExp.test RegistryPattern s = succeeds (exec REGISTRY_PATTERN s).
Proof.
  rewrite test_erase.
  change (erase RegistryPattern) with (erase REGISTRY_PATTERN).
  rewrite <- test_erase. unfold RegExp.test.
  now destruct (exec REGISTRY_PATTERN s).
Qed.

(** Groups 2 and 3 take part in every match. *)
Lemma REGISTRY_PATTERN_groups s m :
  exec REGISTRY_PATTERN s = Some m ->
  exists name version, capture m 2 = Some name /\ capture m 3 = Some version.
Proof.
  intros H. destruct (REGISTRY_PATTERN_inv _ H) as (org & name & version & Hs & Hsl).
  rewrite (REGISTRY_PATTERN_exec Hs Hsl) in H. injection H as <-.
  now exists name, version.
Qed.

Lemma parseRegistryString_shorthand s org name version :
  shorthand s org name version -> single_line version ->
  parseRegistryString s = Some (registry name org version).
Proof.
  intros Hs Hsl. unfold parseRegistryString.
  rewrite (REGISTRY_PATTERN_exec Hs Hsl). simpl.
  destruct org as [o|]; [|reflexivity].
  destruct Hs as ((Ho & _) & _). simpl. now destruct o.
Qed.

(** A string that the schema lets through is resolved by the parser. *)
Lemma parseRegistryString_accepted s :
  RegExp.test RegistryPattern s = true ->
  exists org name version,
    shorthand s org name version /\ single_line version
    /\ parseRegistryString s = Some (registry name org version).
Proof.
  rewrite RegistryPattern_test. destruct (exec REGISTRY_PATTERN s) eqn:E; [|discriminate].
  intros _. destruct (REGISTRY_PATTERN_inv _ E) as (org & name & version & Hs & Hsl).
  exists org, name, version. split; [assumption | split; [assumption|]].
  now apply parseRegistryString_shorthand.
Qed.

(** A string outside the shorthand fails the schema's pattern. *)
Lemma RegistryPattern_rejects s :
  ~ (exists org name version, shorthand s org name version /\ single_line version) ->
  RegExp.test RegistryPattern s = false.
Proof.
  intros Hno. destruct (RegExp.test RegistryPattern s) eqn:E; [|reflexivity].
  destruct (parseRegistryString_accepted _ E) as (org & name & version & Hs & Hsl & _).
  exfalso. apply Hno. now exists org, name, version.
Qed.

Lemma RegistryPattern_accepts s org name version :
  shorthand s org name version -> single_line version ->
  RegExp.test RegistryPattern s = true.
Proof.
  intros Hs Hsl. rewrite RegistryPattern_test.
  now rewrite (REGISTRY_PATTERN_exec Hs Hsl).
Qed.

End RegistryFacts.
Import RegistryFacts.

(* ================================================================== *)
(** * The combinators: validity, values and issues *)
(* ================================================================== *)

Module ZodFacts.

Import Zod.
Local Open Scope zod_scope.

Lemma isValid_OK {A} (s : status A) : isValid s = true <-> exists v, s = OK v.
Proof.
  destruct s; simpl; split; try congruence; try (intros [? ?]; congruence).
  intros _. now eexists.
Qed.

Lemma isValid_dirty {A} (s : status A) : isValid (dirty s) = false.
Proof. now destruct s. Qed.

(** ** Merging the fields of an object *)

Lemma ap_valid {A B} (f : ParseReturn (A -> B)) (x : ParseReturn A) :
  isValid (fst (f <*> x)) = isValid (fst f) && isValid (fst x).
Proof. destruct f as [[g|g|] fi], x as [[v|v|] xi]; reflexivity. Qed.

Lemma ap_OK {A B} (f : ParseReturn (A -> B)) (x : ParseReturn A) (v : B) :
  fst (f <*> x) = OK v ->
  exists g a, fst f = OK g /\ fst x = OK a /\ v = g a.
Proof.
  destruct f as [[g|g|] fi], x as [[a|a|] xi]; simpl; try discriminate.
  intros [= <-]. now exists g, a.
Qed.

Lemma ap_issues {A B} (f : ParseReturn (A -> B)) (x : ParseReturn A) :
  snd (f <*> x) = snd f ++ snd x.
Proof. reflexivity. Qed.

Lemma ap_value {A B} (f : ParseReturn (A -> B)) (x : ParseReturn A) :
  value_of (fst (f <*> x)) =
  match value_of (fst f), value_of (fst x) with
  | Some g, Some a => Some (g a)
  | _, _ => None
  end.
Proof. destruct f as [[g|g|] fi], x as [[a|a|] xi]; reflexivity. Qed.

Lemma reported_pure {A} (v : A) : reported (pure v).
Proof. intros H. discriminate. Qed.

Lemma reported_ap {A B} (f : ParseReturn (A -> B)) (x : ParseReturn A) :
  reported f -> reported x -> reported (f <*> x).
Proof.
  unfold reported. rewrite ap_valid, ap_issues. intros Hf Hx H.
  apply andb_false_iff in H as [H|H]; [apply Hf in H | apply Hx in H];
    intros E; apply app_eq_nil in E as [? ?]; contradiction.
Qed.

Lemma reported_field {A} p data key (validator : ZodType A) :
  sound validator -> reported (field p data key validator).
Proof. intros H. apply H. Qed.

(** ** Soundness of the combinators: no silent failure *)

Lemma sound_string checks : sound (string checks).
Proof.
  intros p [[s| | | | |]|]; simpl; try (intros _; discriminate).
  unfold reported. simpl.
  destruct (flat_map _ checks); simpl; congruence.
Qed.

Lemma sound_boolean : sound boolean.
Proof. intros p [[| | | | |]|]; simpl; intros H; simpl in *; congruence. Qed.

Lemma sound_literal l : sound (literal l).
Proof.
  intros p data. unfold literal, reported.
  destruct (strictly_equal l data); simpl; congruence.
Qed.

Lemma sound_transform {A} (inner : ZodType A) f : sound inner -> sound (transform inner f).
Proof.
  intros H p data. specialize (H p data). unfold transform, reported in *.
  destruct (inner p data) as [[v|v|] issues]; simpl in *; auto; congruence.
Qed.

Lemma sound_pipe a b : sound a -> sound b -> sound (pipe a b).
Proof.
  intros Ha Hb p data. specialize (Ha p data). unfold pipe, reported in *.
  destruct (a p data) as [[v|v|] issues]; simpl in *; auto.
  specialize (Hb p (Some (Toml.String v))).
  destruct (b p (Some (Toml.String v))) as [st issues']; simpl in *.
  intros Hst E. apply app_eq_nil in E as [_ E]. now apply Hb.
Qed.

Lemma sound_refine {A} (inner : ZodType A) check msg :
  sound inner -> sound (refine inner check msg).
Proof.
  intros H p data. specialize (H p data). unfold refine, reported in *.
  destruct (inner p data) as [[v|v|] issues]; simpl in *; auto;
    destruct (check v); simpl; auto; intros _ E;
    apply app_eq_nil in E as [_ E]; discriminate.
Qed.

Lemma sound_optional {A} (inner : ZodType A) : sound inner -> sound (optional inner).
Proof.
  intros H p [data|]; [|intros E; discriminate].
  specialize (H p (Some data)). unfold optional, reported in *.
  destruct (inner p (Some data)) as [[v|v|] issues]; simpl in *; auto.
Qed.

Lemma sound_optional_default {A} (inner : ZodType A) d :
  sound inner -> sound (optional_default inner d).
Proof. intros H p data. apply H. Qed.

Lemma sound_retag {A B} (f : A -> B) (inner : ZodType A) :
  sound inner -> sound (retag f inner).
Proof.
  intros H p data. specialize (H p data). unfold retag, reported in *.
  destruct (inner p data) as [[v|v|] issues]; simpl in *; auto.
Qed.

Lemma reported_union_scan {A} (options : list (ZodType A)) p data :
  Forall sound options ->
  forall firstDirty,
    match firstDirty with Some d => reported d | None => True end ->
    reported (union_scan options p data firstDirty).
Proof.
  induction 1 as [|option rest Ho _ IH]; intros firstDirty Hd; simpl.
  - destruct firstDirty; [assumption | intros _; discriminate].
  - specialize (Ho p data).
    destruct (option p data) as [[v|v|] issues]; simpl.
    + intros E; discriminate.
    + apply IH. destruct firstDirty; [assumption|exact Ho].
    + now apply IH.
Qed.

Lemma sound_union {A} (options : list (ZodType A)) :
  Forall sound options -> sound (union options).
Proof. intros H p data. now apply reported_union_scan. Qed.

Lemma mergeObjectSync_valid {V} (pairs : list (status jstring * status V)) :
  forall isdirty acc,
    isValid (mergeObjectSync isdirty pairs acc)
    = negb isdirty && forallb (fun kv => isValid (fst kv) && isValid (snd kv)) pairs.
Proof.
  induction pairs as [|[k v] pairs IH]; intros isdirty acc; simpl.
  - destruct isdirty; reflexivity.
  - destruct k as [k|k|], v as [v|v|]; simpl; rewrite ?andb_false_r; try reflexivity;
      rewrite IH; simpl; rewrite ?orb_true_r, ?orb_false_r; reflexivity.
Qed.

Lemma sound_record {V} keyType (valueType : ZodType V) :
  sound keyType -> sound valueType -> sound (record keyType valueType).
Proof.
  intros Hk Hv p [[| | | | |entries]|]; simpl; try (intros _; discriminate).
  unfold reported. simpl. rewrite mergeObjectSync_valid. simpl.
  rewrite map_map. simpl.
  induction (Obj.keys entries) as [|key keys IH]; simpl; [discriminate|].
  intros H. apply andb_false_iff in H as [H|H].
  - intros E. apply app_eq_nil in E as [E _]. apply app_eq_nil in E as [E1 E2].
    apply andb_false_iff in H as [H|H].
    + now apply (Hk _ _ H).
    + now apply (Hv _ _ H).
  - intros E. apply app_eq_nil in E as [_ E]. now apply IH.
Qed.

Lemma sound_object_strict {A} shapeKeys
    (fields : list jstring -> Toml.table -> ParseReturn A) :
  (forall p data, reported (fields p data)) ->
  sound (object_strict shapeKeys fields).
Proof.
  intros H p [[| | | | |entries]|]; simpl; try (intros _; discriminate).
  specialize (H p entries). unfold reported in *.
  destruct (fields p entries) as [st issues]. simpl in *.
  destruct (filter _ (Obj.keys entries)); simpl; [assumption|].
  intros _ E. apply app_eq_nil in E as [_ E]. discriminate.
Qed.

(** ** Strict objects *)

Lemma no_extra_keys shapeKeys (entries : Toml.table) :
  filter (fun key => negb (includes shapeKeys key)) (Obj.keys entries) = []
  <-> Spec.key_outside shapeKeys entries = false.
Proof.
  unfold Spec.key_outside. induction (Obj.keys entries) as [|k l IH]; simpl.
  - tauto.
  - destruct (negb (includes shapeKeys k)); simpl; [split; discriminate | exact IH].
Qed.

Lemma object_strict_valid {A} shapeKeys
    (fields : list jstring -> Toml.table -> ParseReturn A) p entries :
  isValid (fst (object_strict shapeKeys fields p (Some (Toml.Table entries))))
  = negb (Spec.key_outside shapeKeys entries) && isValid (fst (fields p entries)).
Proof.
  simpl. pose proof (no_extra_keys shapeKeys entries) as E.
  destruct (fields p entries) as [st issues].
  destruct (filter _ (Obj.keys entries)); simpl.
  - now rewrite (proj1 E eq_refl).
  - rewrite isValid_dirty. destruct (Spec.key_outside shapeKeys entries); [reflexivity|].
    destruct E as [_ E]. now specialize (E eq_refl).
Qed.

Lemma object_strict_OK {A} shapeKeys
    (fields : list jstring -> Toml.table -> ParseReturn A) p entries v :
  fst (object_strict shapeKeys fields p (Some (Toml.Table entries))) = OK v ->
  fst (fields p entries) = OK v.
Proof.
  simpl. destruct (fields p entries) as [st issues].
  destruct (filter _ (Obj.keys entries)); simpl; [easy|].
  destruct st; discriminate.
Qed.

Lemma object_strict_value {A} shapeKeys
    (fields : list jstring -> Toml.table -> ParseReturn A) p entries :
  value_of (fst (object_strict shapeKeys fields p (Some (Toml.Table entries))))
  = value_of (fst (fields p entries)).
Proof.
  simpl. destruct (fields p entries) as [st issues].
  destruct (filter _ (Obj.keys entries)); simpl; [reflexivity|now destruct st].
Qed.

Lemma object_strict_issues {A} shapeKeys
    (fields : list jstring -> Toml.table -> ParseReturn A) p entries i :
  In i (snd (fields p entries)) ->
  In i (snd (object_strict shapeKeys fields p (Some (Toml.Table entries)))).
Proof.
  simpl. destruct (fields p entries) as [st issues].
  destruct (filter _ (Obj.keys entries)); simpl; [easy|].
  intros H. apply in_or_app. now left.
Qed.

Lemma object_strict_not_table {A} shapeKeys
    (fields : list jstring -> Toml.table -> ParseReturn A) p data :
  (forall entries, data <> Some (Toml.Table entries)) ->
  fst (object_strict shapeKeys fields p data) = INVALID.
Proof.
  intros H. destruct data as [[| | | | |entries]|]; try reflexivity.
  now destruct (H entries).
Qed.

Lemma object_strict_OK_table {A} shapeKeys
    (fields : list jstring -> Toml.table -> ParseReturn A) p data v :
  fst (object_strict shapeKeys fields p data) = OK v ->
  exists entries, data = Some (Toml.Table entries).
Proof.
  destruct data as [[| | | | |entries]|]; try discriminate. intros _. now exists entries.
Qed.

(** ** Refinements, optional values, retagging *)

Lemma refine_OK {A} (inner : ZodType A) check msg p data v :
  fst (refine inner check msg p data) = OK v ->
  fst (inner p data) = OK v /\ check v = true.
Proof.
  unfold refine. destruct (inner p data) as [[a|a|] issues]; simpl;
    try destruct (check a) eqn:E; simpl; try discriminate.
  intros [= <-]. now split.
Qed.

Lemma refine_valid {A} (inner : ZodType A) check msg p data :
  isValid (fst (inner p data)) = false ->
  isValid (fst (refine inner check msg p data)) = false.
Proof.
  unfold refine. destruct (inner p data) as [[a|a|] issues]; simpl;
    try destruct (check a); simpl; congruence.
Qed.

Lemma refine_INVALID {A} (inner : ZodType A) check msg p data :
  fst (inner p data) = INVALID ->
  fst (refine inner check msg p data) = INVALID.
Proof.
  unfold refine. destruct (inner p data) as [[a|a|] issues]; simpl; congruence.
Qed.

(** A refinement that fails on the value leaves a dirty parse that carries
    its message. *)
Lemma refine_fails {A} (inner : ZodType A) check msg p data v :
  value_of (fst (inner p data)) = Some v -> check v = false ->
  fst (refine inner check msg p data) = DIRTY v
  /\ In (mkIssue custom p (Some msg)) (snd (refine inner check msg p data)).
Proof.
  unfold refine. destruct (inner p data) as [[a|a|] issues]; simpl;
    try discriminate; intros [= ->] ->; simpl;
    (split; [reflexivity | apply in_or_app; right; now left]).
Qed.

Lemma optional_valid {A} (inner : ZodType A) p data :
  isValid (fst (optional inner p (Some data))) = isValid (fst (inner p (Some data))).
Proof. simpl. now destruct (inner p (Some data)) as [[a|a|] issues]. Qed.

Lemma optional_issues {A} (inner : ZodType A) p data :
  snd (optional inner p (Some data)) = snd (inner p (Some data)).
Proof. simpl. now destruct (inner p (Some data)) as [[a|a|] issues]. Qed.

Lemma retag_valid {A B} (f : A -> B) (inner : ZodType A) p data :
  isValid (fst (retag f inner p data)) = isValid (fst (inner p data)).
Proof. unfold retag. now destruct (inner p data) as [[a|a|] issues]. Qed.

Lemma retag_OK {A B} (f : A -> B) (inner : ZodType A) p data v :
  fst (retag f inner p data) = OK v ->
  exists a, fst (inner p data) = OK a /\ v = f a.
Proof.
  unfold retag. destruct (inner p data) as [[a|a|] issues]; simpl; try discriminate.
  intros [= <-]. now exists a.
Qed.

Lemma retag_INVALID {A B} (f : A -> B) (inner : ZodType A) p data :
  fst (inner p data) = INVALID -> fst (retag f inner p data) = INVALID.
Proof. unfold retag. destruct (inner p data) as [[a|a|] issues]; simpl; congruence. Qed.

Lemma retag_DIRTY {A B} (f : A -> B) (inner : ZodType A) p data a :
  fst (inner p data) = DIRTY a ->
  retag f inner p data = (DIRTY (f a), snd (inner p data)).
Proof.
  unfold retag. destruct (inner p data) as [[x|x|] issues]; simpl; congruence.
Qed.

(** ** Unions *)

Lemma union_scan_OK {A} (options : list (ZodType A)) p data v :
  forall firstDirty,
    fst (union_scan options p data firstDirty) = OK v ->
    (exists option, In option options /\ fst (option p data) = OK v)
    \/ (exists d, firstDirty = Some d /\ fst d = OK v).
Proof.
  induction options as [|option rest IH]; intros firstDirty; simpl.
  - destruct firstDirty as [d|]; simpl; [|discriminate].
    intros H. right. now exists d.
  - destruct (option p data) as [[a|a|] issues] eqn:E; simpl.
    + intros [= <-]. left. exists option. rewrite E. auto.
    + intros H. apply IH in H as [(o & Ho & Hv)|(d & Hd & Hv)].
      * left. exists o. auto.
      * destruct firstDirty as [d'|].
        -- right. exists d'. split; congruence.
        -- injection Hd as <-. discriminate.
    + intros H. apply IH in H as [(o & Ho & Hv)|H]; [|now right].
      left. exists o. auto.
Qed.

Lemma union_OK {A} (options : list (ZodType A)) p data v :
  fst (union options p data) = OK v ->
  exists option, In option options /\ fst (option p data) = OK v.
Proof.
  intros H. apply union_scan_OK in H as [H|(d & Hd & _)]; [assumption|discriminate].
Qed.

Lemma union_not_valid {A} (options : list (ZodType A)) p data :
  Forall (fun option => isValid (fst (option p data)) = false) options ->
  isValid (fst (union options p data)) = false.
Proof.
  intros H. destruct (isValid (fst (union options p data))) eqn:E; [|reflexivity].
  apply isValid_OK in E as [v E]. apply union_OK in E as (o & Ho & Hv).
  rewrite Forall_forall in H. specialize (H o Ho). rewrite Hv in H. discriminate.
Qed.

Lemma union_scan_kept {A} (options : list (ZodType A)) p data d :
  Forall (fun option => isValid (fst (option p data)) = false) options ->
  union_scan options p data (Some d) = d.
Proof.
  induction 1 as [|option rest Ho _ IH]; simpl; [reflexivity|].
  destruct (option p data) as [[a|a|] issues]; simpl in *; congruence.
Qed.

(** When no option is valid, the union is the first dirty option. *)
Lemma union_first_dirty {A} (before : list (ZodType A)) option after p data :
  Forall (fun o => fst (o p data) = INVALID) before ->
  isDirty (fst (option p data)) = true ->
  Forall (fun o => isValid (fst (o p data)) = false) after ->
  union (before ++ option :: after) p data = option p data.
Proof.
  unfold union. intros Hb Hd Ha.
  induction Hb as [|o before Ho _ IH]; simpl.
  - destruct (option p data) as [[a|a|] issues]; simpl in *; try discriminate.
    now apply union_scan_kept.
  - destruct (o p data) as [[a|a|] issues]; simpl in *; try discriminate. exact IH.
Qed.

(** ** Objects as association lists *)

Lemma get_set {V} (o : Obj.t V) k v k' :
  Obj.get (Obj.set o k v) k' = if jeqb k' k then Some v else Obj.get o k'.
Proof.
  induction o as [|[k0 v0] o IH]; simpl.
  - reflexivity.
  - destruct (jeqb k k0) eqn:E; simpl.
    + apply jeqb_true_iff in E. subst k0. now destruct (jeqb k' k).
    + destruct (jeqb k' k0) eqn:E0; [|exact IH].
      apply jeqb_true_iff in E0. subst k0.
      rewrite jeqb_sym in E. now rewrite E.
Qed.

Lemma get_In {V} (o : Obj.t V) k v :
  Obj.get o k = Some v -> In (k, v) o.
Proof.
  induction o as [|[k0 v0] o IH]; simpl; [discriminate|].
  destruct (jeqb k k0) eqn:E.
  - apply jeqb_true_iff in E. subst. intros [= ->]. now left.
  - intros H. right. now apply IH.
Qed.

Lemma get_key {V} (o : Obj.t V) k v :
  Obj.get o k = Some v -> In k (Obj.keys o).
Proof. intros H. apply get_In in H. now apply (in_map fst) in H. Qed.

Lemma has_key {V} (o : Obj.t V) k :
  Obj.has o k = true <-> In k (Obj.keys o).
Proof.
  unfold Obj.has. induction o as [|[k0 v0] o IH]; simpl.
  - split; [discriminate|contradiction].
  - destruct (jeqb k k0) eqn:E.
    + apply jeqb_true_iff in E. subst. tauto.
    + apply jeqb_false_iff in E. rewrite IH. split; [tauto|].
      intros [H|H]; [congruence|assumption].
Qed.

Lemma In_set {V} (o : Obj.t V) k v k' v' :
  In (k, v) (Obj.set o k' v') -> (k = k' /\ v = v') \/ In (k, v) o.
Proof.
  induction o as [|[k0 v0] o IH]; simpl.
  - intros [[= <- <-]|[]]. now left.
  - destruct (jeqb k' k0); simpl.
    + intros [[= <- <-]|H]; [now left|right; now right].
    + intros [H|H]; [right; now left|].
      apply IH in H as [H|H]; [now left|right; now right].
Qed.

(** ** Records *)

Lemma record_valid {V} keyType (valueType : ZodType V) p entries :
  isValid (fst (record keyType valueType p (Some (Toml.Table entries))))
  = forallb (fun key =>
               isValid (fst (keyType (p ++ [key]) (Some (Toml.String key))))
               && isValid (fst (valueType (p ++ [key]) (Obj.get entries key))))
            (Obj.keys entries).
Proof.
  simpl. rewrite mergeObjectSync_valid, map_map. simpl.
  induction (Obj.keys entries) as [|key keys IH]; simpl; congruence.
Qed.

Lemma record_issues {V} keyType (valueType : ZodType V) p entries key i :
  In key (Obj.keys entries) ->
  In i (snd (valueType (p ++ [key]) (Obj.get entries key))) ->
  In i (snd (record keyType valueType p (Some (Toml.Table entries)))).
Proof.
  simpl. intros Hk Hi. apply in_flat_map.
  exists (keyType (p ++ [key]) (Some (Toml.String key)),
          valueType (p ++ [key]) (Obj.get entries key)).
  split.
  - apply in_map_iff. now exists key.
  - simpl. apply in_or_app. now right.
Qed.

Lemma mergeObjectSync_values {V} (pairs : list (status jstring * status V)) :
  forall isdirty acc o,
    mergeObjectSync isdirty pairs acc = OK o ->
    forall k v, In (k, v) o ->
      In (k, v) acc \/ exists key, In (key, OK v) pairs.
Proof.
  induction pairs as [|[ks vs] pairs IH]; intros isdirty acc o; simpl.
  - destruct isdirty; [discriminate|]. intros [= <-]. auto.
  - destruct ks as [key|key|], vs as [val|val|]; try discriminate; intros H k v Hin;
      try (apply (f_equal isValid) in H; rewrite mergeObjectSync_valid in H;
           simpl in H; rewrite ?orb_true_r in H; discriminate).
    destruct (IH _ _ _ H k v Hin) as [Hacc|(key' & Hp)].
    + destruct (jeqb key PROTO); [now left|].
      apply In_set in Hacc as [[-> ->]|Hacc]; [|now left].
      right. exists (OK key). now left.
    + right. exists key'. now right.
Qed.

(** Every value of a valid record is the valid outcome of its schema on
    one of the properties. *)
Lemma record_values {V} keyType (valueType : ZodType V) p entries o :
  fst (record keyType valueType p (Some (Toml.Table entries))) = OK o ->
  forall k v, In (k, v) o ->
    exists key,
      In key (Obj.keys entries)
      /\ fst (valueType (p ++ [key]) (Obj.get entries key)) = OK v.
Proof.
  simpl. rewrite map_map. simpl. intros H k v Hin.
  destruct (mergeObjectSync_values _ _ _ H k v Hin) as [[]|(ks & Hp)].
  apply in_map_iff in Hp as (key & E & Hkey). injection E as _ E.
  now exists key.
Qed.

End ZodFacts.
Import ZodFacts.

(* ================================================================== *)
(** * The schemas *)
(* ================================================================== *)

Module SchemaFacts.

Import Zod Schema Spec.
Local Open Scope zod_scope.

Create HintDb zod_sound.

#[export] Hint Resolve sound_string sound_boolean sound_literal sound_transform
  sound_pipe sound_refine sound_optional sound_optional_default sound_retag
  sound_union sound_record sound_object_strict
  reported_pure reported_ap reported_field : zod_sound.
#[export] Hint Constructors Forall : zod_sound.

Lemma sound_NonEmptyString : sound NonEmptyString.
Proof. unfold NonEmptyString. auto with zod_sound. Qed.

Lemma sound_Alias : sound Alias.
Proof. unfold Alias. auto 10 with zod_sound. Qed.

Lemma sound_GithubRef : sound GithubRef.
Proof. unfold GithubRef. auto with zod_sound. Qed.

#[export] Hint Resolve sound_NonEmptyString sound_Alias sound_GithubRef : zod_sound.

Lemma sound_PackageSchema : sound PackageSchema.
Proof. unfold PackageSchema. apply sound_object_strict. auto 12 with zod_sound. Qed.

Lemma sound_AgentsSchema : sound AgentsSchema.
Proof. unfold AgentsSchema. apply sound_record; auto with zod_sound. Qed.

Lemma sound_RegistryDependency : sound RegistryDependency.
Proof. unfold RegistryDependency. auto with zod_sound. Qed.

Lemma sound_GithubDependency : sound GithubDependency.
Proof.
  unfold GithubDependency. apply sound_refine, sound_object_strict.
  auto 12 with zod_sound.
Qed.

Lemma sound_GitDependency : sound GitDependency.
Proof.
  unfold GitDependency. apply sound_refine, sound_object_strict.
  auto 12 with zod_sound.
Qed.

Lemma sound_LocalDependency : sound LocalDependency.
Proof. unfold LocalDependency. apply sound_object_strict. auto with zod_sound. Qed.

Lemma sound_ClaudePluginDependency : sound ClaudePluginDependency.
Proof.
  unfold ClaudePluginDependency. apply sound_object_strict. auto 10 with zod_sound.
Qed.

#[export] Hint Resolve sound_PackageSchema sound_AgentsSchema
  sound_RegistryDependency sound_GithubDependency sound_GitDependency
  sound_LocalDependency sound_ClaudePluginDependency : zod_sound.

Lemma sound_DependencyDeclaration : sound DependencyDeclaration.
Proof. unfold DependencyDeclaration. auto 12 with zod_sound. Qed.

#[export] Hint Resolve sound_DependencyDeclaration : zod_sound.

Lemma sound_DependenciesSchema : sound DependenciesSchema.
Proof. unfold DependenciesSchema. apply sound_record; auto with zod_sound. Qed.

Lemma sound_AutoDiscoverSchema : sound AutoDiscoverSchema.
Proof.
  unfold AutoDiscoverSchema. apply sound_object_strict. auto 12 with zod_sound.
Qed.

#[export] Hint Resolve sound_DependenciesSchema sound_AutoDiscoverSchema : zod_sound.

Lemma sound_ExportsSchema : sound ExportsSchema.
Proof. unfold ExportsSchema. apply sound_object_strict. auto 10 with zod_sound. Qed.

#[export] Hint Resolve sound_ExportsSchema : zod_sound.

Lemma sound_ManifestSchema : sound ManifestSchema.
Proof. unfold ManifestSchema. apply sound_object_strict. auto 12 with zod_sound. Qed.

(** [schema.parse] of a sound schema throws a [ZodError] or returns. *)
Lemma parse_sound {A} (schema : ZodType A) data :
  sound schema ->
  match Zod.schema_parse schema data with
  | Success v => fst (schema [] (Some data)) = OK v
  | ThrowZodError issues =>
      isValid (fst (schema [] (Some data))) = false
      /\ issues = snd (schema [] (Some data))
  | ThrowError _ => False
  end.
Proof.
  intros H. specialize (H [] (Some data)). unfold Zod.schema_parse, reported in H |- *.
  destruct (schema [] (Some data)) as [[v|v|] [|i issues]]; simpl in *; auto;
    now apply H.
Qed.

(** ** Non-empty strings *)

Lemma NonEmptyString_string p s :
  NonEmptyString p (Some (Toml.String s)) =
  if truthy (trim s) then (OK (trim s), [])
  else (DIRTY (trim s), [mkIssue (too_small 1) p (Some (js "String cannot be empty"))]).
Proof. unfold NonEmptyString, pipe, transform. simpl. now destruct (trim s). Qed.

Lemma NonEmptyString_not_string p data :
  (forall s, data <> Some (Toml.String s)) -> fst (NonEmptyString p data) = INVALID.
Proof.
  intros H. destruct data as [[s| | | | |]|]; try reflexivity. now destruct (H s).
Qed.

Lemma NonEmptyString_OK p data v :
  fst (NonEmptyString p data) = OK v ->
  exists s, data = Some (Toml.String s) /\ v = trim s /\ v <> [].
Proof.
  destruct data as [[s| | | | |]|]; try discriminate.
  rewrite NonEmptyString_string. destruct (truthy (trim s)) eqn:E; [|discriminate].
  intros [= <-]. exists s. repeat split. now apply truthy_true_iff.
Qed.

Lemma optional_NonEmptyString_OK p data v :
  fst (optional NonEmptyString p data) = OK v ->
  filled v
  /\ match data with
     | None => v = None
     | Some d => exists s, d = Toml.String s /\ v = Some (trim s)
     end.
Proof.
  destruct data as [d|]; [|intros [= <-]; now split].
  unfold optional.
  destruct (NonEmptyString p (Some d)) as [[a|a|] issues] eqn:E; try discriminate.
  intros [= <-]. apply (f_equal fst) in E. simpl in E.
  apply NonEmptyString_OK in E as (s & [= ->] & -> & Hne).
  split; [|now exists s]. simpl. now destruct (trim s).
Qed.

(** The value of an optional non-empty string on a property that is a
    string or absent: the trimmed string, whatever the status. *)
Lemma optional_NonEmptyString_value p (t : Toml.table) key :
  string_or_absent t key = true ->
  value_of (fst (field p t key (optional NonEmptyString))) = Some (trimmed t key).
Proof.
  unfold string_or_absent, trimmed, field.
  destruct (Obj.get t key) as [[s| | | | |]|]; try discriminate; intros _.
  - unfold optional. rewrite NonEmptyString_string. now destruct (truthy (trim s)).
  - reflexivity.
Qed.

(** ** The declarations that the union lets through *)

Ltac ap_inversion H :=
  lazymatch type of H with
  | fst (Zod.ap _ _) = Zod.OK _ =>
      let g := fresh "g" in
      let a := fresh "a" in
      let Ha := fresh "Ha" in
      apply ap_OK in H as (g & a & H & Ha & ->); ap_inversion H
  | fst (Zod.pure _) = Zod.OK _ => simpl in H; injection H as <-
  end.

Lemma field_optional_NonEmptyString_OK p (t : Toml.table) key v :
  fst (field p t key (optional NonEmptyString)) = OK v ->
  filled v /\ Boolean v = Obj.has t key.
Proof.
  unfold field, Obj.has. intros H.
  apply optional_NonEmptyString_OK in H as [Hf H]. split; [assumption|].
  destruct (Obj.get t key) as [d|].
  - destruct H as (s & -> & ->). simpl in *. now destruct (trim s).
  - now subst.
Qed.

Lemma field_has {A} p (t : Toml.table) key (validator : ZodType A) v :
  fst (validator (p ++ [key]) None) = INVALID ->
  fst (field p t key validator) = OK v -> Obj.has t key = true.
Proof.
  unfold field, Obj.has. destruct (Obj.get t key); [reflexivity|].
  intros ->. discriminate.
Qed.

Lemma GithubDependency_OK p data o :
  fst (GithubDependency p data) = OK o ->
  exists t,
    data = Some (Toml.Table t) /\ key_outside Github_keys t = false
    /\ decl_shape o /\ gh o <> None /\ refs_present t <= 1
    /\ Obj.has t (js "gh") = true.
Proof.
  unfold GithubDependency. intros H. apply refine_OK in H as [H Hone].
  destruct (object_strict_OK_table _ _ _ _ H) as (t & ->).
  pose proof (object_strict_valid Github_keys
                (fun p data =>
                   pure (fun b g pa r t => mkDecl b (Some g) None None pa None r t None)
                   <*> field p data (js "branch") (optional NonEmptyString)
                   <*> field p data (js "gh") GithubRef
                   <*> field p data (js "path") (optional NonEmptyString)
                   <*> field p data (js "rev") (optional NonEmptyString)
                   <*> field p data (js "tag") (optional NonEmptyString)) p t) as Hv.
  rewrite H in Hv. simpl isValid in Hv. symmetry in Hv.
  apply andb_true_iff in Hv as [Hkeys _]. apply negb_true_iff in Hkeys.
  apply object_strict_OK in H. ap_inversion H.
  apply field_optional_NonEmptyString_OK in Ha as [_ Htag].
  apply field_optional_NonEmptyString_OK in Ha0 as [_ Hrev].
  apply field_optional_NonEmptyString_OK in Ha1 as [Hpath _].
  apply field_optional_NonEmptyString_OK in Ha3 as [_ Hbranch].
  apply field_has in Ha2; [|reflexivity].
  exists t. repeat split; try assumption.
  - now constructor.
  - discriminate.
  - unfold one_ref_at_most in Hone. simpl in Hone.
    unfold refs_present, ref_fields. simpl.
    rewrite <- Htag, <- Hbranch, <- Hrev.
    destruct (Boolean a), (Boolean a3), (Boolean a0); simpl in *;
      try discriminate; lia.
Qed.

Lemma GitDependency_OK p data o :
  fst (GitDependency p data) = OK o ->
  exists t,
    data = Some (Toml.Table t) /\ key_outside Git_keys t = false
    /\ decl_shape o /\ gh o = None /\ git o <> None /\ refs_present t <= 1
    /\ Obj.has t (js "git") = true.
Proof.
  unfold GitDependency. intros H. apply refine_OK in H as [H Hone].
  destruct (object_strict_OK_table _ _ _ _ H) as (t & ->).
  pose proof (object_strict_valid Git_keys
                (fun p data =>
                   pure (fun b g pa r t => mkDecl b None (Some g) None pa None r t None)
                   <*> field p data (js "branch") (optional NonEmptyString)
                   <*> field p data (js "git") NonEmptyString
                   <*> field p data (js "path") (optional NonEmptyString)
                   <*> field p data (js "rev") (optional NonEmptyString)
                   <*> field p data (js "tag") (optional NonEmptyString)) p t) as Hv.
  rewrite H in Hv. simpl isValid in Hv. symmetry in Hv.
  apply andb_true_iff in Hv as [Hkeys _]. apply negb_true_iff in Hkeys.
  apply object_strict_OK in H. ap_inversion H.
  apply field_optional_NonEmptyString_OK in Ha as [_ Htag].
  apply field_optional_NonEmptyString_OK in Ha0 as [_ Hrev].
  apply field_optional_NonEmptyString_OK in Ha1 as [Hpath _].
  apply field_optional_NonEmptyString_OK in Ha3 as [_ Hbranch].
  apply field_has in Ha2; [|reflexivity].
  exists t. repeat split; try assumption.
  - now constructor.
  - discriminate.
  - unfold one_ref_at_most in Hone. simpl in Hone.
    unfold refs_present, ref_fields. simpl.
    rewrite <- Htag, <- Hbranch, <- Hrev.
    destruct (Boolean a), (Boolean a3), (Boolean a0); simpl in *;
      try discriminate; lia.
Qed.

Lemma LocalDependency_OK p data o :
  fst (LocalDependency p data) = OK o ->
  exists t,
    data = Some (Toml.Table t) /\ key_outside Local_keys t = false
    /\ decl_shape o /\ gh o = None /\ git o = None /\ type_ o = None
    /\ path o <> None /\ Obj.has t (js "path") = true.
Proof.
  unfold LocalDependency. intros H.
  destruct (object_strict_OK_table _ _ _ _ H) as (t & ->).
  pose proof (object_strict_valid Local_keys
                (fun p data =>
                   pure (fun pa => mkDecl None None None None (Some pa) None None None None)
                   <*> field p data (js "path") NonEmptyString) p t) as Hv.
  rewrite H in Hv. simpl isValid in Hv. symmetry in Hv.
  apply andb_true_iff in Hv as [Hkeys _]. apply negb_true_iff in Hkeys.
  apply object_strict_OK in H. ap_inversion H.
  apply field_has in Ha; [|reflexivity].
  exists t. repeat split; try assumption; try discriminate. constructor.
Qed.

Lemma ClaudePluginDependency_OK p data o :
  fst (ClaudePluginDependency p data) = OK o ->
  exists t,
    data = Some (Toml.Table t) /\ key_outside ClaudePlugin_keys t = false
    /\ decl_shape o /\ gh o = None /\ git o = None
    /\ type_ o = Some CLAUDE_PLUGIN /\ Obj.has t (js "type") = true.
Proof.
  unfold ClaudePluginDependency. intros H.
  destruct (object_strict_OK_table _ _ _ _ H) as (t & ->).
  pose proof (object_strict_valid ClaudePlugin_keys
                (fun p data =>
                   pure (fun m pl (_ : Literal) =>
                           mkDecl None None None (Some m) None (Some pl) None None
                                  (Some CLAUDE_PLUGIN))
                   <*> field p data (js "marketplace") NonEmptyString
                   <*> field p data (js "plugin") NonEmptyString
                   <*> field p data (js "type") (literal (LitString CLAUDE_PLUGIN))) p t)
    as Hv.
  rewrite H in Hv. simpl isValid in Hv. symmetry in Hv.
  apply andb_true_iff in Hv as [Hkeys _]. apply negb_true_iff in Hkeys.
  apply object_strict_OK in H. ap_inversion H.
  apply field_has in Ha; [|reflexivity].
  exists t. repeat split; try assumption; try discriminate. constructor.
Qed.

Lemma RegistryDependency_OK p data s :
  fst (RegistryDependency p data) = OK s ->
  data = Some (Toml.String s) /\ RegExp.test RegistryPattern s = true.
Proof.
  unfold RegistryDependency.
  destruct data as [[s'| | | | |]|]; try discriminate.
  unfold string, check_passes. cbn [flat_map app].
  destruct (RegExp.test RegistryPattern s') eqn:E; [|discriminate].
  intros [= ->]. now split.
Qed.

(** The outcome of the union on a valid declaration, option by option. *)
Lemma DependencyDeclaration_OK p data decl :
  fst (DependencyDeclaration p data) = OK decl ->
  (exists s, decl = DeclString s /\ fst (RegistryDependency p data) = OK s)
  \/ (exists o, decl = DeclObject o
       /\ (fst (GithubDependency p data) = OK o
           \/ fst (GitDependency p data) = OK o
           \/ fst (LocalDependency p data) = OK o
           \/ fst (ClaudePluginDependency p data) = OK o)).
Proof.
  unfold DependencyDeclaration. intros H.
  apply union_OK in H as (option & Hin & H). simpl in Hin.
  destruct Hin as [<-|[<-|[<-|[<-|[<-|[]]]]]];
    apply retag_OK in H as (a & H & ->).
  - left. now exists a.
  - right. exists a. tauto.
  - right. exists a. tauto.
  - right. exists a. tauto.
  - right. exists a. tauto.
Qed.

Lemma accepted_string s :
  accepted (DeclString s) -> RegExp.test RegistryPattern s = true.
Proof.
  intros (p & data & issues & H). apply (f_equal fst) in H. simpl in H.
  apply DependencyDeclaration_OK in H as [(s' & [= <-] & H)|(o & E & _)];
    [|discriminate].
  now apply RegistryDependency_OK in H.
Qed.

Lemma accepted_object o : accepted (DeclObject o) -> decl_shape o.
Proof.
  intros (p & data & issues & H). apply (f_equal fst) in H. simpl in H.
  apply DependencyDeclaration_OK in H as [(s' & E & _)|(o' & [= <-] & H)];
    [discriminate|].
  destruct H as [H|[H|[H|H]]].
  - now apply GithubDependency_OK in H as (t & _ & _ & H & _).
  - now apply GitDependency_OK in H as (t & _ & _ & H & _).
  - now apply LocalDependency_OK in H as (t & _ & _ & H & _).
  - now apply ClaudePluginDependency_OK in H as (t & _ & _ & H & _).
Qed.

End SchemaFacts.
Import SchemaFacts.

(* ================================================================== *)
(** * The manifest and the parser *)
(* ================================================================== *)

Module ParseFacts.

Import Zod Schema Parse Spec.
Local Open Scope zod_scope.

(** ** The manifest, section by section *)

Lemma manifest_valid doc :
  isValid (fst (manifest_outcome doc))
  = negb (key_outside Manifest_keys doc)
    && (isValid (fst (agents_outcome doc))
        && isValid (fst (dependencies_outcome doc))
        && isValid (fst (exports_outcome doc))
        && isValid (fst (package_outcome doc))).
Proof.
  unfold manifest_outcome, ManifestSchema.
  rewrite object_strict_valid, !ap_valid. reflexivity.
Qed.

Lemma manifest_OK doc m :
  fst (manifest_outcome doc) = OK m ->
  fst (agents_outcome doc) = OK (agents m)
  /\ fst (dependencies_outcome doc) = OK (dependencies m)
  /\ fst (exports_outcome doc) = OK (exports m)
  /\ fst (package_outcome doc) = OK (package m).
Proof.
  unfold manifest_outcome, ManifestSchema. intros H.
  apply object_strict_OK in H. ap_inversion H. simpl. tauto.
Qed.

Lemma manifest_issues doc i :
  In i (snd (agents_outcome doc)) \/ In i (snd (dependencies_outcome doc))
  \/ In i (snd (exports_outcome doc)) \/ In i (snd (package_outcome doc)) ->
  In i (snd (manifest_outcome doc)).
Proof.
  intros H. unfold manifest_outcome, ManifestSchema.
  apply object_strict_issues. rewrite !ap_issues. simpl.
  rewrite !in_app_iff. tauto.
Qed.

Lemma section_invalid doc :
  isValid (fst (agents_outcome doc)) = false
  \/ isValid (fst (dependencies_outcome doc)) = false
  \/ isValid (fst (exports_outcome doc)) = false
  \/ isValid (fst (package_outcome doc)) = false ->
  isValid (fst (manifest_outcome doc)) = false.
Proof.
  rewrite manifest_valid. intros [H|[H|[H|H]]]; rewrite H;
    rewrite ?andb_false_r; reflexivity.
Qed.

Lemma dependencies_outcome_table doc deps :
  Obj.get doc (js "dependencies") = Some (Toml.Table deps) ->
  dependencies_outcome doc
  = DependenciesSchema [js "dependencies"] (Some (Toml.Table deps)).
Proof.
  intros H. unfold dependencies_outcome, field, optional_default. now rewrite H.
Qed.

(** A declaration that the union does not accept makes the manifest
    invalid, and its issues are issues of the manifest. *)
Lemma dependency_invalid doc deps alias v :
  Obj.get doc (js "dependencies") = Some (Toml.Table deps) ->
  Obj.get deps alias = Some v ->
  isValid (fst (DependencyDeclaration [js "dependencies"; alias] (Some v))) = false ->
  isValid (fst (manifest_outcome doc)) = false
  /\ forall i,
       In i (snd (DependencyDeclaration [js "dependencies"; alias] (Some v))) ->
       In i (snd (manifest_outcome doc)).
Proof.
  intros Hdeps Halias Hbad. pose proof (get_key _ _ Halias) as Hkey. split.
  - apply section_invalid. right. left.
    rewrite (dependencies_outcome_table _ Hdeps).
    unfold DependenciesSchema, Dependencies.
    rewrite record_valid. apply not_true_iff_false. intros Hall.
    rewrite forallb_forall in Hall. specialize (Hall alias Hkey).
    apply andb_true_iff in Hall as [_ Hall]. rewrite Halias in Hall.
    simpl app in Hall. congruence.
  - intros i Hi. apply manifest_issues. right. left.
    rewrite (dependencies_outcome_table _ Hdeps). unfold DependenciesSchema.
    apply record_issues with (key := alias); [assumption|].
    now rewrite Halias.
Qed.

(** The declarations of a valid manifest came out of the union. *)
Lemma manifest_dependencies_accepted doc m :
  fst (manifest_outcome doc) = OK m ->
  forall alias decl, In (alias, decl) (dependencies m) -> accepted decl.
Proof.
  intros H alias decl Hin. apply manifest_OK in H as (_ & H & _).
  unfold dependencies_outcome, field, optional_default, DependenciesSchema in H.
  destruct (match Obj.get doc (js "dependencies") with
            | Some v => v
            | None => Toml.Table []
            end) as [| | | | |entries] eqn:E; try discriminate.
  destruct (record_values _ _ _ _ H _ _ Hin) as (key & _ & Hv).
  exists ([] ++ [js "dependencies"] ++ [key]), (Obj.get entries key).
  destruct (DependencyDeclaration _ _) as [st issues] eqn:Ed.
  exists issues. simpl in Hv. now subst st.
Qed.

(** ** Resolution of the declarations *)

Lemma spread_path_filled o : filled (path o) -> spread_path o = path o.
Proof. unfold spread_path. now destruct (path o) as [[|c s]|]. Qed.

Lemma extractGitRef_first_ref o : extractGitRef o = first_ref o.
Proof.
  unfold extractGitRef, first_ref. simpl.
  destruct (tag o) as [[|c s]|], (branch o) as [[|c' s']|], (rev o) as [[|c'' s'']|];
    reflexivity.
Qed.

Lemma parseDependency_accepted alias decl :
  accepted decl -> exists value, parseDependency alias decl = ok value.
Proof.
  destruct decl as [s|o]; intros H.
  - apply accepted_string, parseRegistryString_accepted in H
      as (org & name & version & _ & _ & H).
    simpl. rewrite H. now eexists.
  - apply accepted_object in H. destruct H; simpl; now eexists.
Qed.

Lemma process_dependencies_ok entries :
  (forall alias decl, In (alias, decl) entries -> accepted decl) ->
  forall acc, exists deps, process_dependencies entries acc = ok deps.
Proof.
  induction entries as [|[alias decl] entries IH]; intros H acc; simpl.
  - now eexists.
  - destruct (parseDependency_accepted alias (H alias decl (or_introl eq_refl)))
      as (value & ->).
    apply IH. intros a d Hin. apply (H a d). now right.
Qed.

(** ** The three ways out of [parse] *)

Section Cases.

Variable parseToml : jstring -> Toml.outcome.
Variable errorMap : ZodIssueCode -> jstring.

Lemma parse_invalid_toml contents err :
  parseToml contents = Toml.Throws err ->
  exists msg, fails_with (parse parseToml errorMap contents) invalid_toml msg.
Proof. intros H. unfold parse, fails_with. rewrite H. now do 2 eexists. Qed.

Lemma parse_invalid_manifest contents doc :
  parseToml contents = Toml.Parsed doc ->
  isValid (fst (manifest_outcome doc)) = false ->
  fails_with (parse parseToml errorMap contents) invalid_manifest
    (js "Invalid manifest: "
     ++ join (js "; ") (map (issue_line errorMap) (snd (manifest_outcome doc)))).
Proof.
  intros Hdoc Hbad. unfold parse, fails_with. rewrite Hdoc.
  pose proof (parse_sound (Toml.Table doc) sound_ManifestSchema) as Hp.
  fold (manifest_outcome doc) in Hp.
  destruct (Zod.schema_parse ManifestSchema (Toml.Table doc)) as [m|issues|msg].
  - rewrite Hp in Hbad. discriminate.
  - destruct Hp as [_ ->]. now eexists.
  - contradiction.
Qed.

Lemma parse_valid_manifest contents doc m :
  parseToml contents = Toml.Parsed doc ->
  fst (manifest_outcome doc) = OK m ->
  exists deps,
    process_dependencies (dependencies m) [] = ok deps
    /\ parse parseToml errorMap contents
       = Return (ok (mkValidated (package m) (process_agents (agents m)) deps
                                 (exports m))).
Proof.
  intros Hdoc Hok. unfold parse. rewrite Hdoc.
  pose proof (parse_sound (Toml.Table doc) sound_ManifestSchema) as Hp.
  fold (manifest_outcome doc) in Hp.
  destruct (Zod.schema_parse ManifestSchema (Toml.Table doc)) as [m'|issues|msg].
  - rewrite Hok in Hp. injection Hp as <-.
    destruct (process_dependencies_ok _ (manifest_dependencies_accepted _ Hok) [])
      as (deps & E).
    exists deps. now rewrite E.
  - destruct Hp as [Hp _]. rewrite Hok in Hp. discriminate.
  - contradiction.
Qed.

(** The message of a rejected manifest holds the line of each issue. *)
Lemma parse_rejects contents doc :
  parseToml contents = Toml.Parsed doc ->
  isValid (fst (manifest_outcome doc)) = false ->
  exists msg,
    fails_with (parse parseToml errorMap contents) invalid_manifest msg
    /\ forall i, In i (snd (manifest_outcome doc)) ->
                 mentions msg (issue_line errorMap i).
Proof.
  intros Hdoc Hbad. eexists. split.
  - now apply parse_invalid_manifest with (doc := doc).
  - intros i Hi. apply mentions_app_r, mentions_join. now apply in_map.
Qed.

(** [parse] returns: it does not throw. *)
Lemma parse_returns contents :
  exists r, parse parseToml errorMap contents = Return r.
Proof.
  destruct (parseToml contents) as [doc|err] eqn:Hdoc.
  - destruct (isValid (fst (manifest_outcome doc))) eqn:Hv.
    + apply isValid_OK in Hv as [m Hm].
      destruct (parse_valid_manifest Hdoc Hm) as (deps & _ & ->). now eexists.
    + destruct (parse_invalid_manifest Hdoc Hv) as (c & ->). now eexists.
  - destruct (parse_invalid_toml Hdoc) as (msg & c & ->). now eexists.
Qed.

End Cases.

Lemma issue_line_dependency errorMap code alias msg :
  issue_line errorMap (mkIssue code [js "dependencies"; alias] (Some msg))
  = dependency_line alias msg.
Proof.
  unfold issue_line, dependency_line, message. simpl.
  now rewrite <- ?app_assoc.
Qed.

End ParseFacts.
Import ParseFacts.

(* ================================================================== *)
(** * Declarations that the union turns down *)
(* ================================================================== *)

Module DeclarationFacts.

Import Zod Schema Parse Spec.
Local Open Scope zod_scope.

Lemma ap_INVALID_r {A B} (f : ParseReturn (A -> B)) (x : ParseReturn A) :
  fst x = INVALID -> fst (f <*> x) = INVALID.
Proof. destruct f as [[g|g|] fi], x as [[a|a|] xi]; simpl; congruence. Qed.

Lemma ap_INVALID_l {A B} (f : ParseReturn (A -> B)) (x : ParseReturn A) :
  fst f = INVALID -> fst (f <*> x) = INVALID.
Proof. destruct f as [[g|g|] fi], x as [[a|a|] xi]; simpl; congruence. Qed.

Lemma retag_issues {A B} (f : A -> B) (inner : ZodType A) p data :
  snd (retag f inner p data) = snd (inner p data).
Proof. unfold retag. now destruct (inner p data) as [[a|a|] issues]. Qed.

Lemma retag_isDirty {A B} (f : A -> B) (inner : ZodType A) p data :
  isDirty (fst (retag f inner p data)) = isDirty (fst (inner p data)).
Proof. unfold retag. now destruct (inner p data) as [[a|a|] issues]. Qed.

Lemma INVALID_not_valid {A} (s : status A) : s = INVALID -> isValid s = false.
Proof. now intros ->. Qed.

Lemma DIRTY_isDirty {A} (s : status A) v : s = DIRTY v -> isDirty s = true.
Proof. now intros ->. Qed.

(** A declared key set without outside key holds every key of the table. *)
Lemma key_inside declared (t : Toml.table) k :
  key_outside declared t = false -> Obj.has t k = true -> includes declared k = true.
Proof.
  unfold key_outside. intros Hout Hk. apply has_key in Hk.
  destruct (includes declared k) eqn:E; [reflexivity|].
  assert (existsb (fun k => negb (includes declared k)) (Obj.keys t) = true) as C.
  { apply existsb_exists. exists k. now rewrite E. }
  congruence.
Qed.

Lemma nonblank_has t k : nonblank t k = true -> Obj.has t k = true.
Proof. unfold nonblank, Obj.has. now destruct (Obj.get t k). Qed.

Lemma refs_nonblank_present t : refs_nonblank t <= refs_present t.
Proof.
  unfold refs_nonblank, refs_present, ref_fields. simpl.
  pose proof (nonblank_has t (js "tag")). pose proof (nonblank_has t (js "branch")).
  pose proof (nonblank_has t (js "rev")).
  destruct (nonblank t (js "tag")), (nonblank t (js "branch")), (nonblank t (js "rev"));
    destruct (Obj.has t (js "tag")), (Obj.has t (js "branch")), (Obj.has t (js "rev"));
    simpl; try lia; exfalso; auto using diff_false_true.
Qed.

(** A table with two refs has a key that is no field of the local and of
    the plugin form. *)
Lemma refs_outside declared t :
  forallb (fun k => negb (includes declared k)) ref_fields = true ->
  2 <= refs_present t -> key_outside declared t = true.
Proof.
  intros Hd Hrefs. destruct (key_outside declared t) eqn:E; [reflexivity|].
  pose proof (key_inside declared t (js "tag") E) as Ht.
  pose proof (key_inside declared t (js "branch") E) as Hb.
  pose proof (key_inside declared t (js "rev") E) as Hr.
  unfold ref_fields in Hd. cbn [forallb] in Hd.
  apply andb_true_iff in Hd as [Hd1 Hd]. apply andb_true_iff in Hd as [Hd2 Hd].
  apply andb_true_iff in Hd as [Hd3 _].
  apply negb_true_iff in Hd1, Hd2, Hd3.
  unfold refs_present, ref_fields in Hrefs. cbn [filter] in Hrefs.
  destruct (Obj.has t (js "tag")); [specialize (Ht eq_refl); congruence|].
  destruct (Obj.has t (js "branch")); [specialize (Hb eq_refl); congruence|].
  destruct (Obj.has t (js "rev")); [specialize (Hr eq_refl); congruence|].
  simpl in Hrefs. lia.
Qed.

Lemma RegistryDependency_table p t :
  fst (RegistryDependency p (Some (Toml.Table t))) = INVALID.
Proof. reflexivity. Qed.

(** With two refs no object form is valid. *)
Lemma GithubDependency_two_refs p t :
  2 <= refs_present t -> isValid (fst (GithubDependency p (Some (Toml.Table t)))) = false.
Proof.
  intros H. apply not_true_iff_false. intros E. apply isValid_OK in E as [o E].
  apply GithubDependency_OK in E as (t' & [= <-] & _ & _ & _ & E & _). lia.
Qed.

Lemma GitDependency_two_refs p t :
  2 <= refs_present t -> isValid (fst (GitDependency p (Some (Toml.Table t)))) = false.
Proof.
  intros H. apply not_true_iff_false. intros E. apply isValid_OK in E as [o E].
  apply GitDependency_OK in E as (t' & [= <-] & _ & _ & _ & _ & E & _). lia.
Qed.

Lemma LocalDependency_outside p t :
  key_outside Local_keys t = true ->
  isValid (fst (LocalDependency p (Some (Toml.Table t)))) = false.
Proof.
  intros H. apply not_true_iff_false. intros E. apply isValid_OK in E as [o E].
  apply LocalDependency_OK in E as (t' & [= <-] & E & _). congruence.
Qed.

Lemma ClaudePluginDependency_outside p t :
  key_outside ClaudePlugin_keys t = true ->
  isValid (fst (ClaudePluginDependency p (Some (Toml.Table t)))) = false.
Proof.
  intros H. apply not_true_iff_false. intros E. apply isValid_OK in E as [o E].
  apply ClaudePluginDependency_OK in E as (t' & [= <-] & E & _). congruence.
Qed.

Lemma GithubDependency_outside p t :
  key_outside Github_keys t = true ->
  isValid (fst (GithubDependency p (Some (Toml.Table t)))) = false.
Proof.
  intros H. apply not_true_iff_false. intros E. apply isValid_OK in E as [o E].
  apply GithubDependency_OK in E as (t' & [= <-] & E & _). congruence.
Qed.

Lemma GitDependency_outside p t :
  key_outside Git_keys t = true ->
  isValid (fst (GitDependency p (Some (Toml.Table t)))) = false.
Proof.
  intros H. apply not_true_iff_false. intros E. apply isValid_OK in E as [o E].
  apply GitDependency_OK in E as (t' & [= <-] & E & _). congruence.
Qed.

Lemma LocalDependency_two_refs p t :
  2 <= refs_present t -> isValid (fst (LocalDependency p (Some (Toml.Table t)))) = false.
Proof. intros H. apply LocalDependency_outside. now apply refs_outside. Qed.

Lemma ClaudePluginDependency_two_refs p t :
  2 <= refs_present t ->
  isValid (fst (ClaudePluginDependency p (Some (Toml.Table t)))) = false.
Proof. intros H. apply ClaudePluginDependency_outside. now apply refs_outside. Qed.

(** No table with two refs passes the union. *)
Lemma DependencyDeclaration_two_refs p t :
  2 <= refs_present t ->
  isValid (fst (DependencyDeclaration p (Some (Toml.Table t)))) = false.
Proof.
  intros H. unfold DependencyDeclaration. apply union_not_valid.
  repeat constructor; rewrite retag_valid.
  - now apply GithubDependency_two_refs.
  - now apply GitDependency_two_refs.
  - now apply LocalDependency_two_refs.
  - now apply ClaudePluginDependency_two_refs.
Qed.

Lemma key_absent declared (t : Toml.table) k :
  key_outside declared t = false -> includes declared k = false ->
  Obj.has t k = false.
Proof.
  intros Hout Hk. destruct (Obj.has t k) eqn:E; [|reflexivity].
  rewrite (key_inside declared t k Hout E) in Hk. discriminate.
Qed.

(** No table with a key outside the form that it declares passes the
    union. *)
Lemma DependencyDeclaration_outside p t :
  key_outside (declared_fields t) t = true ->
  isValid (fst (DependencyDeclaration p (Some (Toml.Table t)))) = false.
Proof.
  intros Hout. apply not_true_iff_false. intros E. apply isValid_OK in E as [d E].
  apply DependencyDeclaration_OK in E as [(s & _ & E)|(o & _ & [E|[E|[E|E]]])].
  - discriminate.
  - apply GithubDependency_OK in E as (t' & [= <-] & Hin & _ & _ & _ & Hgh).
    unfold declared_fields in Hout. rewrite Hgh in Hout. congruence.
  - apply GitDependency_OK in E as (t' & [= <-] & Hin & _ & _ & _ & _ & Hgit).
    unfold declared_fields in Hout.
    rewrite (key_absent Git_keys t (js "gh") Hin eq_refl), Hgit in Hout. congruence.
  - apply LocalDependency_OK in E as (t' & [= <-] & Hin & _).
    unfold declared_fields in Hout.
    rewrite (key_absent Local_keys t (js "gh") Hin eq_refl),
      (key_absent Local_keys t (js "git") Hin eq_refl),
      (key_absent Local_keys t (js "type") Hin eq_refl) in Hout. congruence.
  - apply ClaudePluginDependency_OK in E
      as (t' & [= <-] & Hin & _ & _ & _ & _ & Htype).
    unfold declared_fields in Hout.
    rewrite (key_absent ClaudePlugin_keys t (js "gh") Hin eq_refl),
      (key_absent ClaudePlugin_keys t (js "git") Hin eq_refl), Htype in Hout.
    congruence.
Qed.

End DeclarationFacts.
Import DeclarationFacts.

(* ================================================================== *)
(** * More than one ref *)
(* ================================================================== *)

Module RefFacts.

Import Zod Schema Parse Spec.
Local Open Scope zod_scope.

Lemma Boolean_trimmed t k : Boolean (trimmed t k) = nonblank t k.
Proof. unfold trimmed, nonblank. now destruct (Obj.get t k) as [[| | | | |]|]. Qed.

Lemma string_value checks p s :
  value_of (fst (string checks p (Some (Toml.String s)))) = Some s.
Proof. simpl. now destruct (flat_map _ checks). Qed.

Lemma NonEmptyString_value p s :
  value_of (fst (NonEmptyString p (Some (Toml.String s)))) = Some (trim s).
Proof. rewrite NonEmptyString_string. now destruct (truthy (trim s)). Qed.

Lemma two_refs_refused g u m pa pl ty (tb : Toml.table) :
  2 <= refs_nonblank tb ->
  one_ref_at_most
    (mkDecl (trimmed tb (js "branch")) g u m pa pl (trimmed tb (js "rev"))
            (trimmed tb (js "tag")) ty) = false.
Proof.
  unfold one_ref_at_most, refs_nonblank, ref_fields. cbn [tag branch rev filter].
  rewrite !Boolean_trimmed.
  destruct (nonblank tb (js "tag")), (nonblank tb (js "branch")),
    (nonblank tb (js "rev")); simpl; intros H; try reflexivity; lia.
Qed.

Lemma GithubDependency_refines p t g :
  Obj.get t (js "gh") = Some (Toml.String g) ->
  typed_fields t = true ->
  2 <= refs_nonblank t ->
  isDirty (fst (GithubDependency p (Some (Toml.Table t)))) = true
  /\ In (mkIssue custom p (Some one_ref_message))
        (snd (GithubDependency p (Some (Toml.Table t)))).
Proof.
  unfold typed_fields. cbn [forallb]. rewrite !andb_true_iff.
  intros Hgh (Hb & Hp & Hr & Ht & _) Hrefs.
  unfold GithubDependency.
  match goal with
  | |- context [refine ?inner _ _ p ?data] =>
      destruct (@refine_fails _ inner one_ref_at_most one_ref_message p data
                  (mkDecl (trimmed t (js "branch")) (Some g) None None
                          (trimmed t (js "path")) None (trimmed t (js "rev"))
                          (trimmed t (js "tag")) None)) as [Hst Hin]
  end.
  - rewrite object_strict_value, !ap_value.
    rewrite !optional_NonEmptyString_value by assumption.
    unfold field at 1. rewrite Hgh. unfold GithubRef. rewrite string_value.
    reflexivity.
  - now apply two_refs_refused.
  - split; [|exact Hin]. now rewrite Hst.
Qed.

Lemma GitDependency_refines p t u :
  Obj.get t (js "git") = Some (Toml.String u) ->
  typed_fields t = true ->
  2 <= refs_nonblank t ->
  isDirty (fst (GitDependency p (Some (Toml.Table t)))) = true
  /\ In (mkIssue custom p (Some one_ref_message))
        (snd (GitDependency p (Some (Toml.Table t)))).
Proof.
  unfold typed_fields. cbn [forallb]. rewrite !andb_true_iff.
  intros Hgit (Hb & Hp & Hr & Ht & _) Hrefs.
  unfold GitDependency.
  match goal with
  | |- context [refine ?inner _ _ p ?data] =>
      destruct (@refine_fails _ inner one_ref_at_most one_ref_message p data
                  (mkDecl (trimmed t (js "branch")) None (Some (trim u)) None
                          (trimmed t (js "path")) None (trimmed t (js "rev"))
                          (trimmed t (js "tag")) None)) as [Hst Hin]
  end.
  - rewrite object_strict_value, !ap_value.
    rewrite !optional_NonEmptyString_value by assumption.
    unfold field at 1. rewrite Hgit. rewrite NonEmptyString_value.
    reflexivity.
  - now apply two_refs_refused.
  - split; [|exact Hin]. now rewrite Hst.
Qed.

Lemma object_strict_INVALID {A} shapeKeys
    (fields : list jstring -> Toml.table -> ParseReturn A) p entries :
  fst (fields p entries) = INVALID ->
  fst (object_strict shapeKeys fields p (Some (Toml.Table entries))) = INVALID.
Proof.
  simpl. destruct (fields p entries) as [st issues]. simpl. intros ->.
  now destruct (filter _ (Obj.keys entries)).
Qed.

(** Without a string under [gh] the GitHub form aborts. *)
Lemma GithubDependency_aborts p t :
  is_string t (js "gh") = false ->
  fst (GithubDependency p (Some (Toml.Table t))) = INVALID.
Proof.
  intros H. unfold GithubDependency. apply refine_INVALID, object_strict_INVALID.
  do 3 apply ap_INVALID_l. apply ap_INVALID_r.
  unfold field, GithubRef, is_string in *.
  destruct (Obj.get t (js "gh")) as [[| | | | |]|]; try reflexivity; discriminate.
Qed.

(** The message of the refinement reaches the issues of the union. *)
Lemma DependencyDeclaration_refines p t :
  ref_declaration t = true -> 2 <= refs_nonblank t ->
  In (mkIssue custom p (Some one_ref_message))
     (snd (DependencyDeclaration p (Some (Toml.Table t)))).
Proof.
  unfold ref_declaration. rewrite andb_true_iff.
  intros [Hkey Htyped] Hrefs.
  assert (2 <= refs_present t) as Hpresent
    by (pose proof (refs_nonblank_present t); lia).
  unfold DependencyDeclaration.
  destruct (is_string t (js "gh")) eqn:Hgh.
  - unfold is_string in Hgh.
    destruct (Obj.get t (js "gh")) as [[g| | | | |]|] eqn:Eg; try discriminate.
    destruct (@GithubDependency_refines p t g Eg Htyped Hrefs) as [Hd Hin].
    rewrite (@union_first_dirty _ [retag DeclString RegistryDependency]
               (retag DeclObject GithubDependency)
               [retag DeclObject GitDependency; retag DeclObject LocalDependency;
                retag DeclObject ClaudePluginDependency]).
    + now rewrite retag_issues.
    + repeat constructor.
    + now rewrite retag_isDirty.
    + repeat constructor; rewrite retag_valid.
      * now apply GitDependency_two_refs.
      * now apply LocalDependency_two_refs.
      * now apply ClaudePluginDependency_two_refs.
  - simpl in Hkey. unfold is_string in Hkey.
    destruct (Obj.get t (js "git")) as [[u| | | | |]|] eqn:Eu; try discriminate.
    destruct (@GitDependency_refines p t u Eu Htyped Hrefs) as [Hd Hin].
    rewrite (@union_first_dirty _
               [retag DeclString RegistryDependency; retag DeclObject GithubDependency]
               (retag DeclObject GitDependency)
               [retag DeclObject LocalDependency;
                retag DeclObject ClaudePluginDependency]).
    + now rewrite retag_issues.
    + constructor; [reflexivity|]. constructor; [|constructor].
      apply retag_INVALID. now apply GithubDependency_aborts.
    + now rewrite retag_isDirty.
    + repeat constructor; rewrite retag_valid.
      * now apply LocalDependency_two_refs.
      * now apply ClaudePluginDependency_two_refs.
Qed.

End RefFacts.
Import RefFacts.

(* ================================================================== *)
(** * Declarations that the union lets through *)
(* ================================================================== *)

Module AcceptFacts.

Import Zod Schema Parse Spec.
Local Open Scope zod_scope.

Lemma union_scan_skip {A} (option : ZodType A) rest p data firstDirty :
  fst (option p data) = INVALID ->
  union_scan (option :: rest) p data firstDirty = union_scan rest p data firstDirty.
Proof. simpl. destruct (option p data) as [[a|a|] issues]; simpl; congruence. Qed.

Lemma union_scan_take {A} (option : ZodType A) rest p data firstDirty v :
  fst (option p data) = OK v ->
  union_scan (option :: rest) p data firstDirty = (OK v, []).
Proof. simpl. destruct (option p data) as [[a|a|] issues]; simpl; congruence. Qed.

Lemma refine_passes {A} (inner : ZodType A) check msg p data v :
  fst (inner p data) = OK v -> check v = true ->
  fst (refine inner check msg p data) = OK v.
Proof.
  unfold refine. destruct (inner p data) as [[a|a|] issues]; simpl; try discriminate.
  intros [= ->] ->. reflexivity.
Qed.

Lemma declared_keys declared (t : Toml.table) :
  forallb (includes declared) (Obj.keys t) = true -> key_outside declared t = false.
Proof.
  unfold key_outside. induction (Obj.keys t) as [|k l IH]; simpl; [reflexivity|].
  rewrite andb_true_iff. intros [-> H]. simpl. now apply IH.
Qed.

Lemma field_optional_NonEmptyString_valid p (t : Toml.table) key :
  isValid (fst (field p t key (optional NonEmptyString)))
  = negb (Obj.has t key) || nonblank t key.
Proof.
  unfold field, Obj.has, nonblank.
  destruct (Obj.get t key) as [[s| | | | |]|]; try reflexivity.
  unfold optional. rewrite NonEmptyString_string. now destruct (truthy (trim s)).
Qed.

Lemma field_NonEmptyString_valid p (t : Toml.table) key :
  isValid (fst (field p t key NonEmptyString)) = nonblank t key.
Proof.
  unfold field, nonblank.
  destruct (Obj.get t key) as [[s| | | | |]|]; try reflexivity.
  rewrite NonEmptyString_string. now destruct (truthy (trim s)).
Qed.

Lemma field_GithubRef_valid p (t : Toml.table) :
  isValid (fst (field p t (js "gh") GithubRef))
  = match Obj.get t (js "gh") with
    | Some (Toml.String g) => RegExp.test GithubRefPattern g
    | _ => false
    end.
Proof.
  unfold field, GithubRef.
  destruct (Obj.get t (js "gh")) as [[g| | | | |]|]; try reflexivity.
  unfold string, check_passes. cbn [flat_map app].
  now destruct (RegExp.test GithubRefPattern g).
Qed.

Lemma optional_fields_valid (t : Toml.table) :
  forallb (fun k => negb (Obj.has t k) || nonblank t k)
          [js "branch"; js "path"; js "rev"; js "tag"] = true ->
  forall p,
    isValid (fst (field p t (js "branch") (optional NonEmptyString))) = true
    /\ isValid (fst (field p t (js "path") (optional NonEmptyString))) = true
    /\ isValid (fst (field p t (js "rev") (optional NonEmptyString))) = true
    /\ isValid (fst (field p t (js "tag") (optional NonEmptyString))) = true.
Proof.
  cbn [forallb]. rewrite !andb_true_iff. intros (H1 & H2 & H3 & H4 & _) p.
  now rewrite !field_optional_NonEmptyString_valid.
Qed.

Lemma one_ref_counts (t : Toml.table) b g u m pa pl r tg ty :
  Boolean tg = Obj.has t (js "tag") ->
  Boolean b = Obj.has t (js "branch") ->
  Boolean r = Obj.has t (js "rev") ->
  refs_present t <= 1 ->
  one_ref_at_most (mkDecl b g u m pa pl r tg ty) = true.
Proof.
  unfold one_ref_at_most, refs_present, ref_fields. cbn [tag branch rev filter].
  intros -> -> ->.
  destruct (Obj.has t (js "tag")), (Obj.has t (js "branch")), (Obj.has t (js "rev"));
    simpl; intros H; try reflexivity; lia.
Qed.

(** A well-formed GitHub declaration with at most one ref is valid. *)
Lemma GithubDependency_accepts p t :
  github_fields_ok t = true -> refs_present t <= 1 ->
  exists o, fst (GithubDependency p (Some (Toml.Table t))) = OK o.
Proof.
  unfold github_fields_ok. rewrite !andb_true_iff. intros [[Hkeys Hgh] Hopt] Hrefs.
  destruct (optional_fields_valid t Hopt p) as (Vb & Vp & Vr & Vt).
  unfold GithubDependency.
  match goal with
  | |- context [refine ?inner _ _ _ _] =>
      assert (isValid (fst (inner p (Some (Toml.Table t)))) = true) as Hv
  end.
  { rewrite object_strict_valid, (declared_keys _ _ Hkeys), !ap_valid.
    rewrite Vb, Vp, Vr, Vt, field_GithubRef_valid, Hgh. reflexivity. }
  apply isValid_OK in Hv as [o Ho]. exists o.
  apply refine_passes; [assumption|].
  apply object_strict_OK in Ho. ap_inversion Ho.
  apply field_optional_NonEmptyString_OK in Ha as [_ Htag].
  apply field_optional_NonEmptyString_OK in Ha0 as [_ Hrev].
  apply field_optional_NonEmptyString_OK in Ha3 as [_ Hbranch].
  now apply (one_ref_counts t).
Qed.

(** A well-formed git declaration with at most one ref is valid. *)
Lemma GitDependency_accepts p t :
  git_fields_ok t = true -> refs_present t <= 1 ->
  exists o, fst (GitDependency p (Some (Toml.Table t))) = OK o.
Proof.
  unfold git_fields_ok. rewrite !andb_true_iff. intros [[Hkeys Hgit] Hopt] Hrefs.
  destruct (optional_fields_valid t Hopt p) as (Vb & Vp & Vr & Vt).
  unfold GitDependency.
  match goal with
  | |- context [refine ?inner _ _ _ _] =>
      assert (isValid (fst (inner p (Some (Toml.Table t)))) = true) as Hv
  end.
  { rewrite object_strict_valid, (declared_keys _ _ Hkeys), !ap_valid.
    rewrite Vb, Vp, Vr, Vt, field_NonEmptyString_valid, Hgit. reflexivity. }
  apply isValid_OK in Hv as [o Ho]. exists o.
  apply refine_passes; [assumption|].
  apply object_strict_OK in Ho. ap_inversion Ho.
  apply field_optional_NonEmptyString_OK in Ha as [_ Htag].
  apply field_optional_NonEmptyString_OK in Ha0 as [_ Hrev].
  apply field_optional_NonEmptyString_OK in Ha3 as [_ Hbranch].
  now apply (one_ref_counts t).
Qed.

(** Such declarations pass the union and are resolved. *)
Lemma ref_declaration_accepted p alias t :
  github_fields_ok t = true \/ git_fields_ok t = true ->
  refs_present t <= 1 ->
  exists o value,
    DependencyDeclaration p (Some (Toml.Table t)) = (OK (DeclObject o), [])
    /\ parseDependency alias (DeclObject o) = ok value.
Proof.
  intros Hok Hrefs.
  assert (exists o, DependencyDeclaration p (Some (Toml.Table t))
                    = (OK (DeclObject o), [])) as (o & Ho).
  { unfold DependencyDeclaration, union.
    rewrite union_scan_skip by reflexivity.
    destruct (isValid (fst (GithubDependency p (Some (Toml.Table t))))) eqn:Eg.
    - apply isValid_OK in Eg as [o Eg]. exists o.
      apply union_scan_take. unfold retag.
      destruct (GithubDependency p (Some (Toml.Table t))) as [st issues].
      simpl in Eg. now subst st.
    - destruct Hok as [Hok|Hok].
      + destruct (GithubDependency_accepts p t Hok Hrefs) as [o Ho].
        rewrite Ho in Eg. discriminate.
      + destruct (GitDependency_accepts p t Hok Hrefs) as [o Ho]. exists o.
        assert (fst (retag DeclObject GithubDependency p (Some (Toml.Table t)))
                = INVALID) as Hskip.
        { apply retag_INVALID, GithubDependency_aborts.
          unfold git_fields_ok in Hok. rewrite !andb_true_iff in Hok.
          destruct Hok as [[Hkeys _] _].
          unfold is_string.
          destruct (Obj.get t (js "gh")) eqn:E; [|reflexivity].
          apply get_key in E. rewrite forallb_forall in Hkeys.
          specialize (Hkeys _ E). vm_compute in Hkeys. discriminate. }
        rewrite (union_scan_skip _ _ _ _ _ Hskip).
        apply union_scan_take. unfold retag.
        destruct (GitDependency p (Some (Toml.Table t))) as [st issues].
        simpl in Ho. now subst st. }
  exists o. destruct (parseDependency_accepted alias (decl := DeclObject o)) as [v Hv].
  - now exists p, (Some (Toml.Table t)), [].
  - now exists v.
Qed.

(** A string outside the shorthand leaves the union dirty, with the message
    of the registry pattern. *)
Lemma DependencyDeclaration_not_shorthand p s :
  RegExp.test RegistryPattern s = false ->
  DependencyDeclaration p (Some (Toml.String s))
  = (DIRTY (DeclString s),
     [mkIssue invalid_string p (Some (js "Must be in format '[@org/]name@version'"))]).
Proof.
  intros H.
  assert (RegistryDependency p (Some (Toml.String s))
          = (DIRTY s, [mkIssue invalid_string p
                         (Some (js "Must be in format '[@org/]name@version'"))])) as E.
  { unfold RegistryDependency, string, check_passes. cbn [flat_map app]. now rewrite H. }
  unfold DependencyDeclaration.
  rewrite (@union_first_dirty _ [] (retag DeclString RegistryDependency)
             [retag DeclObject GithubDependency; retag DeclObject GitDependency;
              retag DeclObject LocalDependency; retag DeclObject ClaudePluginDependency]).
  - unfold retag. now rewrite E.
  - constructor.
  - rewrite retag_isDirty. now rewrite E.
  - repeat constructor.
Qed.

End AcceptFacts.
Import AcceptFacts.

(* ================================================================== *)
(** * The agents *)
(* ================================================================== *)

Module AgentsFacts.

Import Zod Schema Parse Spec.
Local Open Scope zod_scope.

Lemma keys_set {V} (o : Obj.t V) k v :
  Obj.keys (Obj.set o k v) = if Obj.has o k then Obj.keys o else Obj.keys o ++ [k].
Proof.
  unfold Obj.has. induction o as [|[k0 v0] o IH]; simpl; [reflexivity|].
  destruct (jeqb k k0) eqn:E; simpl.
  - apply jeqb_true_iff in E. now subst.
  - rewrite IH. now destruct (Obj.get o k).
Qed.

Lemma NoDup_set {V} (o : Obj.t V) k v :
  NoDup (Obj.keys o) -> NoDup (Obj.keys (Obj.set o k v)).
Proof.
  intros H. rewrite keys_set. destruct (Obj.has o k) eqn:E; [assumption|].
  apply NoDup_app; [assumption | repeat constructor; intros [] |].
  intros x Hx [<-|[]]. apply has_key in Hx. congruence.
Qed.

Lemma mergeObjectSync_NoDup {V} (pairs : list (status jstring * status V)) :
  forall isdirty acc o,
    NoDup (Obj.keys acc) ->
    mergeObjectSync isdirty pairs acc = OK o -> NoDup (Obj.keys o).
Proof.
  induction pairs as [|[ks vs] pairs IH]; intros isdirty acc o Hacc; simpl.
  - destruct isdirty; [discriminate|]. now intros [= <-].
  - destruct ks as [k|k|], vs as [v|v|]; try discriminate;
      apply IH; destruct (jeqb k PROTO); auto using NoDup_set.
Qed.

(** The properties of a merged object, when each key carries one value. *)
Lemma mergeObjectSync_get {V} (val : jstring -> status V) keys :
  forall isdirty acc o,
    mergeObjectSync isdirty (map (fun key => (OK key, val key)) keys) acc = OK o ->
    forall id,
      Obj.get o id =
      if includes keys id && negb (jeqb id PROTO) then value_of (val id)
      else Obj.get acc id.
Proof.
  induction keys as [|key keys IH]; intros isdirty acc o; simpl.
  - destruct isdirty; [discriminate|]. now intros [= <-].
  - assert (forall v id,
               value_of (val key) = Some v ->
               (if includes keys id && negb (jeqb id PROTO) then value_of (val id)
                else Obj.get (if jeqb key PROTO then acc else Obj.set acc key v) id)
               = (if (jeqb id key || includes keys id) && negb (jeqb id PROTO)
                  then value_of (val id) else Obj.get acc id)) as Hstep.
    { intros v id Ev. destruct (jeqb id PROTO) eqn:Ep; simpl.
      - rewrite !andb_false_r. destruct (jeqb key PROTO) eqn:Ek; [reflexivity|].
        rewrite get_set. apply jeqb_true_iff in Ep. subst id.
        rewrite jeqb_sym in Ek. now rewrite Ek.
      - rewrite !andb_true_r. destruct (includes keys id).
        + now rewrite orb_true_r.
        + rewrite orb_false_r. destruct (jeqb id key) eqn:Ei.
          * apply jeqb_true_iff in Ei. subst id. now rewrite Ep, get_set, jeqb_refl, Ev.
          * destruct (jeqb key PROTO); [reflexivity|]. now rewrite get_set, Ei. }
    destruct (val key) as [v|v|] eqn:Ev; try discriminate; intros H id;
      rewrite (IH _ _ _ H id); now apply Hstep.
Qed.

Lemma boolean_value p data :
  value_of (fst (boolean p data))
  = match data with Some (Toml.Boolean b) => Some b | _ => None end.
Proof. now destruct data as [[| | | | |]|]. Qed.

(** The valid outcome of the agents record: the booleans of the table. *)
Lemma AgentsSchema_OK p entries o :
  fst (AgentsSchema p (Some (Toml.Table entries))) = OK o ->
  NoDup (Obj.keys o)
  /\ forall id,
       Obj.get o id =
       if jeqb id PROTO then None
       else match Obj.get entries id with
            | Some (Toml.Boolean b) => Some b
            | _ => None
            end.
Proof.
  unfold AgentsSchema. simpl. rewrite map_map. simpl. intros H. split.
  - eapply mergeObjectSync_NoDup; [|exact H]. constructor.
  - intros id.
    rewrite (mergeObjectSync_get
               (fun key => fst (boolean (p ++ [key]) (Obj.get entries key)))
               _ _ _ H id).
    rewrite boolean_value. simpl.
    destruct (jeqb id PROTO); simpl; rewrite ?andb_false_r; [reflexivity|].
    rewrite andb_true_r. destruct (includes (Obj.keys entries) id) eqn:E;
      [reflexivity|].
    destruct (Obj.get entries id) eqn:G; [|reflexivity].
    apply get_key in G. apply includes_true_iff in G. congruence.
Qed.

Lemma process_agents_fold (entries : Obj.t bool) :
  NoDup (Obj.keys entries) ->
  forall (acc : Obj.t bool) id,
    Obj.get
      (fold_left
         (fun agents entry =>
            let '(id, enabled) := entry in
            if KNOWN_AGENTS_has id then Obj.set agents id enabled else agents)
         entries acc) id
    = if KNOWN_AGENTS_has id && Obj.has entries id then Obj.get entries id
      else Obj.get acc id.
Proof.
  induction entries as [|[k v] entries IH]; intros Hnd acc id; simpl.
  - now rewrite andb_false_r.
  - inversion Hnd as [|? ? Hk Hrest]; subst. rewrite (IH Hrest).
    unfold Obj.has. simpl.
    destruct (jeqb id k) eqn:E.
    + apply jeqb_true_iff in E. subst id.
      assert (Obj.has entries k = false) as Hno.
      { apply not_true_iff_false. intros C. now apply has_key in C. }
      unfold Obj.has in Hno. rewrite Hno, andb_false_r, andb_true_r.
      destruct (KNOWN_AGENTS_has k); [|reflexivity].
      now rewrite get_set, jeqb_refl.
    + destruct (KNOWN_AGENTS_has id && match Obj.get entries id with
                                         | Some _ => true | None => false end);
        [reflexivity|].
      destruct (KNOWN_AGENTS_has k); [|reflexivity].
      now rewrite get_set, E.
Qed.

Lemma process_agents_get entries id :
  NoDup (Obj.keys entries) ->
  Obj.get (process_agents entries) id
  = if KNOWN_AGENTS_has id then Obj.get entries id else None.
Proof.
  intros H. unfold process_agents. rewrite (@process_agents_fold entries H [] id). simpl.
  destruct (KNOWN_AGENTS_has id); [|reflexivity]. simpl.
  unfold Obj.has. now destruct (Obj.get entries id).
Qed.

Lemma process_agents_NoDup (entries : Obj.t bool) :
  NoDup (Obj.keys (process_agents entries)).
Proof.
  unfold process_agents.
  assert (forall acc : Obj.t bool,
             NoDup (Obj.keys acc) ->
             NoDup (Obj.keys
                      (fold_left
                         (fun agents entry =>
                            let '(id, enabled) := entry in
                            if KNOWN_AGENTS_has id then Obj.set agents id enabled
                            else agents)
                         entries acc))) as H.
  { induction entries as [|[k v] entries IH]; intros acc Hacc; simpl; [assumption|].
    apply IH. destruct (KNOWN_AGENTS_has k); auto using NoDup_set. }
  apply H. constructor.
Qed.

Lemma known_not_proto id : KNOWN_AGENTS_has id = true -> jeqb id PROTO = false.
Proof.
  intros H. apply not_true_iff_false. intros E. apply jeqb_true_iff in E. subst.
  vm_compute in H. discriminate.
Qed.

(** The agents of a valid manifest: the known ids with their booleans. *)
Lemma manifest_agents doc m id :
  fst (manifest_outcome doc) = OK m ->
  Obj.get (process_agents (agents m)) id
  = if KNOWN_AGENTS_has id then raw_agent doc id else None.
Proof.
  intros H. apply manifest_OK in H as (H & _).
  unfold agents_outcome, field, optional_default in H.
  assert (exists entries,
             fst (AgentsSchema ([] ++ [js "agents"]) (Some (Toml.Table entries)))
             = OK (agents m)
             /\ forall id, raw_agent doc id
                           = match Obj.get entries id with
                             | Some (Toml.Boolean b) => Some b
                             | _ => None
                             end) as (entries & He & Hraw).
  { unfold raw_agent.
    destruct (Obj.get doc (js "agents")) as [[| | | | |entries]|]; try discriminate.
    - now exists entries.
    - now exists []. }
  apply AgentsSchema_OK in He as [Hnd Hget].
  rewrite (@process_agents_get (agents m) id Hnd).
  destruct (KNOWN_AGENTS_has id) eqn:E; [|reflexivity].
  now rewrite Hget, (@known_not_proto id E), Hraw.
Qed.

(** Whatever its keys, a table of booleans is a valid agents record. *)
Lemma AgentsSchema_accepts p entries :
  forallb (fun kv => match snd kv with Toml.Boolean _ => true | _ => false end)
          entries = true ->
  isValid (fst (AgentsSchema p (Some (Toml.Table entries)))) = true.
Proof.
  intros H. unfold AgentsSchema, Agents. rewrite record_valid.
  apply forallb_forall. intros key Hkey. simpl.
  destruct (Obj.get entries key) as [v|] eqn:G.
  - apply get_In in G. rewrite forallb_forall in H. specialize (H _ G). simpl in H.
    now destruct v.
  - apply has_key in Hkey. unfold Obj.has in Hkey. now rewrite G in Hkey.
Qed.

End AgentsFacts.
Import AgentsFacts.

(* ================================================================== *)
(** * Sections of the document *)
(* ================================================================== *)

Module SectionFacts.

Import Zod Schema Parse Spec.
Local Open Scope zod_scope.

Lemma package_outside doc t :
  Obj.get doc (js "package") = Some (Toml.Table t) ->
  key_outside Package_keys t = true ->
  isValid (fst (package_outcome doc)) = false.
Proof.
  intros H Hout. unfold package_outcome, field. rewrite H, optional_valid.
  unfold PackageSchema. now rewrite object_strict_valid, Hout.
Qed.

Lemma exports_outside doc t :
  Obj.get doc (js "exports") = Some (Toml.Table t) ->
  key_outside Exports_keys t = true ->
  isValid (fst (exports_outcome doc)) = false.
Proof.
  intros H Hout. unfold exports_outcome, field. rewrite H, optional_valid.
  unfold ExportsSchema. now rewrite object_strict_valid, Hout.
Qed.

Lemma auto_discover_outside doc e t :
  Obj.get doc (js "exports") = Some (Toml.Table e) ->
  Obj.get e (js "auto_discover") = Some (Toml.Table t) ->
  key_outside AutoDiscover_keys t = true ->
  isValid (fst (exports_outcome doc)) = false.
Proof.
  intros H He Hout. unfold exports_outcome, field. rewrite H, optional_valid.
  unfold ExportsSchema. rewrite object_strict_valid, ap_valid.
  unfold field. rewrite He, optional_valid.
  unfold AutoDiscoverSchema. rewrite object_strict_valid, Hout.
  now rewrite !andb_false_r.
Qed.

(** A document with an unknown key is not a valid manifest. *)
Lemma unknown_key_invalid doc :
  unknown_key doc -> isValid (fst (manifest_outcome doc)) = false.
Proof.
  intros [H|t H Hout|t H Hout|e t H He Hout|deps alias t H Ha Hout].
  - rewrite manifest_valid, H. reflexivity.
  - apply section_invalid. do 3 right. now apply package_outside with (t := t).
  - apply section_invalid. right. right. left. now apply exports_outside with (t := t).
  - apply section_invalid. right. right. left.
    now apply auto_discover_outside with (e := e) (t := t).
  - apply (@dependency_invalid doc deps alias (Toml.Table t) H Ha).
    now apply DependencyDeclaration_outside.
Qed.

Lemma get_cons {V} (o : Obj.t V) k0 v k :
  Obj.get ((k0, v) :: o) k = if jeqb k k0 then Some v else Obj.get o k.
Proof. reflexivity. Qed.

(** Leaving [agents] out or giving the empty table is the same manifest. *)
Lemma manifest_outcome_empty_agents doc :
  Obj.get doc (js "agents") = None ->
  manifest_outcome ((js "agents", Toml.Table []) :: doc) = manifest_outcome doc.
Proof.
  intros H. unfold manifest_outcome, ManifestSchema, object_strict, field.
  rewrite !get_cons, H.
  change (jeqb (js "agents") (js "agents")) with true.
  change (jeqb (js "dependencies") (js "agents")) with false.
  change (jeqb (js "exports") (js "agents")) with false.
  change (jeqb (js "package") (js "agents")) with false.
  cbv iota. unfold optional_default at 1 3.
  change (Obj.keys ((js "agents", Toml.Table []) :: doc))
    with (js "agents" :: Obj.keys doc).
  cbn [filter].
  change (negb (includes Manifest_keys (js "agents"))) with false.
  reflexivity.
Qed.

Lemma empty_agents doc m :
  Obj.get doc (js "agents") = None ->
  fst (manifest_outcome doc) = OK m -> agents m = [].
Proof.
  intros H Hm. apply manifest_OK in Hm as (Hm & _).
  unfold agents_outcome, field, optional_default in Hm. rewrite H in Hm.
  simpl in Hm. now injection Hm as <-.
Qed.

(** The parser does not tell a document without [agents] from the same
    document with an empty [agents] table. *)
Lemma parse_without_agents parseToml errorMap contents contents' doc :
  parseToml contents = Toml.Parsed doc ->
  Obj.get doc (js "agents") = None ->
  parseToml contents' = Toml.Parsed ((js "agents", Toml.Table []) :: doc) ->
  parse parseToml errorMap contents = parse parseToml errorMap contents'
  /\ (forall vm,
         parse parseToml errorMap contents = Return (ok vm) -> v_agents vm = []).
Proof.
  intros Hdoc Hno Hdoc'. split.
  - unfold parse. rewrite Hdoc, Hdoc'. unfold Zod.schema_parse.
    fold (manifest_outcome doc).
    fold (manifest_outcome ((js "agents", Toml.Table []) :: doc)).
    now rewrite manifest_outcome_empty_agents.
  - intros vm Hok.
    destruct (Zod.isValid (fst (manifest_outcome doc))) eqn:Hv.
    + apply isValid_OK in Hv as [m Hm].
      destruct (parse_valid_manifest parseToml errorMap contents Hdoc Hm)
        as (deps & _ & E).
      rewrite E in Hok. injection Hok as <-. simpl.
      now rewrite (empty_agents doc Hno Hm).
    + destruct (parse_invalid_manifest parseToml errorMap contents Hdoc Hv) as (c & E).
      rewrite E in Hok. discriminate.
Qed.

(** A string of the shorthand passes the union as it is. *)
Lemma DependencyDeclaration_shorthand p s :
  RegExp.test RegistryPattern s = true ->
  DependencyDeclaration p (Some (Toml.String s)) = (OK (DeclString s), []).
Proof.
  intros H. unfold DependencyDeclaration, union.
  apply union_scan_take. unfold retag, RegistryDependency, string, check_passes.
  cbn [flat_map app]. now rewrite H.
Qed.

End SectionFacts.
Import SectionFacts.

(* ================================================================== *)
(** * From the table to the resolved dependency *)
(* ================================================================== *)

Module FieldFacts.

Import Zod Schema Parse Spec.
Local Open Scope zod_scope.

Lemma string_OK checks p data v :
  fst (string checks p data) = OK v -> data = Some (Toml.String v).
Proof.
  destruct data as [[s| | | | |]|]; try discriminate. simpl.
  destruct (flat_map _ checks); [|discriminate]. now intros [= ->].
Qed.

Lemma field_optional_NonEmptyString_trimmed p (t : Toml.table) key v :
  fst (field p t key (optional NonEmptyString)) = OK v -> v = trimmed t key.
Proof.
  unfold field, trimmed. intros H.
  apply optional_NonEmptyString_OK in H as [_ H].
  destruct (Obj.get t key) as [d|]; [|assumption].
  now destruct H as (s & -> & ->).
Qed.

(** The object that the GitHub form makes of a table. *)
Lemma GithubDependency_fields p t o :
  fst (GithubDependency p (Some (Toml.Table t))) = OK o ->
  exists g,
    Obj.get t (js "gh") = Some (Toml.String g)
    /\ o = mkDecl (trimmed t (js "branch")) (Some g) None None
                  (trimmed t (js "path")) None (trimmed t (js "rev"))
                  (trimmed t (js "tag")) None.
Proof.
  unfold GithubDependency. intros H. apply refine_OK in H as [H _].
  apply object_strict_OK in H. ap_inversion H.
  apply field_optional_NonEmptyString_trimmed in Ha, Ha0, Ha1, Ha3. subst.
  unfold field, GithubRef in Ha2. apply string_OK in Ha2.
  now exists a2.
Qed.

(** The object that the git form makes of a table. *)
Lemma GitDependency_fields p t o :
  fst (GitDependency p (Some (Toml.Table t))) = OK o ->
  exists u,
    Obj.get t (js "git") = Some (Toml.String u)
    /\ o = mkDecl (trimmed t (js "branch")) None (Some (trim u)) None
                  (trimmed t (js "path")) None (trimmed t (js "rev"))
                  (trimmed t (js "tag")) None.
Proof.
  unfold GitDependency. intros H. apply refine_OK in H as [H _].
  apply object_strict_OK in H. ap_inversion H.
  apply field_optional_NonEmptyString_trimmed in Ha, Ha0, Ha1, Ha3. subst.
  unfold field in Ha2. apply NonEmptyString_OK in Ha2 as (u & Hu & -> & _).
  now exists u.
Qed.

(** The resolution of a table with [gh] or [git] that passed the union. *)
Lemma ref_declaration_resolved p t o alias :
  fst (DependencyDeclaration p (Some (Toml.Table t))) = OK (DeclObject o) ->
  (Obj.has t (js "gh") = true ->
   exists g,
     Obj.get t (js "gh") = Some (Toml.String g)
     /\ parseDependency alias (DeclObject o)
        = ok (github g (first_ref o) (trimmed t (js "path"))))
  /\ (Obj.has t (js "git") = true ->
      exists u,
        Obj.get t (js "git") = Some (Toml.String u)
        /\ parseDependency alias (DeclObject o)
           = ok (git_ (trim u) (first_ref o) (trimmed t (js "path"))))
  /\ (Obj.has t (js "gh") = true \/ Obj.has t (js "git") = true ->
      tag o = trimmed t (js "tag") /\ branch o = trimmed t (js "branch")
      /\ rev o = trimmed t (js "rev") /\ path o = trimmed t (js "path")).
Proof.
  intros H.
  apply DependencyDeclaration_OK in H as [(s & E & _)|(o' & [= <-] & H)];
    [discriminate|].
  destruct H as [H|[H|[H|H]]].
  - destruct (GithubDependency_fields _ _ H) as (g & Hg & Ho).
    apply GithubDependency_OK in H as (t' & [= <-] & Hin & Hshape & _).
    pose proof (key_absent Github_keys t (js "git") Hin eq_refl) as Hgit.
    assert (filled (path o)) as Hpath by (now destruct Hshape).
    subst o. simpl in Hpath. split; [|split].
    + intros _. exists g. split; [assumption|]. simpl.
      now rewrite extractGitRef_first_ref, spread_path_filled.
    + intros C. congruence.
    + intros _. now repeat split.
  - destruct (GitDependency_fields _ _ H) as (u & Hu & Ho).
    apply GitDependency_OK in H as (t' & [= <-] & Hin & Hshape & _).
    pose proof (key_absent Git_keys t (js "gh") Hin eq_refl) as Hgh.
    assert (filled (path o)) as Hpath by (now destruct Hshape).
    subst o. simpl in Hpath. split; [|split].
    + intros C. congruence.
    + intros _. exists u. split; [assumption|]. simpl.
      now rewrite extractGitRef_first_ref, spread_path_filled.
    + intros _. now repeat split.
  - apply LocalDependency_OK in H as (t' & [= <-] & Hin & _).
    pose proof (key_absent Local_keys t (js "gh") Hin eq_refl) as Hgh.
    pose proof (key_absent Local_keys t (js "git") Hin eq_refl) as Hgit.
    split; [|split]; [intros C; congruence | intros C; congruence |].
    intros [C|C]; congruence.
  - apply ClaudePluginDependency_OK in H as (t' & [= <-] & Hin & _).
    pose proof (key_absent ClaudePlugin_keys t (js "gh") Hin eq_refl) as Hgh.
    pose proof (key_absent ClaudePlugin_keys t (js "git") Hin eq_refl) as Hgit.
    split; [|split]; [intros C; congruence | intros C; congruence |].
    intros [C|C]; congruence.
Qed.

End FieldFacts.
Import FieldFacts.

(* ================================================================== *)
(** * The dependencies of a successful parse *)
(* ================================================================== *)

Module ResolutionFacts.

Import Zod Schema Parse Spec.
Local Open Scope zod_scope.

Lemma Alias_OK p k a :
  fst (Alias p (Some (Toml.String k))) = OK a -> a = trim k.
Proof.
  unfold Alias, pipe, transform. simpl string at 1. cbv iota beta.
  destruct (refine _ _ _ p (Some (Toml.String (trim k)))) as [st issues] eqn:E.
  simpl. intros ->. apply (f_equal fst) in E. simpl in E.
  do 4 apply refine_OK in E as [E _]. apply string_OK in E. congruence.
Qed.

(** The properties of a merged object whose keys are renamed by [f]. *)
Lemma mergeObjectSync_get_renamed {V} (f : jstring -> jstring)
    (val : jstring -> status V) keys k :
  (forall k', In k' keys -> f k' = f k -> k' = k) ->
  jeqb (f k) PROTO = false ->
  forall isdirty acc o,
    mergeObjectSync isdirty (map (fun key => (OK (f key), val key)) keys) acc = OK o ->
    Obj.get o (f k) = if includes keys k then value_of (val k) else Obj.get acc (f k).
Proof.
  intros Huniq Hproto. induction keys as [|key keys IH]; intros isdirty acc o; simpl.
  - destruct isdirty; [discriminate|]. now intros [= <-].
  - assert (forall k', In k' keys -> f k' = f k -> k' = k) as Huniq'
      by (intros k' Hin; apply Huniq; now right).
    specialize (IH Huniq').
    destruct (val key) as [v|v|] eqn:Ev; try discriminate; intros H;
      rewrite (IH _ _ _ H); unfold includes; simpl;
      (destruct (existsb (jeqb k) keys) eqn:Ex; [now rewrite orb_true_r|]);
      rewrite orb_false_r;
      (destruct (jeqb k key) eqn:Ek;
       [ apply jeqb_true_iff in Ek; subst key;
         now rewrite Hproto, get_set, jeqb_refl, Ev
       | destruct (jeqb (f key) PROTO); [reflexivity|];
         rewrite get_set;
         destruct (jeqb (f k) (f key)) eqn:Ef; [|reflexivity];
         apply jeqb_true_iff in Ef;
         rewrite (Huniq key (or_introl eq_refl) (eq_sym Ef)), jeqb_refl in Ek;
         discriminate ]).
Qed.

(** The declarations of a valid record of dependencies, alias by alias. *)
Lemma DependenciesSchema_get p deps o alias raw :
  fst (DependenciesSchema p (Some (Toml.Table deps))) = OK o ->
  Obj.get deps alias = Some raw ->
  unique_alias deps alias -> trim alias <> PROTO ->
  NoDup (Obj.keys o)
  /\ exists decl,
       fst (DependencyDeclaration (p ++ [alias]) (Some raw)) = OK decl
       /\ Obj.get o (trim alias) = Some decl.
Proof.
  intros H Hraw Huniq Hproto.
  pose proof H as Hvalid. apply (f_equal isValid) in Hvalid.
  unfold DependenciesSchema, Dependencies in Hvalid. rewrite record_valid in Hvalid.
  simpl in Hvalid. rewrite forallb_forall in Hvalid.
  unfold DependenciesSchema in H. simpl in H. rewrite map_map in H. simpl in H.
  rewrite (map_ext_in _
             (fun key => (OK (trim key),
                          fst (DependencyDeclaration (p ++ [key]) (Obj.get deps key)))))
    in H.
  - split; [eapply mergeObjectSync_NoDup; [|exact H]; constructor|].
    pose proof (get_key _ _ Hraw) as Hkey.
    specialize (Hvalid alias Hkey). apply andb_true_iff in Hvalid as [_ Hv].
    apply isValid_OK in Hv as [decl Hdecl]. rewrite Hraw in Hdecl.
    exists decl. split; [assumption|].
    rewrite (@mergeObjectSync_get_renamed _ trim
               (fun key => fst (DependencyDeclaration (p ++ [key]) (Obj.get deps key)))
               (Obj.keys deps) alias Huniq
               (proj2 (jeqb_false_iff _ _) Hproto) false [] o H).
    rewrite (proj2 (includes_true_iff _ _) Hkey), Hraw, Hdecl. reflexivity.
  - intros key Hkey. specialize (Hvalid key Hkey).
    apply andb_true_iff in Hvalid as [Hv _]. apply isValid_OK in Hv as [a Ha].
    rewrite Ha. now rewrite (Alias_OK _ _ Ha).
Qed.

(** The loop over the declarations resolves each of them under its alias. *)
Lemma process_dependencies_get (entries : Obj.t Decl) :
  NoDup (Obj.keys entries) ->
  forall acc r,
    process_dependencies entries acc = ok r ->
    forall alias,
      Obj.get r alias =
      match Obj.get entries alias with
      | Some decl =>
          match parseDependency alias decl with
          | ok value => Some value
          | fail _ => None
          end
      | None => Obj.get acc alias
      end.
Proof.
  induction entries as [|[a d] entries IH]; intros Hnd acc r; simpl.
  - now intros [= <-].
  - inversion Hnd as [|? ? Ha Hrest]; subst.
    destruct (parseDependency a d) as [v|e] eqn:Ep; [|discriminate].
    intros H alias. rewrite (IH Hrest _ _ H alias).
    destruct (jeqb alias a) eqn:E.
    + apply jeqb_true_iff in E. subst alias.
      assert (Obj.get entries a = None) as ->.
      { destruct (Obj.get entries a) eqn:G; [|reflexivity].
        apply get_key in G. contradiction. }
      now rewrite get_set, jeqb_refl, Ep.
    + destruct (Obj.get entries alias); [reflexivity|]. now rewrite get_set, E.
Qed.

(** On success, the dependency of the result under a trimmed alias is the
    resolution of the declaration that the union made of the raw entry. *)
Lemma dependency_resolved parseToml errorMap contents doc deps alias raw vm :
  parseToml contents = Toml.Parsed doc ->
  Obj.get doc (js "dependencies") = Some (Toml.Table deps) ->
  Obj.get deps alias = Some raw ->
  unique_alias deps alias -> trim alias <> PROTO ->
  parse parseToml errorMap contents = Return (ok vm) ->
  exists decl value,
    fst (DependencyDeclaration [js "dependencies"; alias] (Some raw)) = OK decl
    /\ parseDependency (trim alias) decl = ok value
    /\ Obj.get (v_dependencies vm) (trim alias) = Some value.
Proof.
  intros Hdoc Hdeps Hraw Huniq Hproto Hok.
  destruct (isValid (fst (manifest_outcome doc))) eqn:Hv.
  - apply isValid_OK in Hv as [m Hm].
    destruct (parse_valid_manifest parseToml errorMap contents Hdoc Hm)
      as (r & Hr & E).
    rewrite E in Hok. injection Hok as <-. simpl.
    apply manifest_OK in Hm as (_ & Hm & _).
    rewrite (dependencies_outcome_table _ Hdeps) in Hm.
    destruct (@DependenciesSchema_get [js "dependencies"] deps (dependencies m)
                alias raw Hm Hraw Huniq Hproto)
      as (Hnd & decl & Hdecl & Hget).
    pose proof (@process_dependencies_get (dependencies m) Hnd [] r Hr (trim alias))
      as G.
    rewrite Hget in G. simpl in G.
    destruct (parseDependency_accepted (trim alias) (decl := decl)) as [v Hv].
    + exists [js "dependencies"; alias], (Some raw).
      destruct (DependencyDeclaration _ _) as [st issues]. exists issues.
      simpl in Hdecl. now subst st.
    + exists decl, v. rewrite Hv in G. now repeat split.
  - destruct (parse_invalid_manifest parseToml errorMap contents Hdoc Hv) as (c & E).
    rewrite E in Hok. discriminate.
Qed.

(** A document that is valid but for one entry, whose value passes the
    union, is a valid manifest. *)
Lemma valid_but_for_valid doc deps alias :
  valid_but_for doc deps alias ->
  isValid (fst (DependencyDeclaration [js "dependencies"; alias] (Obj.get deps alias)))
  = true ->
  isValid (fst (manifest_outcome doc)) = true.
Proof.
  intros (Hkeys & Ha & He & Hp & Hdeps & Halias & Hothers) Hthis.
  rewrite manifest_valid, Hkeys, Ha, He, Hp.
  rewrite (dependencies_outcome_table _ Hdeps).
  unfold DependenciesSchema, Dependencies. rewrite record_valid.
  simpl. rewrite !andb_true_r. apply forallb_forall. intros key Hkey.
  rewrite (Halias key Hkey). simpl.
  destruct (list_eq_dec N.eq_dec key alias) as [->|Hne]; [assumption|].
  now apply Hothers.
Qed.

(** So it is parsed successfully, and the result holds the resolution of
    that entry under its trimmed key. *)
Lemma valid_but_for_resolved parseToml errorMap contents doc deps alias raw decl :
  parseToml contents = Toml.Parsed doc ->
  valid_but_for doc deps alias ->
  Obj.get deps alias = Some raw ->
  (forall p, fst (DependencyDeclaration p (Some raw)) = OK decl) ->
  unique_alias deps alias -> trim alias <> PROTO ->
  exists vm value,
    parse parseToml errorMap contents = Return (ok vm)
    /\ parseDependency (trim alias) decl = ok value
    /\ Obj.get (v_dependencies vm) (trim alias) = Some value.
Proof.
  intros Hdoc Hvalid Hraw Hdecl Huniq Hproto.
  assert (isValid (fst (manifest_outcome doc)) = true) as Hv.
  { apply valid_but_for_valid with (deps := deps) (alias := alias); [assumption|].
    now rewrite Hraw, Hdecl. }
  apply isValid_OK in Hv as [m Hm].
  destruct (parse_valid_manifest parseToml errorMap contents Hdoc Hm)
    as (r & _ & E).
  destruct Hvalid as (_ & _ & _ & _ & Hdeps & _).
  destruct (@dependency_resolved parseToml errorMap contents doc deps alias raw _
              Hdoc Hdeps Hraw Huniq Hproto E) as (decl' & value & Hd & Hvalue & Hget).
  rewrite Hdecl in Hd. injection Hd as <-.
  eexists. exists value. split; [exact E|]. now split.
Qed.

End ResolutionFacts.
Import ResolutionFacts.

(* ================================================================== *)
(** * Trimming *)
(* ================================================================== *)

Module TrimFacts.

Import More.

Lemma trimStart_nil_iff s : trimStart s = [] <-> forallb isTrimmable s = true.
Proof.
  induction s as [|c s IH]; simpl; [tauto|].
  destruct (isTrimmable c); simpl; [assumption|]. split; discriminate.
Qed.

Lemma trimStart_head s c r : trimStart s = c :: r -> isTrimmable c = false.
Proof.
  induction s as [|c' s IH]; simpl; [discriminate|].
  destruct (isTrimmable c') eqn:E; [assumption|]. now intros [= <- _].
Qed.

Lemma trimStart_split s :
  exists pre, s = pre ++ trimStart s /\ forallb isTrimmable pre = true.
Proof.
  induction s as [|c s (pre & E & Hpre)]; simpl.
  - now exists [].
  - destruct (isTrimmable c) eqn:Hc.
    + exists (c :: pre). simpl. rewrite Hc, Hpre. split; [now f_equal|reflexivity].
    + now exists [].
Qed.

Lemma trimStart_text l x :
  match x with c :: _ => isTrimmable c = false | [] => True end ->
  trimStart (l ++ x) = trimStart l ++ x.
Proof.
  intros Hx. induction l as [|c l IH]; simpl.
  - destruct x as [|c r]; [reflexivity|]. simpl. now rewrite Hx.
  - now destruct (isTrimmable c).
Qed.

Lemma trimStart_idem s : trimStart (trimStart s) = trimStart s.
Proof.
  destruct (trimStart s) as [|c r] eqn:E; [reflexivity|].
  apply trimStart_head in E. simpl. now rewrite E.
Qed.

Lemma trimEnd_idem s : trimEnd (trimEnd s) = trimEnd s.
Proof. unfold trimEnd. now rewrite rev_involutive, trimStart_idem. Qed.

Lemma trimEnd_split s :
  exists post, s = trimEnd s ++ post /\ forallb isTrimmable post = true.
Proof.
  destruct (trimStart_split (rev s)) as (pre & E & Hpre).
  exists (rev pre). split.
  - unfold trimEnd. rewrite <- rev_app_distr, <- E. now rewrite rev_involutive.
  - rewrite forallb_forall in *. intros c Hc. apply Hpre. now apply in_rev.
Qed.

Lemma trimEnd_last s l c : trimEnd s = l ++ [c] -> isTrimmable c = false.
Proof.
  unfold trimEnd. intros E. apply (f_equal (@rev N)) in E.
  rewrite rev_involutive, rev_app_distr in E. simpl in E.
  now apply trimStart_head in E.
Qed.

Lemma trimEnd_cons c s : isTrimmable c = false -> trimEnd (c :: s) = c :: trimEnd s.
Proof.
  intros Hc. unfold trimEnd. simpl rev at 2.
  rewrite trimStart_text by exact Hc. now rewrite rev_app_distr.
Qed.

Lemma trim_cases s :
  (trimStart s = [] /\ trim s = [])
  \/ exists c r, trimStart s = c :: r /\ isTrimmable c = false
                 /\ trim s = c :: trimEnd r.
Proof.
  unfold trim. destruct (trimStart s) as [|c r] eqn:E.
  - now left.
  - right. exists c, r. pose proof (trimStart_head _ E) as Hc.
    now rewrite trimEnd_cons.
Qed.

Lemma truthy_trim s : truthy (trim s) = has_text s.
Proof.
  unfold has_text.
  destruct (trim_cases s) as [[E ->]|(c & r & E & Hc & ->)]; simpl.
  - apply trimStart_nil_iff in E. symmetry. apply not_true_is_false.
    intros H. apply existsb_exists in H as (c & Hin & Hc).
    rewrite forallb_forall in E. rewrite (E c Hin) in Hc. discriminate.
  - symmetry. apply existsb_exists.
    destruct (trimStart_split s) as (pre & Es & _). exists c. split.
    + rewrite Es, E. apply in_or_app. right. now left.
    + now rewrite Hc.
Qed.

Lemma trim_blank s : has_text s = false -> trim s = [].
Proof.
  rewrite <- truthy_trim. now destruct (trim s).
Qed.

Lemma trim_idem s : trim (trim s) = trim s.
Proof.
  destruct (trim_cases s) as [[_ ->]|(c & r & _ & Hc & ->)]; [reflexivity|].
  unfold trim at 1. simpl trimStart. rewrite Hc.
  now rewrite trimEnd_cons, trimEnd_idem.
Qed.

Lemma trim_head s c r : trim s = c :: r -> isTrimmable c = false.
Proof.
  destruct (trim_cases s) as [[_ ->]|(c' & r' & _ & Hc & ->)]; [discriminate|].
  now intros [= <- _].
Qed.

Lemma trim_last s l c : trim s = l ++ [c] -> isTrimmable c = false.
Proof. unfold trim. apply trimEnd_last. Qed.

(** The trimmed string is the input without a run of white space at each
    end. *)
Lemma trim_split s :
  exists pre post,
    s = pre ++ trim s ++ post
    /\ forallb isTrimmable pre = true /\ forallb isTrimmable post = true.
Proof.
  destruct (trimStart_split s) as (pre & E & Hpre).
  destruct (trimEnd_split (trimStart s)) as (post & E' & Hpost).
  exists pre, post. unfold trim. now rewrite <- E', <- E.
Qed.

(** A string without white space at its ends is its own trimmed form. *)
Lemma trim_fixed s :
  match s with c :: _ => isTrimmable c = false | [] => True end ->
  (forall l c, s = l ++ [c] -> isTrimmable c = false) ->
  trim s = s.
Proof.
  intros Hhead Hlast. unfold trim.
  assert (trimStart s = s) as ->.
  { destruct s as [|c r]; [reflexivity|]. simpl. now rewrite Hhead. }
  unfold trimEnd.
  destruct (rev s) as [|c r] eqn:E.
  - apply (f_equal (@rev N)) in E. now rewrite rev_involutive in E.
  - assert (s = rev r ++ [c]) as Es.
    { apply (f_equal (@rev N)) in E. now rewrite rev_involutive in E. }
    simpl trimStart. rewrite (Hlast _ _ Es). now simpl.
Qed.

End TrimFacts.
Import TrimFacts.

(* ================================================================== *)
(** * Strings and aliases as the schemas see them *)
(* ================================================================== *)

Module PrimitiveFacts.

Import Zod Schema Parse Spec More.
Local Open Scope zod_scope.

Lemma NonEmptyString_text p s :
  NonEmptyString p (Some (Toml.String s))
  = if has_text s then (OK (trim s), [])
    else (DIRTY [], [mkIssue (too_small 1) p (Some (js "String cannot be empty"))]).
Proof.
  rewrite NonEmptyString_string, truthy_trim.
  destruct (has_text s) eqn:E; [reflexivity|]. now rewrite (trim_blank _ E).
Qed.

Lemma NonEmptyString_other p data :
  (forall s, data <> Some (Toml.String s)) ->
  NonEmptyString p data
  = (INVALID, [mkIssue (invalid_type t_string (getParsedType data)) p None]).
Proof.
  intros H. destruct data as [[s| | | | |]|]; try reflexivity.
  now destruct (H s).
Qed.

Lemma has_text_trim s : has_text (trim s) = has_text s.
Proof. now rewrite <- !truthy_trim, trim_idem. Qed.

Lemma trimmed_clean t k : nonblank t k = true -> clean_opt (trimmed t k).
Proof.
  unfold nonblank, trimmed.
  destruct (Obj.get t k) as [[s| | | | |]|]; try discriminate.
  intros H. split; [now apply truthy_true_iff | apply trim_idem].
Qed.

Lemma Alias_string p k :
  Alias p (Some (Toml.String k))
  = (if alias_ok (trim k) then OK (trim k) else DIRTY (trim k),
     alias_issues p (trim k)).
Proof.
  unfold Alias, pipe, transform, alias_ok, alias_issues. simpl string at 1.
  cbv iota beta. unfold refine, string, check_passes, check_issue, flat_map.
  destruct (trim k) as [|c a]; [reflexivity|].
  change (1 <=? List.length (c :: a)) with true.
  change (truthy (c :: a)) with true. cbv beta iota delta [app].
  destruct (includes_unit (c :: a) 47); cbv beta iota delta [negb app];
    destruct (includes_unit (c :: a) 92); cbv beta iota delta [negb app];
    destruct (includes_unit (c :: a) 46); cbv beta iota delta [negb app];
    destruct (includes_unit (c :: a) 58); reflexivity.
Qed.

Lemma Alias_valid p k :
  isValid (fst (Alias p (Some (Toml.String k)))) = alias_ok (trim k).
Proof. rewrite Alias_string. now destruct (alias_ok (trim k)). Qed.

Lemma alias_issues_nil p a : alias_issues p a = [] <-> alias_ok a = true.
Proof.
  unfold alias_issues, alias_ok.
  destruct (truthy a), (includes_unit a 47), (includes_unit a 92),
    (includes_unit a 46), (includes_unit a 58); simpl; split;
    try discriminate; reflexivity.
Qed.

(** ** Keys of a record *)

Lemma record_key_issues {V} keyType (valueType : ZodType V) p entries key i :
  In key (Obj.keys entries) ->
  In i (snd (keyType (p ++ [key]) (Some (Toml.String key)))) ->
  In i (snd (record keyType valueType p (Some (Toml.Table entries)))).
Proof.
  simpl. intros Hk Hi. apply in_flat_map.
  exists (keyType (p ++ [key]) (Some (Toml.String key)),
          valueType (p ++ [key]) (Obj.get entries key)).
  split.
  - apply in_map_iff. now exists key.
  - simpl. apply in_or_app. now left.
Qed.

Lemma mergeObjectSync_entries {V} (pairs : list (status jstring * status V)) :
  forall isdirty acc o,
    mergeObjectSync isdirty pairs acc = OK o ->
    forall k v, In (k, v) o -> In (k, v) acc \/ In (OK k, OK v) pairs.
Proof.
  induction pairs as [|[ks vs] pairs IH]; intros isdirty acc o; simpl.
  - destruct isdirty; [discriminate|]. intros [= <-]. auto.
  - destruct ks as [key|key|], vs as [val|val|]; try discriminate; intros H k v Hin;
      try (apply (f_equal isValid) in H; rewrite mergeObjectSync_valid in H;
           simpl in H; rewrite ?orb_true_r in H; discriminate).
    destruct (IH _ _ _ H k v Hin) as [Hacc|Hp].
    + destruct (jeqb key PROTO); [now left|].
      apply In_set in Hacc as [[-> ->]|Hacc]; [|now left].
      right. now left.
    + right. now right.
Qed.

(** Every entry of a valid record is made of the valid outcomes of the two
    schemas on one of the properties. *)
Lemma record_entries {V} keyType (valueType : ZodType V) p entries o :
  fst (record keyType valueType p (Some (Toml.Table entries))) = OK o ->
  NoDup (Obj.keys o)
  /\ forall k v, In (k, v) o ->
       exists key,
         In key (Obj.keys entries)
         /\ fst (keyType (p ++ [key]) (Some (Toml.String key))) = OK k
         /\ fst (valueType (p ++ [key]) (Obj.get entries key)) = OK v.
Proof.
  simpl. rewrite map_map. simpl. intros H. split.
  - apply (@mergeObjectSync_NoDup V _ false [] o (NoDup_nil _) H).
  - intros k v Hin.
    destruct (mergeObjectSync_entries _ _ _ H k v Hin) as [[]|Hp].
    apply in_map_iff in Hp as (key & E & Hkey). injection E as E1 E2.
    now exists key.
Qed.

Lemma record_not_table {V} keyType (valueType : ZodType V) p data :
  (forall entries, data <> Some (Toml.Table entries)) ->
  record keyType valueType p data
  = (INVALID, [mkIssue (invalid_type t_object (getParsedType data)) p None]).
Proof.
  intros H. destruct data as [[| | | | |entries]|]; try reflexivity.
  now destruct (H entries).
Qed.

End PrimitiveFacts.
Import PrimitiveFacts.

(* ================================================================== *)
(** * GitHub references and the text of a registry dependency *)
(* ================================================================== *)

Module ReferenceFacts.

Import Zod Schema Parse Spec More.
Local Open Scope regex_scope.


Lemma GithubRefPattern_inv s :
  RegExp.test GithubRefPattern s = true -> exists owner repo, owner_repo s owner repo.
Proof.
  unfold RegExp.test. destruct (exec GithubRefPattern s) as [m|] eqn:H;
    [intros _|discriminate].
  apply exec_anchored in H. rewrite run_Seq in H.
  apply run_plus_inv in H as (owner & rest & -> & Ho & How & H).
  rewrite run_Seq in H. apply run_chr_inv in H as (rest' & -> & H).
  rewrite run_Seq in H.
  apply run_plus_inv in H as (repo & rest & -> & Hr & Hrw & H).
  destruct rest; [|discriminate].
  exists owner, repo. rewrite app_nil_r. now repeat split.
Qed.





(** ** The parser's pattern, in both directions *)

Lemma parseRegistryString_Some s d :
  parseRegistryString s = Some d <->
  exists org name version,
    d = registry name org version
    /\ shorthand s org name version /\ single_line version.
Proof.
  split.
  - intros H. unfold parseRegistryString in H.
    destruct (exec REGISTRY_PATTERN s) as [m|] eqn:E; [|discriminate].
    destruct (REGISTRY_PATTERN_inv _ E) as (org & name & version & Hs & Hl).
    exists org, name, version. split; [|now split].
    pose proof (parseRegistryString_shorthand Hs Hl) as E'.
    unfold parseRegistryString in E'. rewrite E in E'. congruence.
  - intros (org & name & version & -> & Hs & Hl).
    now apply parseRegistryString_shorthand.
Qed.

Lemma parseRegistryString_None s :
  parseRegistryString s = None <->
  ~ (exists org name version, shorthand s org name version /\ single_line version).
Proof.
  split.
  - intros H (org & name & version & Hs & Hl).
    rewrite (parseRegistryString_shorthand Hs Hl) in H. discriminate.
  - intros H. destruct (parseRegistryString s) as [d|] eqn:E; [|reflexivity].
    apply parseRegistryString_Some in E as (org & name & version & _ & Hs & Hl).
    destruct H. now exists org, name, version.
Qed.

Lemma shorthand_render s org name version :
  shorthand s org name version -> s = render org name version.
Proof. now intros (_ & _ & _ & _ & ->). Qed.

Lemma shorthand_unique s org name version org' name' version' :
  shorthand s org name version -> single_line version ->
  shorthand s org' name' version' -> single_line version' ->
  org = org' /\ name = name' /\ version = version'.
Proof.
  intros Hs Hl Hs' Hl'.
  pose proof (parseRegistryString_shorthand Hs Hl) as E.
  rewrite (parseRegistryString_shorthand Hs' Hl') in E.
  injection E as -> -> ->. now repeat split.
Qed.

End ReferenceFacts.
Import ReferenceFacts.

(* ================================================================== *)
(** * What the object forms let through *)
(* ================================================================== *)

Module FormFacts.

Import Zod Schema Parse Spec More.
Local Open Scope zod_scope.

Lemma GithubRef_OK p data g :
  fst (GithubRef p data) = OK g ->
  data = Some (Toml.String g) /\ RegExp.test GithubRefPattern g = true.
Proof.
  destruct data as [[s| | | | |]|]; try discriminate.
  unfold GithubRef, string, check_passes. cbn [flat_map app].
  destruct (RegExp.test GithubRefPattern s) eqn:E; [|discriminate].
  now intros [= <-].
Qed.

Lemma literal_OK l p data v :
  fst (literal l p data) = OK v -> v = l /\ strictly_equal l data = true.
Proof.
  unfold literal. destruct (strictly_equal l data); [|discriminate].
  now intros [= <-].
Qed.

Lemma NonEmptyString_clean p data v :
  fst (NonEmptyString p data) = OK v ->
  clean v /\ exists s, data = Some (Toml.String s) /\ v = trim s.
Proof.
  intros H. apply NonEmptyString_OK in H as (s & -> & -> & Hne).
  split; [|now exists s]. split; [assumption|apply trim_idem].
Qed.

Lemma field_optional_NonEmptyString_clean p (t : Toml.table) key v :
  fst (field p t key (optional NonEmptyString)) = OK v -> clean_opt v.
Proof.
  unfold field. intros H. apply optional_NonEmptyString_OK in H as [Hf H].
  destruct (Obj.get t key) as [d|]; [|now subst].
  destruct H as (s & -> & ->). simpl in *.
  split; [|apply trim_idem]. now destruct (trim s).
Qed.

Lemma GithubDependency_valid p data o :
  fst (GithubDependency p data) = OK o -> valid_object o.
Proof.
  unfold GithubDependency. intros H. apply refine_OK in H as [H Hone].
  destruct (object_strict_OK_table _ _ _ _ H) as (t & ->).
  apply object_strict_OK in H. ap_inversion H.
  apply field_optional_NonEmptyString_clean in Ha, Ha0, Ha1, Ha3.
  unfold field in Ha2. apply GithubRef_OK in Ha2 as [_ Hg].
  now constructor.
Qed.

Lemma GitDependency_valid p data o :
  fst (GitDependency p data) = OK o -> valid_object o.
Proof.
  unfold GitDependency. intros H. apply refine_OK in H as [H Hone].
  destruct (object_strict_OK_table _ _ _ _ H) as (t & ->).
  apply object_strict_OK in H. ap_inversion H.
  apply field_optional_NonEmptyString_clean in Ha, Ha0, Ha1, Ha3.
  unfold field in Ha2. apply NonEmptyString_clean in Ha2 as [Hu _].
  now constructor.
Qed.

Lemma LocalDependency_fields p t o :
  fst (LocalDependency p (Some (Toml.Table t))) = OK o ->
  exists pa,
    Obj.get t (js "path") = Some (Toml.String pa) /\ clean (trim pa)
    /\ o = mkDecl None None None None (Some (trim pa)) None None None None.
Proof.
  unfold LocalDependency. intros H.
  apply object_strict_OK in H. ap_inversion H.
  unfold field in Ha. apply NonEmptyString_clean in Ha as [Hc (pa & E & ->)].
  now exists pa.
Qed.

Lemma ClaudePluginDependency_fields p t o :
  fst (ClaudePluginDependency p (Some (Toml.Table t))) = OK o ->
  exists m pl,
    Obj.get t (js "marketplace") = Some (Toml.String m) /\ clean (trim m)
    /\ Obj.get t (js "plugin") = Some (Toml.String pl) /\ clean (trim pl)
    /\ Obj.get t (js "type") = Some (Toml.String CLAUDE_PLUGIN)
    /\ o = mkDecl None None None (Some (trim m)) None (Some (trim pl)) None None
                  (Some CLAUDE_PLUGIN).
Proof.
  unfold ClaudePluginDependency. intros H.
  apply object_strict_OK in H. ap_inversion H.
  unfold field in Ha, Ha0, Ha1.
  apply NonEmptyString_clean in Ha0 as [Hpl (pl & Epl & ->)].
  apply NonEmptyString_clean in Ha1 as [Hm (m & Em & ->)].
  apply literal_OK in Ha as [_ Ht].
  exists m, pl. repeat split; try assumption; try apply Hpl; try apply Hm.
  unfold strictly_equal in Ht.
  destruct (Obj.get t (js "type")) as [[s| | | | |]|]; try discriminate.
  apply jeqb_true_iff in Ht. now subst.
Qed.

Lemma LocalDependency_valid p data o :
  fst (LocalDependency p data) = OK o -> valid_object o.
Proof.
  intros H. destruct (object_strict_OK_table _ _ _ _ H) as (t & ->).
  apply LocalDependency_fields in H as (pa & _ & Hc & ->). now constructor.
Qed.

Lemma ClaudePluginDependency_valid p data o :
  fst (ClaudePluginDependency p data) = OK o -> valid_object o.
Proof.
  intros H. destruct (object_strict_OK_table _ _ _ _ H) as (t & ->).
  apply ClaudePluginDependency_fields in H as (m & pl & _ & Hm & _ & Hpl & _ & ->).
  now constructor.
Qed.

(** What passed the union is a valid declaration. *)
Lemma accepted_valid decl : accepted decl -> valid_declaration decl.
Proof.
  intros (p & data & issues & H). apply (f_equal fst) in H. simpl in H.
  apply DependencyDeclaration_OK in H as [(s & -> & H)|(o & -> & H)].
  - apply RegistryDependency_OK in H as [_ H].
    apply parseRegistryString_accepted in H as (org & name & version & Hs & Hl & _).
    now exists org, name, version.
  - destruct H as [H|[H|[H|H]]].
    + now apply GithubDependency_valid in H.
    + now apply GitDependency_valid in H.
    + now apply LocalDependency_valid in H.
    + now apply ClaudePluginDependency_valid in H.
Qed.

(** ** The refs of a valid object *)

Lemma clean_opt_cases v : clean_opt v -> v = None \/ exists c s, v = Some (c :: s).
Proof.
  destruct v as [[|c s]|]; simpl.
  - intros [H _]. now destruct H.
  - right. now exists c, s.
  - now left.
Qed.

Lemma valid_object_refs o :
  valid_object o ->
  refs_carried o <= 1
  /\ clean_opt (tag o) /\ clean_opt (branch o) /\ clean_opt (rev o)
  /\ clean_opt (path o).
Proof.
  unfold refs_carried.
  intros [b g pa r t _ Hb Hpa Hr Ht Hone|b u pa r t _ Hb Hpa Hr Ht Hone|pa Hpa|m pl _ _];
    simpl; repeat split; try assumption; try exact I; try lia;
    try (unfold one_ref_at_most in Hone; simpl in Hone; now apply Nat.leb_le in Hone).
  - apply Hpa.
  - apply Hpa.
Qed.

(** With at most one ref, the ref that the parser extracts is the one that
    the object carries, whatever its kind. *)
Lemma extractGitRef_only o :
  refs_carried o <= 1 ->
  clean_opt (tag o) -> clean_opt (branch o) -> clean_opt (rev o) ->
  forall kind v,
    extractGitRef o = Some (mkRef kind v) <-> ref_field kind o = Some v.
Proof.
  unfold refs_carried, extractGitRef. intros Hone Ht Hb Hr.
  destruct (clean_opt_cases _ Ht) as [Et|(c & t & Et)];
    destruct (clean_opt_cases _ Hb) as [Eb|(c' & b & Eb)];
    destruct (clean_opt_cases _ Hr) as [Er|(c'' & r & Er)];
    rewrite Et, Eb, Er in Hone; simpl in Hone; try lia;
    intros kind v; destruct kind; simpl; rewrite ?Et, ?Eb, ?Er; simpl;
    split; intros H; try discriminate; try congruence; now inversion H.
Qed.

Lemma extractGitRef_clean o :
  clean_opt (tag o) -> clean_opt (branch o) -> clean_opt (rev o) ->
  clean_ref (extractGitRef o).
Proof.
  unfold extractGitRef. intros Ht Hb Hr.
  destruct (clean_opt_cases _ Ht) as [Et|(c & t & Et)]; rewrite Et in *;
    [|exact Ht].
  destruct (clean_opt_cases _ Hb) as [Eb|(c' & b & Eb)]; rewrite Eb in *;
    [|exact Hb].
  destruct (clean_opt_cases _ Hr) as [Er|(c'' & r & Er)]; rewrite Er in *;
    [exact I|exact Hr].
Qed.

Lemma spread_path_clean o : clean_opt (path o) -> spread_path o = path o.
Proof.
  unfold spread_path. destruct (path o) as [[|c s]|]; try reflexivity.
  now intros [[] _].
Qed.

(** A valid declaration is resolved to a well-formed dependency. *)
Lemma parseDependency_well_formed alias decl :
  valid_declaration decl ->
  exists value, parseDependency alias decl = ok value /\ well_formed value.
Proof.
  destruct decl as [s|o]; simpl valid_declaration.
  - intros (org & name & version & Hs & Hl).
    exists (registry name org version). simpl.
    rewrite (parseRegistryString_shorthand Hs Hl). split; [reflexivity|].
    split; [|assumption]. now rewrite <- (shorthand_render Hs).
  - intros H. pose proof (valid_object_refs H) as (_ & Ht & Hb & Hr & Hpa).
    pose proof (extractGitRef_clean o Ht Hb Hr) as Href.
    pose proof (spread_path_clean o Hpa) as Hsp.
    destruct H as [b g pa r t Hg _ _ _ _ _|b u pa r t Hu _ _ _ _ _|pa Hc|m pl Hm Hpl];
      simpl parseDependency; eexists; (split; [reflexivity|]); simpl.
    + rewrite Hsp. repeat split; try assumption; try apply Hpa.
      now apply GithubRefPattern_inv.
    + rewrite Hsp. repeat split; try assumption; try apply Hu; try apply Hpa.
    + exact Hc.
    + split; eexists; (split; [reflexivity|assumption]).
Qed.

End FormFacts.
Import FormFacts.

(* ================================================================== *)
(** * The result of a successful parse *)
(* ================================================================== *)

Module ResultFacts.

Import Zod Schema Parse Spec More.
Local Open Scope zod_scope.

Section Outcome.

Variable parseToml : jstring -> Toml.outcome.
Variable errorMap : ZodIssueCode -> jstring.

(** A success went through the three stages. *)
Lemma parse_ok_inv contents vm :
  parse parseToml errorMap contents = Return (ok vm) ->
  exists doc m,
    parseToml contents = Toml.Parsed doc
    /\ fst (manifest_outcome doc) = OK m
    /\ process_dependencies (dependencies m) [] = ok (v_dependencies vm)
    /\ vm = mkValidated (package m) (process_agents (agents m))
                        (v_dependencies vm) (exports m).
Proof.
  intros Hok. destruct (parseToml contents) as [doc|err] eqn:Hdoc.
  - exists doc. destruct (isValid (fst (manifest_outcome doc))) eqn:Hv.
    + apply isValid_OK in Hv as [m Hm]. exists m.
      destruct (parse_valid_manifest parseToml errorMap contents Hdoc Hm)
        as (deps & Hdeps & E).
      rewrite E in Hok. injection Hok as <-. now repeat split.
    + destruct (parse_invalid_manifest parseToml errorMap contents Hdoc Hv) as (c & E).
      rewrite E in Hok. discriminate.
  - destruct (parse_invalid_toml parseToml errorMap contents Hdoc) as (msg & c & E).
    rewrite E in Hok. discriminate.
Qed.

(** A failure of the TOML parser, with its message and its cause. *)
Lemma parse_toml_failure contents err :
  parseToml contents = Toml.Throws err ->
  parse parseToml errorMap contents
  = Return (fail (mkError invalid_toml (thrown_message err) (Some (cause_thrown err)))).
Proof. intros H. unfold parse. now rewrite H. Qed.

(** A failure of the schema, with its message and its cause. *)
Lemma parse_schema_failure contents doc :
  parseToml contents = Toml.Parsed doc ->
  isValid (fst (manifest_outcome doc)) = false ->
  parse parseToml errorMap contents
  = Return
      (fail (mkError invalid_manifest
               (js "Invalid manifest: "
                ++ join (js "; ") (map (issue_line errorMap) (snd (manifest_outcome doc))))
               (Some (cause_zod (snd (manifest_outcome doc)))))).
Proof.
  intros Hdoc Hv. unfold parse. rewrite Hdoc.
  pose proof (@parse_sound _ ManifestSchema (Toml.Table doc) sound_ManifestSchema) as H.
  fold (manifest_outcome doc) in H.
  destruct (schema_parse ManifestSchema (Toml.Table doc)) as [m|issues|msg].
  - rewrite H in Hv. discriminate.
  - destruct H as [_ ->]. reflexivity.
  - destruct H.
Qed.

End Outcome.

(** ** The loop over the declarations *)

Lemma process_dependencies_entries (entries : Obj.t Decl) :
  forall acc r,
    process_dependencies entries acc = ok r ->
    (NoDup (Obj.keys acc) -> NoDup (Obj.keys r))
    /\ forall alias value,
         In (alias, value) r ->
         In (alias, value) acc
         \/ exists decl, In (alias, decl) entries
                         /\ parseDependency alias decl = ok value.
Proof.
  induction entries as [|[a d] entries IH]; intros acc r; simpl.
  - intros [= <-]. split; [trivial|]. intros alias value H. now left.
  - destruct (parseDependency a d) as [v|e] eqn:Ep; [|discriminate].
    intros H. destruct (IH _ _ H) as [Hnd Hin]. split.
    + intros Hacc. apply Hnd. now apply NoDup_set.
    + intros alias value Hr.
      destruct (Hin _ _ Hr) as [Hacc|(decl & Hd & Hp)].
      * apply In_set in Hacc as [[-> ->]|Hacc]; [|now left].
        right. exists d. split; [now left|assumption].
      * right. exists decl. split; [now right|assumption].
Qed.

(** The entries of the validated dependencies: a trimmed key that keeps the
    rules of an alias, and a declaration that passed the union. *)
Lemma dependencies_entries doc m alias decl :
  fst (manifest_outcome doc) = OK m ->
  In (alias, decl) (dependencies m) ->
  exists deps key,
    Obj.get doc (js "dependencies") = Some (Toml.Table deps)
    /\ In key (Obj.keys deps) /\ alias = trim key /\ alias_ok alias = true
    /\ fst (DependencyDeclaration [js "dependencies"; key] (Obj.get deps key))
       = OK decl.
Proof.
  intros H Hin. apply manifest_OK in H as (_ & H & _).
  unfold dependencies_outcome, field, optional_default in H.
  destruct (Obj.get doc (js "dependencies")) as [[| | | | |deps]|] eqn:E;
    try discriminate.
  - unfold DependenciesSchema in H.
    destruct (record_entries _ _ _ _ H) as [_ Hall].
    destruct (Hall _ _ Hin) as (key & Hkey & Hk & Hv).
    exists deps, key. simpl app in Hk, Hv.
    pose proof (Alias_OK _ _ Hk) as ->.
    pose proof (Alias_valid ([js "dependencies"; key]) key) as Hok.
    rewrite Hk in Hok. simpl in Hok. now repeat split.
  - unfold DependenciesSchema in H.
    destruct (record_entries _ _ _ _ H) as [_ Hall].
    destruct (Hall _ _ Hin) as (key & [] & _).
Qed.

Lemma dependencies_NoDup doc m :
  fst (manifest_outcome doc) = OK m -> NoDup (Obj.keys (dependencies m)).
Proof.
  intros H. apply manifest_OK in H as (_ & H & _).
  unfold dependencies_outcome, field, optional_default, DependenciesSchema in H.
  destruct (match Obj.get doc (js "dependencies") with
            | Some v => v
            | None => Toml.Table []
            end) as [| | | | |entries] eqn:E; try discriminate.
  now destruct (record_entries _ _ _ _ H).
Qed.

Lemma clean_trim s : trim s <> [] -> clean (trim s).
Proof. intros H. split; [assumption|apply trim_idem]. Qed.

End ResultFacts.
Import ResultFacts.

(* ================================================================== *)
(** * The issues that reach the message *)
(* ================================================================== *)

Module IssueFacts.

Import Zod Schema Parse Spec More.
Local Open Scope zod_scope.


Lemma issue_line_default errorMap code p :
  issue_line errorMap (mkIssue code p None) = message_line p (errorMap code).
Proof. reflexivity. Qed.

(** ** Statuses *)





(** ** Strings *)

Lemma NonEmptyString_issue errorMap p data :
  isValid (fst (NonEmptyString p data)) = false ->
  exists i,
    In i (snd (NonEmptyString p data))
    /\ issue_line errorMap i = message_line p (string_message errorMap data).
Proof.
  destruct data as [[s| | | | |]|];
    try (intros _; eexists; split; [now left|reflexivity]).
  rewrite NonEmptyString_string. destruct (truthy (trim s)); [discriminate|].
  intros _. eexists. split; [now left|reflexivity].
Qed.

Lemma optional_NonEmptyString_issue errorMap p data :
  isValid (fst (optional NonEmptyString p (Some data))) = false ->
  exists i,
    In i (snd (optional NonEmptyString p (Some data)))
    /\ issue_line errorMap i = message_line p (string_message errorMap (Some data)).
Proof. rewrite optional_valid, optional_issues. apply NonEmptyString_issue. Qed.

(** ** The package *)

Lemma package_outcome_table doc t :
  Obj.get doc (js "package") = Some (Toml.Table t) ->
  isValid (fst (package_outcome doc))
  = isValid (fst (PackageSchema [js "package"] (Some (Toml.Table t))))
  /\ snd (package_outcome doc) = snd (PackageSchema [js "package"] (Some (Toml.Table t))).
Proof.
  intros H. unfold package_outcome, field. rewrite H.
  now rewrite optional_valid, optional_issues.
Qed.

Lemma PackageSchema_valid p t :
  isValid (fst (PackageSchema p (Some (Toml.Table t))))
  = negb (key_outside Package_keys t)
    && ((negb (Obj.has t (js "description")) || nonblank t (js "description"))
        && (negb (Obj.has t (js "license")) || nonblank t (js "license"))
        && nonblank t (js "name")
        && (negb (Obj.has t (js "org")) || nonblank t (js "org"))
        && nonblank t (js "version")).
Proof.
  unfold PackageSchema. rewrite object_strict_valid, !ap_valid.
  now rewrite !field_optional_NonEmptyString_valid, !field_NonEmptyString_valid.
Qed.

(** The issue of a field of the package reaches the issues of the schema. *)
Lemma PackageSchema_issue p t key i :
  In key Package_keys ->
  In i (snd (NonEmptyString (p ++ [key]) (Obj.get t key))) ->
  (In key [js "name"; js "version"] \/ Obj.has t key = true) ->
  In i (snd (PackageSchema p (Some (Toml.Table t)))).
Proof.
  intros Hkey Hi Hreq. unfold PackageSchema. apply object_strict_issues.
  rewrite !ap_issues. simpl snd at 1. rewrite !in_app_iff.
  assert (Obj.has t key = true ->
          In i (snd (field p t key (optional NonEmptyString)))) as Hopt.
  { unfold field, Obj.has. destruct (Obj.get t key) eqn:E; [|discriminate].
    intros _. now rewrite optional_issues. }
  simpl in Hkey. destruct Hkey as [<-|[<-|[<-|[<-|[<-|[]]]]]].
  - destruct Hreq as [[C|[C|[]]]|Hhas]; try discriminate. auto 10.
  - destruct Hreq as [[C|[C|[]]]|Hhas]; try discriminate. auto 10.
  - auto 10.
  - destruct Hreq as [[C|[C|[]]]|Hhas]; try discriminate. auto 10.
  - auto 10.
Qed.

(** ** The agents *)

Lemma agents_outcome_some doc v :
  Obj.get doc (js "agents") = Some v ->
  agents_outcome doc = AgentsSchema [js "agents"] (Some v).
Proof.
  intros H. unfold agents_outcome, field, optional_default. now rewrite H.
Qed.

Lemma boolean_issue p v :
  is_boolean v = false ->
  boolean p (Some v)
  = (INVALID, [mkIssue (invalid_type t_boolean (getParsedType (Some v))) p None]).
Proof. destruct v; try reflexivity. discriminate. Qed.

Lemma AgentsSchema_issue p entries id v :
  Obj.get entries id = Some v -> is_boolean v = false ->
  isValid (fst (AgentsSchema p (Some (Toml.Table entries)))) = false
  /\ In (mkIssue (invalid_type t_boolean (getParsedType (Some v))) (p ++ [id]) None)
        (snd (AgentsSchema p (Some (Toml.Table entries)))).
Proof.
  intros Hid Hv. pose proof (get_key _ _ Hid) as Hkey. split.
  - unfold AgentsSchema, Agents. rewrite record_valid.
    apply not_true_iff_false. intros Hall. rewrite forallb_forall in Hall.
    specialize (Hall id Hkey). apply andb_true_iff in Hall as [_ Hall].
    rewrite Hid, (boolean_issue _ v Hv) in Hall. discriminate.
  - unfold AgentsSchema. apply record_issues with (key := id); [assumption|].
    rewrite Hid, (boolean_issue _ v Hv). now left.
Qed.

(** ** The dependencies *)

Lemma dependencies_key_invalid doc deps key :
  Obj.get doc (js "dependencies") = Some (Toml.Table deps) ->
  In key (Obj.keys deps) ->
  alias_ok (trim key) = false ->
  isValid (fst (manifest_outcome doc)) = false
  /\ forall i,
       In i (alias_issues [js "dependencies"; key] (trim key)) ->
       In i (snd (manifest_outcome doc)).
Proof.
  intros Hdeps Hkey Hbad. split.
  - apply section_invalid. right. left.
    rewrite (dependencies_outcome_table _ Hdeps).
    unfold DependenciesSchema, Dependencies.
    rewrite record_valid. apply not_true_iff_false. intros Hall.
    rewrite forallb_forall in Hall. specialize (Hall key Hkey).
    apply andb_true_iff in Hall as [Hall _]. simpl app in Hall.
    rewrite Alias_valid in Hall. congruence.
  - intros i Hi. apply manifest_issues. right. left.
    rewrite (dependencies_outcome_table _ Hdeps). unfold DependenciesSchema.
    apply record_key_issues with (key := key); [assumption|].
    simpl app. now rewrite Alias_string.
Qed.

Lemma broken_rules_issues p a m :
  In m (broken_rules a) ->
  exists code, In (mkIssue code p (Some m)) (alias_issues p a).
Proof.
  unfold broken_rules, alias_issues. rewrite !in_app_iff.
  intros [H|[H|[H|[H|H]]]].
  - destruct (truthy a); [destruct H|]. destruct H as [<-|[]].
    exists (too_small 1). rewrite !in_app_iff. left. now left.
  - destruct (includes_unit a 47); [|destruct H]. destruct H as [<-|[]].
    exists custom. rewrite !in_app_iff. right. left. now left.
  - destruct (includes_unit a 92); [|destruct H]. destruct H as [<-|[]].
    exists custom. rewrite !in_app_iff. right. right. left. now left.
  - destruct (includes_unit a 46); [|destruct H]. destruct H as [<-|[]].
    exists custom. rewrite !in_app_iff. right. right. right. left. now left.
  - destruct (includes_unit a 58); [|destruct H]. destruct H as [<-|[]].
    exists custom. rewrite !in_app_iff. right. right. right. right. now left.
Qed.

Lemma broken_rules_nil a : broken_rules a = [] <-> alias_ok a = true.
Proof.
  unfold broken_rules, alias_ok.
  destruct (truthy a), (includes_unit a 47), (includes_unit a 92),
    (includes_unit a 46), (includes_unit a 58); simpl; split;
    try discriminate; reflexivity.
Qed.

Lemma includes_unit_true_iff s c : includes_unit s c = true <-> In c s.
Proof.
  unfold includes_unit. rewrite existsb_exists. split.
  - intros (x & Hin & E). apply N.eqb_eq in E. now subst.
  - intros H. exists c. split; [assumption|apply N.eqb_refl].
Qed.

Lemma alias_ok_spec a :
  alias_ok a = true <->
  a <> [] /\ forall c, In c [47; 92; 46; 58]%N -> ~ In c a.
Proof.
  unfold alias_ok. rewrite !andb_true_iff, !negb_true_iff, truthy_true_iff.
  split.
  - intros [[[[Hne H1] H2] H3] H4]. split; [assumption|].
    intros c [<-|[<-|[<-|[<-|[]]]]] Hin; apply includes_unit_true_iff in Hin;
      congruence.
  - intros [Hne H]. repeat split; try assumption; apply not_true_iff_false;
      intros C; apply includes_unit_true_iff in C; (eapply H; [|exact C]);
      simpl; tauto.
Qed.

(** A value that is neither a string nor a table fits no form. *)
Lemma DependencyDeclaration_other p v :
  (forall s, v <> Toml.String s) -> (forall t, v <> Toml.Table t) ->
  DependencyDeclaration p (Some v) = (INVALID, [mkIssue invalid_union p None]).
Proof.
  intros Hs Ht. unfold DependencyDeclaration, union.
  assert (forall t, Some v <> Some (Toml.Table t)) as Ht' by (intros t [= E]; now apply (Ht t)).
  rewrite union_scan_skip.
  2:{ apply retag_INVALID. destruct v; try reflexivity. now destruct (Hs s). }
  rewrite union_scan_skip.
  2:{ apply retag_INVALID, refine_INVALID. now apply object_strict_not_table. }
  rewrite union_scan_skip.
  2:{ apply retag_INVALID, refine_INVALID. now apply object_strict_not_table. }
  rewrite union_scan_skip.
  2:{ apply retag_INVALID. now apply object_strict_not_table. }
  rewrite union_scan_skip.
  2:{ apply retag_INVALID. now apply object_strict_not_table. }
  reflexivity.
Qed.



End IssueFacts.
Import IssueFacts.

(* ================================================================== *)
(** * The local form, the plugin form and the choice of the union *)
(* ================================================================== *)

Module ChoiceFacts.

Import Zod Schema Parse Spec More.
Local Open Scope zod_scope.

Lemma pair_eq {A B} (x : A * B) a b : fst x = a -> snd x = b -> x = (a, b).
Proof. destruct x. simpl. now intros -> ->. Qed.

(** Without a string under [git] the git form aborts. *)
Lemma GitDependency_aborts p t :
  is_string t (js "git") = false ->
  fst (GitDependency p (Some (Toml.Table t))) = INVALID.
Proof.
  intros H. unfold GitDependency. apply refine_INVALID, object_strict_INVALID.
  do 3 apply ap_INVALID_l. apply ap_INVALID_r.
  unfold field, is_string in *.
  destruct (Obj.get t (js "git")) as [[| | | | |]|]; try reflexivity; discriminate.
Qed.

(** Without a string under [path] the local form aborts. *)
Lemma LocalDependency_aborts p t :
  is_string t (js "path") = false ->
  fst (LocalDependency p (Some (Toml.Table t))) = INVALID.
Proof.
  intros H. unfold LocalDependency. apply object_strict_INVALID.
  apply ap_INVALID_r.
  unfold field, is_string in *.
  destruct (Obj.get t (js "path")) as [[| | | | |]|]; try reflexivity; discriminate.
Qed.

(** Without the literal under [type] the plugin form aborts. *)
Lemma ClaudePluginDependency_aborts p t :
  Obj.get t (js "type") <> Some (Toml.String CLAUDE_PLUGIN) ->
  fst (ClaudePluginDependency p (Some (Toml.Table t))) = INVALID.
Proof.
  intros H. unfold ClaudePluginDependency. apply object_strict_INVALID.
  apply ap_INVALID_r. unfold field, literal.
  destruct (strictly_equal _ _) eqn:E; [|reflexivity].
  unfold strictly_equal in E.
  destruct (Obj.get t (js "type")) as [[s| | | | |]|]; try discriminate.
  apply jeqb_true_iff in E. now subst.
Qed.


Lemma absent_not_string (t : Toml.table) k : Obj.has t k = false -> is_string t k = false.
Proof. unfold Obj.has, is_string. now destruct (Obj.get t k). Qed.



(** The union on a table without [gh] and without [git]. *)
Lemma DependencyDeclaration_neither p t :
  Obj.has t (js "gh") = false -> Obj.has t (js "git") = false ->
  DependencyDeclaration p (Some (Toml.Table t))
  = union_scan [retag DeclObject LocalDependency;
                retag DeclObject ClaudePluginDependency] p (Some (Toml.Table t)) None.
Proof.
  intros Hgh Hgit. unfold DependencyDeclaration, union.
  rewrite union_scan_skip by reflexivity.
  rewrite union_scan_skip
    by (apply retag_INVALID, GithubDependency_aborts; now apply absent_not_string).
  rewrite union_scan_skip
    by (apply retag_INVALID, GitDependency_aborts; now apply absent_not_string).
  reflexivity.
Qed.



(** A table that declares no form fits none. *)
Lemma DependencyDeclaration_formless p t :
  Obj.has t (js "gh") = false -> Obj.has t (js "git") = false ->
  Obj.has t (js "path") = false ->
  Obj.get t (js "type") <> Some (Toml.String CLAUDE_PLUGIN) ->
  DependencyDeclaration p (Some (Toml.Table t)) = (INVALID, [mkIssue invalid_union p None]).
Proof.
  intros Hgh Hgit Hpath Htype.
  rewrite DependencyDeclaration_neither by assumption.
  rewrite union_scan_skip
    by (apply retag_INVALID, LocalDependency_aborts; now apply absent_not_string).
  rewrite union_scan_skip
    by (apply retag_INVALID; now apply ClaudePluginDependency_aborts).
  reflexivity.
Qed.

(** ** At most one option of the union is valid *)

Lemma exclusive_options p data :
  List.length (filter (fun option : ZodType Decl => isValid (fst (option p data)))
                      declaration_options) <= 1.
Proof.
  unfold declaration_options. cbn [filter]. rewrite !retag_valid.
  destruct (isValid (fst (RegistryDependency p data))) eqn:Er.
  { apply isValid_OK in Er as [s Er]. apply RegistryDependency_OK in Er as [-> _].
    simpl. lia. }
  destruct (isValid (fst (GithubDependency p data))) eqn:Eg.
  { apply isValid_OK in Eg as [o Eg].
    apply GithubDependency_OK in Eg as (t & -> & Hin & _ & _ & _ & Hhas).
    rewrite GitDependency_outside, LocalDependency_outside,
      ClaudePluginDependency_outside; [simpl; lia| | |].
    - destruct (key_outside ClaudePlugin_keys t) eqn:E; [reflexivity|].
      pose proof (key_inside _ _ _ E Hhas) as C. discriminate.
    - destruct (key_outside Local_keys t) eqn:E; [reflexivity|].
      pose proof (key_inside _ _ _ E Hhas) as C. discriminate.
    - destruct (key_outside Git_keys t) eqn:E; [reflexivity|].
      pose proof (key_inside _ _ _ E Hhas) as C. discriminate. }
  destruct (isValid (fst (GitDependency p data))) eqn:Eu.
  { apply isValid_OK in Eu as [o Eu].
    apply GitDependency_OK in Eu as (t & -> & Hin & _ & _ & _ & _ & Hhas).
    rewrite LocalDependency_outside, ClaudePluginDependency_outside; [simpl; lia| |].
    - destruct (key_outside ClaudePlugin_keys t) eqn:E; [reflexivity|].
      pose proof (key_inside _ _ _ E Hhas) as C. discriminate.
    - destruct (key_outside Local_keys t) eqn:E; [reflexivity|].
      pose proof (key_inside _ _ _ E Hhas) as C. discriminate. }
  destruct (isValid (fst (LocalDependency p data))) eqn:El.
  { apply isValid_OK in El as [o El].
    apply LocalDependency_OK in El as (t & -> & Hin & _ & _ & _ & _ & _ & Hhas).
    rewrite ClaudePluginDependency_outside; [simpl; lia|].
    destruct (key_outside ClaudePlugin_keys t) eqn:E; [reflexivity|].
    pose proof (key_inside _ _ _ E Hhas) as C. discriminate. }
  destruct (isValid (fst (ClaudePluginDependency p data))); simpl; lia.
Qed.

Lemma union_scan_valid_option {A} (options : list (ZodType A)) p data :
  forall firstDirty,
    existsb (fun o => isValid (fst (o p data))) options = true ->
    isValid (fst (union_scan options p data firstDirty)) = true.
Proof.
  induction options as [|o options IH]; intros firstDirty; simpl; [discriminate|].
  destruct (o p data) as [[a|a|] issues]; simpl; [reflexivity| |]; apply IH.
Qed.

Lemma union_valid {A} (options : list (ZodType A)) p data :
  isValid (fst (union options p data))
  = existsb (fun o => isValid (fst (o p data))) options.
Proof.
  destruct (existsb (fun o => isValid (fst (o p data))) options) eqn:E.
  - now apply union_scan_valid_option.
  - apply not_true_iff_false. intros H. apply isValid_OK in H as [v H].
    apply union_OK in H as (o & Hin & Ho).
    assert (existsb (fun o => isValid (fst (o p data))) options = true) as C.
    { apply existsb_exists. exists o. split; [assumption|]. now rewrite Ho. }
    congruence.
Qed.

(** A valid union carries no issue. *)
Lemma union_scan_clean {A} (options : list (ZodType A)) p data v :
  forall firstDirty,
    match firstDirty with
    | Some d => isValid (fst d) = false
    | None => True
    end ->
    fst (union_scan options p data firstDirty) = OK v ->
    union_scan options p data firstDirty = (OK v, []).
Proof.
  induction options as [|o options IH]; intros firstDirty Hfd; simpl.
  - destruct firstDirty as [d|]; [|discriminate].
    intros H. rewrite H in Hfd. discriminate.
  - destruct (o p data) as [[a|a|] issues].
    + simpl. now intros [= <-].
    + apply IH. now destruct firstDirty.
    + now apply IH.
Qed.

(** When at most one option is valid, the union returns the value of the
    option that is. *)
Lemma union_unique_valid {A} (options : list (ZodType A)) p data option v :
  List.length (filter (fun o : ZodType A => isValid (fst (o p data))) options) <= 1 ->
  In option options -> fst (option p data) = OK v ->
  union options p data = (OK v, []).
Proof.
  intros Hone Hin Hv.
  assert (isValid (fst (union options p data)) = true) as Hvalid.
  { rewrite union_valid. apply existsb_exists. exists option.
    split; [assumption|]. now rewrite Hv. }
  apply isValid_OK in Hvalid as [v' Hv'].
  destruct (union_OK _ _ _ Hv') as (option' & Hin' & Ho').
  assert (In option (filter (fun o : ZodType A => isValid (fst (o p data))) options))
    as F by (apply filter_In; split; [assumption|now rewrite Hv]).
  assert (In option' (filter (fun o : ZodType A => isValid (fst (o p data))) options))
    as F' by (apply filter_In; split; [assumption|now rewrite Ho']).
  destruct (filter _ options) as [|x [|y l]]; simpl in Hone; [destruct F| |lia].
  destruct F as [<-|[]]. destruct F' as [<-|[]].
  rewrite Hv in Ho'. injection Ho' as <-.
  apply (union_scan_clean options p data None I Hv').
Qed.

End ChoiceFacts.
Import ChoiceFacts.

(* ================================================================== *)
(** * The package, the exports and the default of the dependencies *)
(* ================================================================== *)

Module SectionMoreFacts.

Import Zod Schema Parse Spec More.
Local Open Scope zod_scope.

Lemma optional_OK_some {A} (inner : ZodType A) p d v :
  fst (optional inner p (Some d)) = OK v ->
  exists a, fst (inner p (Some d)) = OK a /\ v = Some a.
Proof.
  unfold optional. destruct (inner p (Some d)) as [[a|a|] issues]; try discriminate.
  intros [= <-]. now exists a.
Qed.

(** ** The package *)

Lemma PackageSchema_fields p t pk :
  fst (PackageSchema p (Some (Toml.Table t))) = OK pk ->
  exists n ver,
    Obj.get t (js "name") = Some (Toml.String n)
    /\ Obj.get t (js "version") = Some (Toml.String ver)
    /\ pk = package_of t n ver
    /\ clean (name pk) /\ clean (version pk)
    /\ clean_opt (description pk) /\ clean_opt (license pk) /\ clean_opt (org pk)
    /\ key_outside Package_keys t = false.
Proof.
  intros H.
  pose proof (PackageSchema_valid p t) as Hv. rewrite H in Hv. simpl isValid in Hv.
  symmetry in Hv. apply andb_true_iff in Hv as [Hkeys _].
  apply negb_true_iff in Hkeys.
  unfold PackageSchema in H. apply object_strict_OK in H. ap_inversion H.
  pose proof (field_optional_NonEmptyString_clean _ _ _ Ha0) as Corg.
  pose proof (field_optional_NonEmptyString_clean _ _ _ Ha2) as Clic.
  pose proof (field_optional_NonEmptyString_clean _ _ _ Ha3) as Cdesc.
  apply field_optional_NonEmptyString_trimmed in Ha0, Ha2, Ha3. subst.
  unfold field in Ha, Ha1.
  apply NonEmptyString_clean in Ha as [Cver (ver & Ever & ->)].
  apply NonEmptyString_clean in Ha1 as [Cname (n & En & ->)].
  exists n, ver. simpl. unfold package_of. tauto.
Qed.

Lemma package_carried doc m :
  fst (manifest_outcome doc) = OK m ->
  match Obj.get doc (js "package") with
  | None => package m = None
  | Some v =>
      exists t pk,
        v = Toml.Table t /\ package m = Some pk
        /\ fst (PackageSchema [js "package"] (Some (Toml.Table t))) = OK pk
  end.
Proof.
  intros H. apply manifest_OK in H as (_ & _ & _ & H).
  unfold package_outcome, field in H.
  destruct (Obj.get doc (js "package")) as [v|].
  - apply optional_OK_some in H as (pk & Hpk & ->). simpl app in Hpk.
    destruct (object_strict_OK_table _ _ _ _ Hpk) as (t & [= ->]).
    now exists t, pk.
  - simpl in H. now injection H as <-.
Qed.

(** ** The exports *)

Lemma skills_union p v :
  union [retag SkillsDir NonEmptyString;
         retag (fun _ => SkillsFalse) (literal (LitBoolean false))] p (Some v)
  = match v with
    | Toml.String s =>
        if has_text s then (OK (SkillsDir (trim s)), [])
        else (DIRTY (SkillsDir []),
              [mkIssue (too_small 1) p (Some (js "String cannot be empty"))])
    | Toml.Boolean false => (OK SkillsFalse, [])
    | _ => (INVALID, [mkIssue invalid_union p None])
    end.
Proof.
  unfold union. destruct v as [s|[|]|x|d|l|t]; try reflexivity.
  cbn [union_scan]. unfold retag at 1. rewrite NonEmptyString_text.
  now destruct (has_text s).
Qed.

Lemma skills_union_valid p v :
  isValid (fst (union [retag SkillsDir NonEmptyString;
                       retag (fun _ => SkillsFalse) (literal (LitBoolean false))]
                      p (Some v)))
  = match skills_of v with Some _ => true | None => false end.
Proof.
  rewrite skills_union. unfold skills_of.
  destruct v as [s|[|]|x|d|l|t]; try reflexivity. now destruct (has_text s).
Qed.

Lemma skills_union_OK p v sk :
  fst (union [retag SkillsDir NonEmptyString;
              retag (fun _ => SkillsFalse) (literal (LitBoolean false))]
             p (Some v)) = OK sk ->
  skills_of v = Some sk.
Proof.
  rewrite skills_union. unfold skills_of.
  destruct v as [s|[|]|x|d|l|t]; try discriminate.
  - destruct (has_text s); [|discriminate]. now intros [= <-].
  - now intros [= <-].
Qed.

Lemma exports_skills doc e a v ex :
  Obj.get doc (js "exports") = Some (Toml.Table e) ->
  Obj.get e (js "auto_discover") = Some (Toml.Table a) ->
  Obj.get a (js "skills") = Some v ->
  fst (exports_outcome doc) = OK ex ->
  exists sk,
    skills_of v = Some sk
    /\ ex = Some (mkExports (Some (mkAutoDiscover (Some sk)))).
Proof.
  intros He Ha Hv H. unfold exports_outcome, field in H. rewrite He in H.
  apply optional_OK_some in H as (x & H & ->).
  unfold ExportsSchema in H. apply object_strict_OK in H. ap_inversion H.
  unfold field in Ha0. rewrite Ha in Ha0.
  apply optional_OK_some in Ha0 as (ad & H & ->).
  unfold AutoDiscoverSchema in H. apply object_strict_OK in H. ap_inversion H.
  unfold field in Ha0. rewrite Hv in Ha0.
  apply optional_OK_some in Ha0 as (sk & H & ->).
  apply skills_union_OK in H. now exists sk.
Qed.

Lemma exports_skills_invalid doc e a v :
  Obj.get doc (js "exports") = Some (Toml.Table e) ->
  Obj.get e (js "auto_discover") = Some (Toml.Table a) ->
  Obj.get a (js "skills") = Some v ->
  skills_of v = None ->
  isValid (fst (exports_outcome doc)) = false
  /\ forall i,
       In i (snd (union [retag SkillsDir NonEmptyString;
                         retag (fun _ => SkillsFalse) (literal (LitBoolean false))]
                        [js "exports"; js "auto_discover"; js "skills"] (Some v))) ->
       In i (snd (exports_outcome doc)).
Proof.
  intros He Ha Hv Hno. unfold exports_outcome, field. rewrite He. split.
  - rewrite optional_valid. unfold ExportsSchema.
    rewrite object_strict_valid, ap_valid. unfold field. rewrite Ha, optional_valid.
    unfold AutoDiscoverSchema. rewrite object_strict_valid, ap_valid.
    unfold field. rewrite Hv, optional_valid. simpl app.
    rewrite skills_union_valid, Hno. now rewrite !andb_false_r.
  - intros i Hi. rewrite optional_issues. unfold ExportsSchema.
    apply object_strict_issues. rewrite ap_issues. apply in_or_app. right.
    unfold field. rewrite Ha, optional_issues. unfold AutoDiscoverSchema.
    apply object_strict_issues. rewrite ap_issues. apply in_or_app. right.
    unfold field. rewrite Hv, optional_issues. exact Hi.
Qed.

(** ** The default of the dependencies *)

Lemma manifest_outcome_empty_dependencies doc :
  Obj.get doc (js "dependencies") = None ->
  manifest_outcome ((js "dependencies", Toml.Table []) :: doc) = manifest_outcome doc.
Proof.
  intros H. unfold manifest_outcome, ManifestSchema, object_strict, field.
  rewrite !get_cons, H.
  change (jeqb (js "dependencies") (js "dependencies")) with true.
  change (jeqb (js "agents") (js "dependencies")) with false.
  change (jeqb (js "exports") (js "dependencies")) with false.
  change (jeqb (js "package") (js "dependencies")) with false.
  cbv iota. unfold optional_default at 2 4.
  change (Obj.keys ((js "dependencies", Toml.Table []) :: doc))
    with (js "dependencies" :: Obj.keys doc).
  cbn [filter].
  change (negb (includes Manifest_keys (js "dependencies"))) with false.
  reflexivity.
Qed.

Lemma empty_dependencies doc m :
  Obj.get doc (js "dependencies") = None ->
  fst (manifest_outcome doc) = OK m -> dependencies m = [].
Proof.
  intros H Hm. apply manifest_OK in Hm as (_ & Hm & _).
  unfold dependencies_outcome, field, optional_default in Hm. rewrite H in Hm.
  simpl in Hm. now injection Hm as <-.
Qed.

End SectionMoreFacts.
Import SectionMoreFacts.

(* ================================================================== *)
(** * Properties of the parser *)
(* ================================================================== *)

Import Schema Parse Spec.

Unset Implicit Arguments.

(** C1 (defect).  The url of a git dependency is the declared string as it
    stands: on the SSH shorthand [git@github.com:org/repo.git] the parser
    returns that very string, and not [https://github.com/org/repo]. *)
Theorem C1_git_url_is_not_normalized :
  parse Fixtures.parseToml Fixtures.en Fixtures.ssh_text
  = Return
      (ok (mkValidated None []
             [(js "ssh-dep",
               git_ (js "git@github.com:org/repo.git")
                    (Some (mkRef ref_tag (js "v1"))) None)]
             None))
  /\ js "git@github.com:org/repo.git" <> js "https://github.com/org/repo".
Proof. split; [vm_compute; reflexivity | discriminate]. Qed.

(** C2.  Ref exclusivity.  A dependency table with two or more of [tag],
    [branch], [rev] makes the parse fail with [invalid_manifest]; when the
    table has the types of a GitHub or git declaration and two of the refs
    hold text, the message holds the line
    [dependencies.<alias>: Only one of 'tag', 'branch', or 'rev' can be
    specified], which names the three fields; a well-formed GitHub or git
    declaration with no ref or one ref passes the union and is resolved. *)
Theorem C2_ref_exclusivity :
  forall parseToml errorMap contents doc deps alias t,
    parseToml contents = Toml.Parsed doc ->
    Obj.get doc (js "dependencies") = Some (Toml.Table deps) ->
    Obj.get deps alias = Some (Toml.Table t) ->
    (2 <= refs_present t ->
     exists msg, fails_with (parse parseToml errorMap contents) invalid_manifest msg)
    /\ (ref_declaration t = true -> 2 <= refs_nonblank t ->
        exists msg,
          fails_with (parse parseToml errorMap contents) invalid_manifest msg
          /\ mentions msg (dependency_line alias one_ref_message)
          /\ mentions msg (js "'tag'") /\ mentions msg (js "'branch'")
          /\ mentions msg (js "'rev'"))
    /\ (github_fields_ok t = true \/ git_fields_ok t = true ->
        refs_present t <= 1 ->
        exists o value,
          DependencyDeclaration [js "dependencies"; alias] (Some (Toml.Table t))
          = (Zod.OK (DeclObject o), [])
          /\ parseDependency alias (DeclObject o) = ok value).
Proof.
  intros parseToml errorMap contents doc deps alias t Hdoc Hdeps Halias.
  split; [|split].
  - intros Hrefs.
    destruct (@dependency_invalid doc deps alias (Toml.Table t) Hdeps Halias
                (DependencyDeclaration_two_refs _ t Hrefs)) as [Hbad _].
    destruct (parse_rejects parseToml errorMap contents Hdoc Hbad) as (msg & Hf & _).
    now exists msg.
  - intros Htyped Hrefs.
    assert (2 <= refs_present t) as Hpresent
      by (pose proof (refs_nonblank_present t); lia).
    destruct (@dependency_invalid doc deps alias (Toml.Table t) Hdeps Halias
                (DependencyDeclaration_two_refs _ t Hpresent)) as [Hbad Hissues].
    destruct (parse_rejects parseToml errorMap contents Hdoc Hbad) as (msg & Hf & Hm).
    exists msg. split; [assumption|].
    assert (mentions msg (dependency_line alias one_ref_message)) as Hline.
    { rewrite <- (issue_line_dependency errorMap Zod.custom).
      apply Hm, Hissues. now apply DependencyDeclaration_refines. }
    split; [assumption|].
    repeat split; apply (mentions_trans Hline); unfold dependency_line;
      do 3 apply mentions_app_r.
    + now exists (js "Only one of "), (js ", 'branch', or 'rev' can be specified").
    + now exists (js "Only one of 'tag', "), (js ", or 'rev' can be specified").
    + now exists (js "Only one of 'tag', 'branch', or "), (js " can be specified").
  - intros Hok Hrefs. now apply ref_declaration_accepted.
Qed.

Lemma C2_witness :
  (exists msg,
      fails_with (parse Fixtures.parseToml Fixtures.en Fixtures.two_refs_text)
                 invalid_manifest msg
      /\ mentions msg (dependency_line (js "bad") one_ref_message))
  /\ (exists o value,
         DependencyDeclaration [js "dependencies"; js "sensei"]
           (Some (Toml.Table Fixtures.sensei))
         = (Zod.OK (DeclObject o), [])
         /\ parseDependency (js "sensei") (DeclObject o) = ok value).
Proof.
  split.
  - destruct (C2_ref_exclusivity Fixtures.parseToml Fixtures.en
                Fixtures.two_refs_text Fixtures.two_refs_doc Fixtures.two_refs_deps
                (js "bad") Fixtures.two_refs eq_refl eq_refl eq_refl)
      as (_ & H & _).
    destruct H as (msg & Hf & Hm & _); [reflexivity | vm_compute; lia |].
    now exists msg.
  - destruct (C2_ref_exclusivity Fixtures.parseToml Fixtures.en
                Fixtures.github_text Fixtures.github_doc Fixtures.github_deps
                (js "sensei") Fixtures.sensei eq_refl eq_refl eq_refl)
      as (_ & _ & H).
    apply H; [left; reflexivity | vm_compute; lia].
Defined.

(** C3 (amended).  The registry shorthand.  Take a string made of an
    optional [@org/], a name, [@] and a version, with org and name
    non-empty runs of letters, digits, [_] and [-], and a non-empty version
    without line terminator.  It passes the union as it is, without an
    issue, and is resolved to the registry dependency with that name, that
    version and that org (absent without the prefix).  In a document that
    is valid but for the value of the entry that holds the string, where no
    other key of the dependencies is the key of the entry once trimmed and
    the trimmed key is not [__proto__], the parse succeeds and its result
    holds that dependency under the trimmed key.  For instance
    [superpowers@1.0.0]. *)
Theorem C3_registry_shorthand :
  forall s org name version,
    shorthand s org name version -> single_line version ->
    (forall p,
        DependencyDeclaration p (Some (Toml.String s))
        = (Zod.OK (DeclString s), []))
    /\ (forall alias,
           parseDependency alias (DeclString s) = ok (registry name org version))
    /\ (forall parseToml errorMap contents doc deps alias,
           parseToml contents = Toml.Parsed doc ->
           valid_but_for doc deps alias ->
           Obj.get deps alias = Some (Toml.String s) ->
           unique_alias deps alias -> trim alias <> Zod.PROTO ->
           exists vm,
             parse parseToml errorMap contents = Return (ok vm)
             /\ Obj.get (v_dependencies vm) (trim alias)
                = Some (registry name org version))
    /\ parse Fixtures.parseToml Fixtures.en Fixtures.registry_text
       = Return
           (ok (mkValidated None []
                  [(js "superpowers",
                    registry (js "superpowers") None (js "1.0.0"))]
                  None)).
Proof.
  intros s org name version Hs Hl.
  assert (forall p,
             DependencyDeclaration p (Some (Toml.String s))
             = (Zod.OK (DeclString s), [])) as Hunion.
  { intros p. apply DependencyDeclaration_shorthand.
    now apply RegistryPattern_accepts with (org := org) (name := name)
                                           (version := version). }
  assert (forall alias,
             parseDependency alias (DeclString s)
             = ok (registry name org version)) as Hresolved.
  { intros alias. simpl. now rewrite (parseRegistryString_shorthand Hs Hl). }
  split; [assumption|]. split; [assumption|]. split.
  - intros parseToml errorMap contents doc deps alias Hdoc Hvalid Hraw Huniq Hp.
    destruct (@valid_but_for_resolved parseToml errorMap contents doc deps alias
                (Toml.String s) (DeclString s) Hdoc Hvalid Hraw)
      as (vm & value & Hok & Hvalue & Hget); try assumption.
    + intros p. now rewrite Hunion.
    + exists vm. split; [assumption|].
      rewrite Hresolved in Hvalue. now injection Hvalue as <-.
  - vm_compute. reflexivity.
Qed.

Lemma C3_witness :
  parseDependency (js "superpowers") (DeclString (js "superpowers@1.0.0"))
  = ok (registry (js "superpowers") None (js "1.0.0"))
  /\ exists vm,
       parse Fixtures.parseToml Fixtures.en Fixtures.registry_text = Return (ok vm)
       /\ Obj.get (v_dependencies vm) (trim (js "superpowers"))
          = Some (registry (js "superpowers") None (js "1.0.0")).
Proof.
  assert (shorthand (js "superpowers@1.0.0") None (js "superpowers") (js "1.0.0"))
    as Hs by (repeat split; try discriminate; reflexivity).
  destruct (C3_registry_shorthand (js "superpowers@1.0.0") None (js "superpowers")
              (js "1.0.0") Hs eq_refl) as (_ & Hresolved & Hparse & _).
  split; [apply Hresolved|].
  apply (Hparse Fixtures.parseToml Fixtures.en Fixtures.registry_text
           Fixtures.registry_doc Fixtures.registry_deps (js "superpowers")
           eq_refl).
  - split; [reflexivity|]. split; [reflexivity|]. split; [reflexivity|].
    split; [reflexivity|]. split; [reflexivity|]. split.
    + intros key [<-|[]]. reflexivity.
    + intros key [<-|[]] Hne. now destruct Hne.
  - reflexivity.
  - intros k [<-|[]] _. reflexivity.
  - intros E. vm_compute in E. discriminate.
Defined.

(** C3, as it was stated.  Four entries whose value is a shorthand, none
    of which gives what was claimed.  (1) Without the restriction on the
    version: [1.0], line feed, [2.0] is a non-empty remainder after the
    first [@], yet the document is rejected.  (2) Without the uniqueness of
    the trimmed key: [" a"] and [a] are two entries, the parse succeeds and
    its result holds the second one only, so that [x@1] is produced
    nowhere.  (3) With the key [__proto__]: the parse succeeds and its
    result holds no dependency.  (4) With a key that is no alias: the
    document is rejected. *)
Lemma C3_counterexample :
  (shorthand Fixtures.multiline_version None (js "pkg")
             (js "1.0" ++ Fixtures.LF ++ js "2.0")
   /\ fails_with
        (parse Fixtures.parseToml Fixtures.en Fixtures.multiline_version_text)
        invalid_manifest
        (js "Invalid manifest: dependencies.dep: Must be in format '[@org/]name@version'"))
  /\ (shorthand (js "x@1") None (js "x") (js "1")
      /\ single_line (js "1")
      /\ Obj.get Samples.same_alias_deps (js " a") = Some (Toml.String (js "x@1"))
      /\ parse Samples.parseToml Fixtures.en Samples.same_alias_text
         = Return
             (ok (mkValidated None []
                    [(js "a", registry (js "y") None (js "2"))] None)))
  /\ (Obj.get Samples.proto_alias_deps (js "__proto__")
      = Some (Toml.String (js "x@1"))
      /\ parse Samples.parseToml Fixtures.en Samples.proto_alias_text
         = Return (ok (mkValidated None [] [] None)))
  /\ (Obj.get Samples.dotted_alias_deps (js "a.b") = Some (Toml.String (js "x@1"))
      /\ fails_with
           (parse Samples.parseToml Fixtures.en Samples.dotted_alias_text)
           invalid_manifest
           (js "Invalid manifest: dependencies.a.b: Alias cannot contain '.'")).
Proof.
  split; [|split; [|split]].
  - split.
    + repeat split; try discriminate; reflexivity.
    + eexists. vm_compute. reflexivity.
  - split; [repeat split; try discriminate; reflexivity|].
    split; [reflexivity|]. split; [reflexivity|]. vm_compute. reflexivity.
  - split; [reflexivity|]. vm_compute. reflexivity.
  - split; [reflexivity|]. eexists. vm_compute. reflexivity.
Qed.

(** C4.  Closed schemas.  A document with a key that no schema declares, at
    the top level, in [package], in [exports], in [exports.auto_discover]
    or in a dependency table, is rejected with [invalid_manifest]. *)
Theorem C4_unknown_keys_rejected :
  forall parseToml errorMap contents doc,
    parseToml contents = Toml.Parsed doc ->
    unknown_key doc ->
    exists msg, fails_with (parse parseToml errorMap contents) invalid_manifest msg.
Proof.
  intros parseToml errorMap contents doc Hdoc Hkey.
  eexists. apply parse_invalid_manifest with (doc := doc); [assumption|].
  now apply unknown_key_invalid.
Qed.

Example unknown_key_beside_path :
  unknown_key
    [(js "dependencies",
      Toml.Table [(js "local",
                   Toml.Table [(js "path", Fixtures.str "../skills");
                               (js "tag", Fixtures.str "v1")])])].
Proof.
  apply unknown_in_dependency
    with (deps := [(js "local",
                    Toml.Table [(js "path", Fixtures.str "../skills");
                                (js "tag", Fixtures.str "v1")])])
         (alias := js "local")
         (t := [(js "path", Fixtures.str "../skills"); (js "tag", Fixtures.str "v1")]);
    reflexivity.
Qed.

Example unknown_key_in_auto_discover :
  unknown_key
    [(js "exports",
      Toml.Table [(js "auto_discover",
                   Toml.Table [(js "agents", Toml.Boolean true)])])].
Proof.
  apply unknown_in_auto_discover
    with (e := [(js "auto_discover", Toml.Table [(js "agents", Toml.Boolean true)])])
         (t := [(js "agents", Toml.Boolean true)]);
    reflexivity.
Qed.

Lemma C4_witness :
  exists msg,
    fails_with (parse Fixtures.parseToml Fixtures.en Fixtures.unknown_section_text)
               invalid_manifest msg.
Proof.
  apply (C4_unknown_keys_rejected Fixtures.parseToml Fixtures.en
           Fixtures.unknown_section_text Fixtures.unknown_section_doc eq_refl).
  apply unknown_top_level. reflexivity.
Defined.

(** C5.  Agent filtering.  When the parse succeeds, the agents of the result
    are the entries of the raw [agents] table whose key is one of
    [claude-code], [codex], [opencode], each once and with its boolean; no
    other key has an entry.  The keys play no part in validation: a table
    of booleans is a valid agents record whatever its keys. *)
Theorem C5_agents_filtered :
  forall parseToml errorMap contents doc vm,
    parseToml contents = Toml.Parsed doc ->
    parse parseToml errorMap contents = Return (ok vm) ->
    (forall id,
        Obj.get (v_agents vm) id
        = if KNOWN_AGENTS_has id then raw_agent doc id else None)
    /\ NoDup (Obj.keys (v_agents vm))
    /\ (forall id,
           KNOWN_AGENTS_has id = true
           <-> In id [js "claude-code"; js "codex"; js "opencode"])
    /\ (forall p entries,
           forallb (fun kv => match snd kv with
                              | Toml.Boolean _ => true
                              | _ => false
                              end) entries = true ->
           Zod.isValid (fst (AgentsSchema p (Some (Toml.Table entries)))) = true).
Proof.
  intros parseToml errorMap contents doc vm Hdoc Hok.
  assert (exists m deps,
             fst (manifest_outcome doc) = Zod.OK m
             /\ vm = mkValidated (package m) (process_agents (agents m)) deps
                                 (exports m)) as (m & deps & Hm & ->).
  { destruct (Zod.isValid (fst (manifest_outcome doc))) eqn:Hv.
    - apply isValid_OK in Hv as [m Hm].
      destruct (parse_valid_manifest parseToml errorMap contents Hdoc Hm)
        as (deps & _ & E).
      rewrite E in Hok. injection Hok as <-. now exists m, deps.
    - destruct (parse_invalid_manifest parseToml errorMap contents Hdoc Hv) as (c & E).
      rewrite E in Hok. discriminate. }
  simpl. split; [|split; [|split]].
  - intros id. now apply manifest_agents.
  - apply process_agents_NoDup.
  - intros id. unfold KNOWN_AGENTS_has. apply includes_true_iff.
  - intros p entries. apply AgentsSchema_accepts.
Qed.

Lemma C5_witness :
  Obj.get [(js "claude-code", true)] (js "future-agent") = None
  /\ Obj.get [(js "claude-code", true)] (js "claude-code") = Some true.
Proof.
  destruct (C5_agents_filtered Fixtures.parseToml Fixtures.en
              Fixtures.future_agent_text Fixtures.future_agent_doc
              (mkValidated None [(js "claude-code", true)] [] None)
              eq_refl eq_refl) as (H & _).
  split.
  - exact (H (js "future-agent")).
  - exact (H (js "claude-code")).
Defined.

(** C6 (amended).  A string entry of the dependencies that is not a registry
    shorthand makes the parse fail with [invalid_manifest]: the structural
    union turns it down before the declarations are resolved.  The message
    holds the line
    [dependencies.<alias>: Must be in format '[@org/]name@version']. *)
Theorem C6_malformed_shorthand_rejected :
  forall parseToml errorMap contents doc deps alias s,
    parseToml contents = Toml.Parsed doc ->
    Obj.get doc (js "dependencies") = Some (Toml.Table deps) ->
    Obj.get deps alias = Some (Toml.String s) ->
    ~ (exists org name version,
          shorthand s org name version /\ single_line version) ->
    exists msg,
      fails_with (parse parseToml errorMap contents) invalid_manifest msg
      /\ mentions msg
           (dependency_line alias (js "Must be in format '[@org/]name@version'")).
Proof.
  intros parseToml errorMap contents doc deps alias s Hdoc Hdeps Halias Hno.
  apply RegistryPattern_rejects in Hno.
  pose proof (DependencyDeclaration_not_shorthand [js "dependencies"; alias] s Hno)
    as E.
  destruct (@dependency_invalid doc deps alias (Toml.String s) Hdeps Halias)
    as [Hbad Hissues]; [now rewrite E|].
  destruct (parse_rejects parseToml errorMap contents Hdoc Hbad) as (msg & Hf & Hm).
  exists msg. split; [assumption|].
  rewrite <- (issue_line_dependency errorMap Zod.invalid_string).
  apply Hm, Hissues. rewrite E. now left.
Qed.

Lemma C6_witness :
  exists msg,
    fails_with (parse Fixtures.parseToml Fixtures.en Fixtures.not_shorthand_text)
               invalid_manifest msg
    /\ mentions msg
         (dependency_line (js "broken")
            (js "Must be in format '[@org/]name@version'")).
Proof.
  apply (C6_malformed_shorthand_rejected Fixtures.parseToml Fixtures.en
           Fixtures.not_shorthand_text Fixtures.not_shorthand_doc
           Fixtures.not_shorthand_deps (js "broken") (js "no-version-here")
           eq_refl eq_refl eq_refl).
  intros (org & name & version & Hs & Hl).
  pose proof (RegistryPattern_accepts Hs Hl) as E. vm_compute in E. discriminate.
Defined.

(** C6, with the kind [invalid_dependency]: on a string that is no
    shorthand the error is of kind [invalid_manifest] and of no other. *)
Lemma C6_counterexample :
  RegExp.test RegistryPattern (js "no-version-here") = false
  /\ fails_with
       (parse Fixtures.parseToml Fixtures.en Fixtures.not_shorthand_text)
       invalid_manifest
       (js "Invalid manifest: dependencies.broken: Must be in format '[@org/]name@version'")
  /\ ~ (exists msg,
           fails_with
             (parse Fixtures.parseToml Fixtures.en Fixtures.not_shorthand_text)
             invalid_dependency msg).
Proof.
  split; [vm_compute; reflexivity|]. split.
  - eexists. vm_compute. reflexivity.
  - intros (msg & c & H). vm_compute in H. discriminate.
Qed.

(** C7 (defect).  The [agents] table is not required.  A manifest without
    the table is parsed successfully, with no agents, where the
    documentation of the format asks for a failure of kind
    [invalid_manifest]; it is parsed exactly as the same manifest with an
    empty [agents] table, which is accepted. *)
Theorem C7_agents_not_required :
  Obj.get Fixtures.no_agents_doc (js "agents") = None
  /\ parse Fixtures.parseToml Fixtures.en Fixtures.no_agents_text
     = Return
         (ok (mkValidated
                (Some (mkPackage None None (js "test") None (js "1.0.0")))
                [] [] None))
  /\ parse Fixtures.parseToml Fixtures.en Fixtures.empty_agents_text
     = parse Fixtures.parseToml Fixtures.en Fixtures.no_agents_text
  /\ ~ (exists msg,
           fails_with (parse Fixtures.parseToml Fixtures.en Fixtures.no_agents_text)
                      invalid_manifest msg).
Proof.
  split; [reflexivity|]. split; [vm_compute; reflexivity|].
  split; [vm_compute; reflexivity|].
  intros (msg & c & H). vm_compute in H. discriminate.
Qed.

(** C8.  Ref and path of a GitHub or git dependency.  For every declaration
    the ref that the parser extracts is the first of [tag], [branch], [rev]
    that is present and not empty, with its kind, and no ref when there is
    none.  A table with the key [gh] (with the key [git]) that passed the
    union is resolved to the GitHub (git) variant with that ref; its ref
    fields and its path are those of the table as validated, and the path
    goes into the result as it is.  A successful parse holds the resolved
    dependency under the trimmed alias of the entry.  For instance
    [gh = "sensei-marketplace/sensei"], [tag = "v2.0.0"]. *)
Theorem C8_ref_and_path :
  forall alias t o issues,
    DependencyDeclaration [js "dependencies"; alias] (Some (Toml.Table t))
    = (Zod.OK (DeclObject o), issues) ->
    (forall d, extractGitRef d = first_ref d)
    /\ (Obj.has t (js "gh") = true ->
        exists g,
          Obj.get t (js "gh") = Some (Toml.String g)
          /\ forall a,
               parseDependency a (DeclObject o)
               = ok (github g (first_ref o) (path o)))
    /\ (Obj.has t (js "git") = true ->
        exists u,
          Obj.get t (js "git") = Some (Toml.String u)
          /\ forall a,
               parseDependency a (DeclObject o)
               = ok (git_ (trim u) (first_ref o) (path o)))
    /\ (Obj.has t (js "gh") = true \/ Obj.has t (js "git") = true ->
        tag o = trimmed t (js "tag") /\ branch o = trimmed t (js "branch")
        /\ rev o = trimmed t (js "rev") /\ path o = trimmed t (js "path"))
    /\ (forall parseToml errorMap contents doc deps vm,
           parseToml contents = Toml.Parsed doc ->
           Obj.get doc (js "dependencies") = Some (Toml.Table deps) ->
           Obj.get deps alias = Some (Toml.Table t) ->
           unique_alias deps alias -> trim alias <> Zod.PROTO ->
           parse parseToml errorMap contents = Return (ok vm) ->
           exists value,
             parseDependency (trim alias) (DeclObject o) = ok value
             /\ Obj.get (v_dependencies vm) (trim alias) = Some value)
    /\ parse Fixtures.parseToml Fixtures.en Fixtures.github_text
       = Return
           (ok (mkValidated None []
                  [(js "sensei",
                    github (js "sensei-marketplace/sensei")
                           (Some (mkRef ref_tag (js "v2.0.0"))) None)]
                  None)).
Proof.
  intros alias t o issues Hunion.
  pose proof (f_equal fst Hunion) as H. simpl in H.
  split; [exact extractGitRef_first_ref|].
  split; [|split; [|split; [|split]]].
  - intros Hhas.
    destruct (@ref_declaration_resolved [js "dependencies"; alias] t o alias H)
      as (Hgh & _ & Hfields).
    destruct (Hgh Hhas) as (g & Hg & _). exists g. split; [assumption|].
    intros a.
    destruct (@ref_declaration_resolved [js "dependencies"; alias] t o a H)
      as (Hgh' & _ & _).
    destruct (Hgh' Hhas) as (g' & Hg' & E).
    destruct (Hfields (or_introl Hhas)) as (_ & _ & _ & ->). congruence.
  - intros Hhas.
    destruct (@ref_declaration_resolved [js "dependencies"; alias] t o alias H)
      as (_ & Hgit & Hfields).
    destruct (Hgit Hhas) as (u & Hu & _). exists u. split; [assumption|].
    intros a.
    destruct (@ref_declaration_resolved [js "dependencies"; alias] t o a H)
      as (_ & Hgit' & _).
    destruct (Hgit' Hhas) as (u' & Hu' & E).
    destruct (Hfields (or_intror Hhas)) as (_ & _ & _ & ->). congruence.
  - now destruct (@ref_declaration_resolved [js "dependencies"; alias] t o alias H)
      as (_ & _ & Hfields).
  - intros parseToml errorMap contents doc deps vm Hdoc Hdeps Hraw Huniq Hp Hok.
    destruct (@dependency_resolved parseToml errorMap contents doc deps alias
                (Toml.Table t) vm Hdoc Hdeps Hraw Huniq Hp Hok)
      as (decl & value & Hdecl & Hvalue & Hget).
    rewrite H in Hdecl. injection Hdecl as <-. now exists value.
  - vm_compute. reflexivity.
Qed.

Lemma C8_witness :
  (exists g,
      Obj.get Fixtures.sensei (js "gh") = Some (Toml.String g)
      /\ forall a,
           parseDependency a
             (DeclObject (mkDecl None (Some (js "sensei-marketplace/sensei")) None
                                 None None None None (Some (js "v2.0.0")) None))
           = ok (github g (Some (mkRef ref_tag (js "v2.0.0"))) None))
  /\ (exists value,
         Obj.get [(js "sensei",
                   github (js "sensei-marketplace/sensei")
                          (Some (mkRef ref_tag (js "v2.0.0"))) None)]
                 (trim (js "sensei"))
         = Some value).
Proof.
  assert (DependencyDeclaration [js "dependencies"; js "sensei"]
            (Some (Toml.Table Fixtures.sensei))
          = (Zod.OK (DeclObject
                       (mkDecl None (Some (js "sensei-marketplace/sensei")) None
                               None None None None (Some (js "v2.0.0")) None)),
             [])) as Hunion by (vm_compute; reflexivity).
  destruct (C8_ref_and_path (js "sensei") Fixtures.sensei _ _ Hunion)
    as (_ & Hgh & _ & _ & Hparse & _).
  split; [exact (Hgh eq_refl)|].
  destruct (Hparse Fixtures.parseToml Fixtures.en Fixtures.github_text
              Fixtures.github_doc Fixtures.github_deps
              (mkValidated None []
                 [(js "sensei",
                   github (js "sensei-marketplace/sensei")
                          (Some (mkRef ref_tag (js "v2.0.0"))) None)]
                 None)
              eq_refl eq_refl eq_refl) as (value & _ & Hget).
  - intros k [<-|[]] _. reflexivity.
  - intros E. vm_compute in E. discriminate.
  - vm_compute. reflexivity.
  - now exists value.
Defined.

(** C9.  [parseOrThrow] is [parse] with another way of failing: [parse]
    always returns a result; when the result is a success [parseOrThrow]
    returns its value, when it is a failure [parseOrThrow] throws an error
    with the message of the failure. *)
Theorem C9_parseOrThrow_wraps_parse :
  forall parseToml errorMap contents,
    exists r,
      parse parseToml errorMap contents = Return r
      /\ parseOrThrow parseToml errorMap contents
         = match r with
           | ok value => Return value
           | fail e => Throw (message e)
           end.
Proof.
  intros parseToml errorMap contents.
  destruct (parse_returns parseToml errorMap contents) as [r Hr].
  exists r. split; [assumption|]. unfold parseOrThrow. rewrite Hr. now destruct r.
Qed.

(** C10.  No error of kind [invalid_dependency] leaves [parse]: every
    declaration that passed the union is resolved by [parseDependency], so
    a failure of [parse] is of another kind. *)
Theorem C10_no_invalid_dependency :
  (forall alias decl,
      accepted decl -> exists value, parseDependency alias decl = ok value)
  /\ (forall parseToml errorMap contents e,
         parse parseToml errorMap contents = Return (fail e) ->
         type e <> invalid_dependency).
Proof.
  split; [intros alias decl; apply parseDependency_accepted|].
  intros parseToml errorMap contents e H.
  destruct (parseToml contents) as [doc|err] eqn:Hdoc.
  - destruct (Zod.isValid (fst (manifest_outcome doc))) eqn:Hv.
    + apply isValid_OK in Hv as [m Hm].
      destruct (parse_valid_manifest parseToml errorMap contents Hdoc Hm)
        as (deps & _ & E).
      rewrite E in H. discriminate.
    + destruct (parse_invalid_manifest parseToml errorMap contents Hdoc Hv) as (c & E).
      rewrite E in H. injection H as <-. discriminate.
  - destruct (parse_invalid_toml parseToml errorMap contents Hdoc) as (msg & c & E).
    rewrite E in H. injection H as <-. discriminate.
Qed.

Lemma C10_witness :
  invalid_manifest <> invalid_dependency
  /\ exists value,
       parseDependency (js "superpowers") (DeclString (js "superpowers@1.0.0"))
       = ok value.
Proof.
  split.
  - exact (proj2 C10_no_invalid_dependency Fixtures.parseToml Fixtures.en
             Fixtures.two_refs_text
             (mkError invalid_manifest
                (js "Invalid manifest: dependencies.bad: Only one of 'tag', 'branch', or 'rev' can be specified")
                (Some (cause_zod
                         [Zod.mkIssue Zod.custom [js "dependencies"; js "bad"]
                            (Some one_ref_message)])))
             eq_refl).
  - apply (proj1 C10_no_invalid_dependency).
    exists [js "dependencies"; js "superpowers"],
      (Some (Toml.String (js "superpowers@1.0.0"))), [].
    vm_compute. reflexivity.
Defined.

(* ================================================================== *)
(** * Further properties of the schemas and of the parser *)
(* ================================================================== *)

Import More.

(** X1.  [NonEmptyString] trims, then refuses what is left empty.  A string
    is valid exactly when one of its code units is neither white space nor
    a line terminator; the value is the string without the run of such
    units at each end, so it neither starts nor ends with one, and when it
    is validated again it comes back as it is.  A string of white space
    only is refused with [String cannot be empty], and a datum that is no
    string with a type issue. *)
Theorem X1_NonEmptyString_trims :
  forall p s,
    NonEmptyString p (Some (Toml.String s))
    = (if has_text s then (Zod.OK (trim s), [])
       else (Zod.DIRTY [],
             [Zod.mkIssue (Zod.too_small 1) p (Some (js "String cannot be empty"))]))
    /\ (exists pre post,
           s = pre ++ trim s ++ post
           /\ forallb isTrimmable pre = true /\ forallb isTrimmable post = true)
    /\ (forall c r, trim s = c :: r -> isTrimmable c = false)
    /\ (forall l c, trim s = l ++ [c] -> isTrimmable c = false)
    /\ NonEmptyString p (Some (Toml.String (trim s)))
       = NonEmptyString p (Some (Toml.String s))
    /\ (forall data,
           (forall s', data <> Some (Toml.String s')) ->
           NonEmptyString p data
           = (Zod.INVALID,
              [Zod.mkIssue (Zod.invalid_type Zod.t_string (Zod.getParsedType data))
                           p None])).
Proof.
  intros p s. split; [apply NonEmptyString_text|].
  split; [apply trim_split|].
  split; [apply trim_head|].
  split; [apply trim_last|].
  split.
  - now rewrite !NonEmptyString_text, has_text_trim, trim_idem.
  - intros data. apply NonEmptyString_other.
Qed.

Lemma X1_witness :
  NonEmptyString [js "name"] (Some (Toml.Boolean true))
  = (Zod.INVALID,
     [Zod.mkIssue (Zod.invalid_type Zod.t_string Zod.t_boolean) [js "name"] None]).
Proof.
  destruct (X1_NonEmptyString_trims [js "name"] []) as (_ & _ & _ & _ & _ & H).
  apply (H (Some (Toml.Boolean true))). intros s'. discriminate.
Defined.

(** X2.  The rules of an alias.  The key of a dependency is trimmed; it is
    valid exactly when what is left is not empty and holds none of [/],
    [\], [.] and [:].  Every rule that the key breaks is reported, not the
    first one only.  A document with such a key is rejected with
    [invalid_manifest] whatever the value of the entry, and the message
    holds the line [dependencies.<key>: <message of the rule>] for each
    broken rule. *)
Theorem X2_alias_rules :
  (forall p key,
      Alias p (Some (Toml.String key))
      = (if alias_ok (trim key) then Zod.OK (trim key) else Zod.DIRTY (trim key),
         alias_issues p (trim key)))
  /\ (forall a,
         alias_ok a = true
         <-> a <> [] /\ forall c, In c [47; 92; 46; 58]%N -> ~ In c a)
  /\ (forall a, broken_rules a = [] <-> alias_ok a = true)
  /\ (forall parseToml errorMap contents doc deps key,
         parseToml contents = Toml.Parsed doc ->
         Obj.get doc (js "dependencies") = Some (Toml.Table deps) ->
         In key (Obj.keys deps) ->
         alias_ok (trim key) = false ->
         exists msg,
           fails_with (parse parseToml errorMap contents) invalid_manifest msg
           /\ forall m, In m (broken_rules (trim key)) ->
                        mentions msg (dependency_line key m)).
Proof.
  split; [exact Alias_string|]. split; [exact alias_ok_spec|].
  split; [exact broken_rules_nil|].
  intros parseToml errorMap contents doc deps key Hdoc Hdeps Hkey Hbad.
  destruct (@dependencies_key_invalid doc deps key Hdeps Hkey Hbad) as [Hv Hissues].
  destruct (parse_rejects parseToml errorMap contents Hdoc Hv) as (msg & Hf & Hm).
  exists msg. split; [assumption|]. intros m Hin.
  destruct (@broken_rules_issues [js "dependencies"; key] (trim key) m Hin)
    as (code & Hi).
  rewrite <- (issue_line_dependency errorMap code). apply Hm, Hissues, Hi.
Qed.

Lemma X2_witness :
  exists msg,
    fails_with (parse Samples.parseToml Fixtures.en Samples.dotted_alias_text)
               invalid_manifest msg
    /\ mentions msg (dependency_line (js "a.b") (js "Alias cannot contain '.'")).
Proof.
  destruct X2_alias_rules as (_ & _ & _ & H).
  destruct (H Samples.parseToml Fixtures.en Samples.dotted_alias_text
              Samples.dotted_alias_doc Samples.dotted_alias_deps (js "a.b")
              eq_refl eq_refl (or_introl eq_refl) eq_refl) as (msg & Hf & Hm).
  exists msg. split; [assumption|]. apply Hm. vm_compute. now left.
Defined.



(** X4.  The package of the result.  When the parse succeeds and the
    document has a [package], the package of the result is made of the
    strings of that table, trimmed: [name] and [version] are strings with
    some text, [description], [license] and [org] are absent or strings
    with some text, and the table has no other key.  Without a [package]
    the result has none. *)
Theorem X4_package_carried :
  forall parseToml errorMap contents doc vm,
    parseToml contents = Toml.Parsed doc ->
    parse parseToml errorMap contents = Return (ok vm) ->
    match Obj.get doc (js "package") with
    | None => v_package vm = None
    | Some v =>
        exists t n ver,
          v = Toml.Table t
          /\ Obj.get t (js "name") = Some (Toml.String n)
          /\ Obj.get t (js "version") = Some (Toml.String ver)
          /\ v_package vm = Some (package_of t n ver)
          /\ clean (trim n) /\ clean (trim ver)
          /\ clean_opt (trimmed t (js "description"))
          /\ clean_opt (trimmed t (js "license"))
          /\ clean_opt (trimmed t (js "org"))
          /\ key_outside Package_keys t = false
    end.
Proof.
  intros parseToml errorMap contents doc vm Hdoc Hok.
  destruct (parse_ok_inv parseToml errorMap contents Hok)
    as (doc' & m & Hdoc' & Hm & _ & ->).
  rewrite Hdoc in Hdoc'. injection Hdoc' as <-. simpl v_package.
  pose proof (package_carried doc Hm) as H.
  destruct (Obj.get doc (js "package")) as [v|]; [|assumption].
  destruct H as (t & pk & -> & -> & Hpk).
  apply PackageSchema_fields in Hpk
    as (n & ver & Hn & Hver & -> & Cn & Cv & Cd & Cl & Co & Hkeys).
  exists t, n, ver. simpl in Cn, Cv, Cd, Cl, Co. tauto.
Qed.

Lemma X4_witness :
  exists t n ver,
    Toml.Table [(js "name", Fixtures.str "test"); (js "version", Fixtures.str "1.0.0")]
    = Toml.Table t
    /\ Obj.get t (js "name") = Some (Toml.String n)
    /\ Obj.get t (js "version") = Some (Toml.String ver)
    /\ Some (mkPackage None None (js "test") None (js "1.0.0"))
       = Some (package_of t n ver).
Proof.
  pose proof (X4_package_carried Fixtures.parseToml Fixtures.en Fixtures.minimal_text
                Fixtures.minimal_doc
                (mkValidated (Some (mkPackage None None (js "test") None (js "1.0.0")))
                             [(js "claude-code", true)] [] None)
                eq_refl eq_refl) as H.
  simpl in H. destruct H as (t & n & ver & Ht & Hn & Hv & Hp & _).
  now exists t, n, ver.
Defined.

(** X5.  The fields of the package.  A [package] whose [name] or [version]
    is missing, is no string or has no text, or whose [description],
    [license] or [org] is present without being a string with some text,
    makes the parse fail with [invalid_manifest]; the message holds the
    line [package.<field>: String cannot be empty] for a blank string, and
    the line of the type error for anything else. *)
Theorem X5_package_fields :
  forall parseToml errorMap contents doc t key,
    parseToml contents = Toml.Parsed doc ->
    Obj.get doc (js "package") = Some (Toml.Table t) ->
    In key Package_keys ->
    In key [js "name"; js "version"] \/ Obj.has t key = true ->
    nonblank t key = false ->
    exists msg,
      fails_with (parse parseToml errorMap contents) invalid_manifest msg
      /\ mentions msg
           (message_line [js "package"; key] (string_message errorMap (Obj.get t key))).
Proof.
  intros parseToml errorMap contents doc t key Hdoc Hpkg Hkey Hreq Hblank.
  assert (Zod.isValid (fst (NonEmptyString [js "package"; key] (Obj.get t key))) = false)
    as Hfield.
  { pose proof (field_NonEmptyString_valid [js "package"] t key) as E.
    unfold Zod.field in E. simpl app in E. now rewrite E. }
  destruct (NonEmptyString_issue errorMap _ _ Hfield) as (i & Hi & Hline).
  destruct (package_outcome_table doc Hpkg) as [Ev Ei].
  assert (Zod.isValid (fst (manifest_outcome doc)) = false) as Hv.
  { apply section_invalid. right. right. right.
    rewrite Ev, PackageSchema_valid.
    assert (Obj.has t key = true -> negb (Obj.has t key) || nonblank t key = false)
      as Hopt by (intros ->; now rewrite Hblank).
    simpl in Hkey. destruct Hkey as [<-|[<-|[<-|[<-|[<-|[]]]]]];
      try (destruct Hreq as [[C|[C|[]]]|Hhas]; try discriminate;
           rewrite (Hopt Hhas); now rewrite ?andb_false_r);
      now rewrite Hblank, ?andb_false_r. }
  destruct (parse_rejects parseToml errorMap contents Hdoc Hv) as (msg & Hf & Hm).
  exists msg. split; [assumption|]. rewrite <- Hline. apply Hm.
  apply manifest_issues. right. right. right. rewrite Ei.
  now apply (@PackageSchema_issue [js "package"] t key i).
Qed.

Lemma X5_witness :
  exists msg,
    fails_with (parse Samples.parseToml Fixtures.en Samples.no_version_text)
               invalid_manifest msg
    /\ mentions msg (js "package.version: Required").
Proof.
  apply (X5_package_fields Samples.parseToml Fixtures.en Samples.no_version_text
           Samples.no_version_doc Samples.no_version (js "version")
           eq_refl eq_refl).
  - simpl. tauto.
  - left. simpl. tauto.
  - reflexivity.
Defined.

(** X6.  The values of the agents.  An [agents] table with a value that is
    no boolean makes the parse fail with [invalid_manifest], under a known
    id and under an unknown one alike: the ids are filtered after the
    validation, not before.  The message holds the line of the type error
    at [agents.<id>].  An [agents] that is no table fails in the same way,
    at [agents]. *)
Theorem X6_agents_are_booleans :
  forall parseToml errorMap contents doc,
    parseToml contents = Toml.Parsed doc ->
    (forall entries id v,
        Obj.get doc (js "agents") = Some (Toml.Table entries) ->
        Obj.get entries id = Some v ->
        is_boolean v = false ->
        exists msg,
          fails_with (parse parseToml errorMap contents) invalid_manifest msg
          /\ mentions msg
               (message_line [js "agents"; id]
                  (errorMap (Zod.invalid_type Zod.t_boolean
                                              (Zod.getParsedType (Some v))))))
    /\ (forall v,
           Obj.get doc (js "agents") = Some v ->
           (forall entries, v <> Toml.Table entries) ->
           exists msg,
             fails_with (parse parseToml errorMap contents) invalid_manifest msg
             /\ mentions msg
                  (message_line [js "agents"]
                     (errorMap (Zod.invalid_type Zod.t_object
                                                 (Zod.getParsedType (Some v)))))).
Proof.
  intros parseToml errorMap contents doc Hdoc. split.
  - intros entries id v Hagents Hid Hv.
    destruct (@AgentsSchema_issue [js "agents"] entries id v Hid Hv) as [Hbad Hin].
    assert (Zod.isValid (fst (manifest_outcome doc)) = false) as Hinvalid.
    { apply section_invalid. left. now rewrite (agents_outcome_some doc Hagents). }
    destruct (parse_rejects parseToml errorMap contents Hdoc Hinvalid)
      as (msg & Hf & Hm).
    exists msg. split; [assumption|]. rewrite <- issue_line_default.
    apply Hm, manifest_issues. left. now rewrite (agents_outcome_some doc Hagents).
  - intros v Hagents Hv.
    assert (AgentsSchema [js "agents"] (Some v)
            = (Zod.INVALID,
               [Zod.mkIssue (Zod.invalid_type Zod.t_object (Zod.getParsedType (Some v)))
                            [js "agents"] None])) as E.
    { apply record_not_table. intros entries [= C]. now apply (Hv entries). }
    assert (Zod.isValid (fst (manifest_outcome doc)) = false) as Hinvalid.
    { apply section_invalid. left. now rewrite (agents_outcome_some doc Hagents), E. }
    destruct (parse_rejects parseToml errorMap contents Hdoc Hinvalid)
      as (msg & Hf & Hm).
    exists msg. split; [assumption|]. rewrite <- issue_line_default.
    apply Hm, manifest_issues. left.
    rewrite (agents_outcome_some doc Hagents), E. now left.
Qed.

Lemma X6_witness :
  exists msg,
    fails_with (parse Samples.parseToml Fixtures.en Samples.wrong_agent_text)
               invalid_manifest msg
    /\ mentions msg (js "agents.future-agent: Expected boolean, received string").
Proof.
  destruct (X6_agents_are_booleans Samples.parseToml Fixtures.en
              Samples.wrong_agent_text Samples.wrong_agent_doc eq_refl) as [H _].
  apply (H Samples.wrong_agent (js "future-agent") (Fixtures.str "yes")
           eq_refl eq_refl eq_refl).
Defined.





(** X9.  The forms of a declaration exclude one another.  Whatever the
    datum, at most one of the five options of the union is valid; the
    union is valid exactly when one of them is, and its value is then the
    value of that option.  So the order in which the union lists the forms
    plays no part in what is accepted. *)
Theorem X9_forms_exclusive :
  forall p data,
    List.length
      (filter (fun option : Zod.ZodType Decl => Zod.isValid (fst (option p data)))
              declaration_options) <= 1
    /\ Zod.isValid (fst (DependencyDeclaration p data))
       = existsb (fun option : Zod.ZodType Decl => Zod.isValid (fst (option p data)))
                 declaration_options
    /\ (forall option v,
           In option declaration_options ->
           fst (option p data) = Zod.OK v ->
           DependencyDeclaration p data = (Zod.OK v, [])).
Proof.
  intros p data. pose proof (exclusive_options p data) as Hone.
  split; [assumption|]. split; [apply union_valid|].
  intros option v Hin Hv.
  now apply (@union_unique_valid Decl declaration_options p data option v).
Qed.

Lemma X9_witness :
  DependencyDeclaration [js "dependencies"; js "skills"]
    (Some (Toml.Table Samples.local))
  = (Zod.OK (DeclObject (mkDecl None None None None (Some (js "../skills")) None
                                None None None)), []).
Proof.
  destruct (X9_forms_exclusive [js "dependencies"; js "skills"]
              (Some (Toml.Table Samples.local))) as (_ & _ & H).
  apply (H (Zod.retag DeclObject LocalDependency)).
  - simpl. tauto.
  - vm_compute. reflexivity.
Defined.

(** X10.  The parser's reading of a registry string, both ways.
    [parseRegistryString] returns a dependency exactly on the strings of
    the shorthand, and then the one made of the org, the name and the
    version of the string; the three parts of a string are determined, and
    writing them out again as [@org/name@version] gives the string back.
    On any other string it returns nothing, and [parseDependency] fails
    with [invalid_dependency] and a message that quotes alias and
    string. *)
Theorem X10_registry_round_trip :
  (forall s d,
      parseRegistryString s = Some d
      <-> exists org name version,
            d = registry name org version
            /\ shorthand s org name version /\ single_line version)
  /\ (forall s org name version,
         parseRegistryString s = Some (registry name org version) ->
         render org name version = s)
  /\ (forall org name version,
         well_formed (registry name org version) ->
         parseRegistryString (render org name version)
         = Some (registry name org version))
  /\ (forall s,
         parseRegistryString s = None
         <-> ~ (exists org name version,
                   shorthand s org name version /\ single_line version))
  /\ (forall alias s,
         parseRegistryString s = None ->
         parseDependency alias (DeclString s)
         = fail (mkError invalid_dependency
                   (js "Invalid registry dependency format for '" ++ alias
                    ++ js "': " ++ s)
                   None)).
Proof.
  split; [exact parseRegistryString_Some|]. split; [|split; [|split]].
  - intros s org name version H.
    apply parseRegistryString_Some in H as (o & n & v & [= -> -> ->] & Hs & _).
    symmetry. now apply shorthand_render.
  - intros org name version [Hs Hl]. now apply parseRegistryString_shorthand.
  - exact parseRegistryString_None.
  - intros alias s H. simpl. now rewrite H.
Qed.

Lemma X10_witness :
  render (Some (js "acme")) (js "tool") (js "1.2.3") = js "@acme/tool@1.2.3"
  /\ parseRegistryString (render (Some (js "acme")) (js "tool") (js "1.2.3"))
     = Some (registry (js "tool") (Some (js "acme")) (js "1.2.3")).
Proof.
  destruct X10_registry_round_trip as (_ & Hrender & Hparse & _).
  split.
  - apply Hrender. vm_compute. reflexivity.
  - apply Hparse. split; [|reflexivity].
    repeat split; try discriminate; reflexivity.
Defined.

(** X11.  The skills of the exports.  [exports.auto_discover.skills] is the
    boolean [false] or a string with some text: when the parse succeeds the
    exports of the result hold [false], or the string trimmed; with any
    other value ([true], a blank string, a number) the parse fails with
    [invalid_manifest]. *)
Theorem X11_exports_skills :
  forall parseToml errorMap contents doc e a v,
    parseToml contents = Toml.Parsed doc ->
    Obj.get doc (js "exports") = Some (Toml.Table e) ->
    Obj.get e (js "auto_discover") = Some (Toml.Table a) ->
    Obj.get a (js "skills") = Some v ->
    (forall vm,
        parse parseToml errorMap contents = Return (ok vm) ->
        exists sk,
          skills_of v = Some sk
          /\ v_exports vm = Some (mkExports (Some (mkAutoDiscover (Some sk)))))
    /\ (skills_of v = None ->
        exists msg,
          fails_with (parse parseToml errorMap contents) invalid_manifest msg)
    /\ (skills_of v = None -> (forall s, v <> Toml.String s) ->
        exists msg,
          fails_with (parse parseToml errorMap contents) invalid_manifest msg
          /\ mentions msg
               (message_line [js "exports"; js "auto_discover"; js "skills"]
                             (errorMap Zod.invalid_union))).
Proof.
  intros parseToml errorMap contents doc e a v Hdoc He Ha Hv.
  split; [|split].
  - intros vm Hok.
    destruct (parse_ok_inv parseToml errorMap contents Hok)
      as (doc' & m & Hdoc' & Hm & _ & ->).
    rewrite Hdoc in Hdoc'. injection Hdoc' as <-. simpl v_exports.
    apply manifest_OK in Hm as (_ & _ & Hm & _).
    now apply (@exports_skills doc e a v (exports m)).
  - intros Hno.
    destruct (@exports_skills_invalid doc e a v He Ha Hv Hno) as [Hbad _].
    eexists. apply parse_invalid_manifest with (doc := doc); [assumption|].
    apply section_invalid. right. right. now left.
  - intros Hno Hns.
    destruct (@exports_skills_invalid doc e a v He Ha Hv Hno) as [Hbad Hissues].
    assert (Zod.isValid (fst (manifest_outcome doc)) = false) as Hinvalid
      by (apply section_invalid; right; right; now left).
    destruct (parse_rejects parseToml errorMap contents Hdoc Hinvalid)
      as (msg & Hf & Hm).
    exists msg. split; [assumption|]. rewrite <- issue_line_default.
    apply Hm, manifest_issues. right. right. left. apply Hissues.
    rewrite skills_union. unfold skills_of in Hno.
    destruct v as [s|[|]|x|d|l|t]; try (now left); try discriminate.
    now destruct (Hns s).
Qed.

Lemma X11_witness :
  (exists sk,
      skills_of (Toml.Boolean false) = Some sk
      /\ Some (mkExports (Some (mkAutoDiscover (Some SkillsFalse))))
         = Some (mkExports (Some (mkAutoDiscover (Some sk)))))
  /\ exists msg,
       fails_with (parse Samples.parseToml Fixtures.en Samples.skills_true_text)
                  invalid_manifest msg
       /\ mentions msg (js "exports.auto_discover.skills: Invalid input").
Proof.
  split.
  - destruct (X11_exports_skills Samples.parseToml Fixtures.en
                Samples.skills_false_text Samples.skills_false_doc
                [(js "auto_discover", Toml.Table [(js "skills", Toml.Boolean false)])]
                [(js "skills", Toml.Boolean false)] (Toml.Boolean false)
                eq_refl eq_refl eq_refl eq_refl) as (H & _).
    apply (H (mkValidated None [] []
                (Some (mkExports (Some (mkAutoDiscover (Some SkillsFalse))))))).
    vm_compute. reflexivity.
  - destruct (X11_exports_skills Samples.parseToml Fixtures.en
                Samples.skills_true_text Samples.skills_true_doc
                [(js "auto_discover", Toml.Table [(js "skills", Toml.Boolean true)])]
                [(js "skills", Toml.Boolean true)] (Toml.Boolean true)
                eq_refl eq_refl eq_refl eq_refl) as (_ & _ & H).
    apply H; [reflexivity|]. intros s. discriminate.
Defined.

(** X12.  The dependencies of the result.  When the parse succeeds, the
    dependencies of the result have pairwise distinct keys; every key is
    the trimmed form of a key of the [dependencies] table of the document
    and keeps the rules of an alias; every value is well formed: the [gh]
    of a GitHub dependency is an [owner/repo], the url of a git
    dependency, the path of a local one and the two strings of a plugin
    are trimmed and not empty, a ref value and an optional path are so
    when present, and a registry dependency has the parts of a
    shorthand. *)
Theorem X12_dependencies_well_formed :
  forall parseToml errorMap contents vm,
    parse parseToml errorMap contents = Return (ok vm) ->
    NoDup (Obj.keys (v_dependencies vm))
    /\ forall alias value,
         In (alias, value) (v_dependencies vm) ->
         alias_ok alias = true
         /\ well_formed value
         /\ exists doc deps key,
              parseToml contents = Toml.Parsed doc
              /\ Obj.get doc (js "dependencies") = Some (Toml.Table deps)
              /\ In key (Obj.keys deps) /\ alias = trim key.
Proof.
  intros parseToml errorMap contents vm Hok.
  destruct (parse_ok_inv parseToml errorMap contents Hok)
    as (doc & m & Hdoc & Hm & Hdeps & _).
  destruct (process_dependencies_entries (dependencies m) [] Hdeps) as [Hnd Hin].
  split; [apply Hnd; constructor|].
  intros alias value Hvalue.
  destruct (Hin alias value Hvalue) as [[]|(decl & Hdecl & Hp)].
  destruct (@dependencies_entries doc m alias decl Hm Hdecl)
    as (deps & key & Hget & Hkey & -> & Hok' & Hunion).
  split; [assumption|]. split.
  - destruct (parseDependency_well_formed (trim key) decl) as (value' & Hp' & Hwf).
    + apply accepted_valid.
      exists [js "dependencies"; key], (Obj.get deps key).
      destruct (DependencyDeclaration _ _) as [st issues]. exists issues.
      simpl in Hunion. now subst st.
    + rewrite Hp in Hp'. now injection Hp' as ->.
  - now exists doc, deps, key.
Qed.

Lemma X12_witness :
  alias_ok (js "sensei") = true
  /\ well_formed (github (js "sensei-marketplace/sensei")
                         (Some (mkRef ref_tag (js "v2.0.0"))) None).
Proof.
  destruct (X12_dependencies_well_formed Fixtures.parseToml Fixtures.en
              Fixtures.github_text
              (mkValidated None []
                 [(js "sensei",
                   github (js "sensei-marketplace/sensei")
                          (Some (mkRef ref_tag (js "v2.0.0"))) None)]
                 None)) as [_ H]; [vm_compute; reflexivity|].
  destruct (H (js "sensei")
              (github (js "sensei-marketplace/sensei")
                      (Some (mkRef ref_tag (js "v2.0.0"))) None))
    as (Ha & Hw & _); [now left|].
  now split.
Defined.

(** X13.  One ref at most.  An object that passed the union carries at most
    one of [tag], [branch] and [rev], and none of them is empty.  So the
    ref that the parser extracts is the only ref of the object: the order
    in which [extractGitRef] looks at the three fields decides nothing on
    a validated declaration, and no ref is extracted exactly when the
    object has none. *)
Theorem X13_single_ref :
  forall o,
    accepted (DeclObject o) ->
    refs_carried o <= 1
    /\ (forall kind v,
           extractGitRef o = Some (mkRef kind v) <-> ref_field kind o = Some v)
    /\ (extractGitRef o = None
        <-> tag o = None /\ branch o = None /\ rev o = None).
Proof.
  intros o Hacc. apply accepted_valid in Hacc. simpl in Hacc.
  destruct (@valid_object_refs o Hacc) as (Hone & Ht & Hb & Hr & _).
  pose proof (@extractGitRef_only o Hone Ht Hb Hr) as Honly.
  split; [assumption|]. split; [assumption|]. split.
  - intros Hnone. repeat split.
    + destruct (tag o) as [v|] eqn:E; [|reflexivity].
      apply (Honly ref_tag v) in E. congruence.
    + destruct (branch o) as [v|] eqn:E; [|reflexivity].
      apply (Honly ref_branch v) in E. congruence.
    + destruct (rev o) as [v|] eqn:E; [|reflexivity].
      apply (Honly ref_rev v) in E. congruence.
  - intros (Et & Eb & Er). unfold extractGitRef. now rewrite Et, Eb, Er.
Qed.

Lemma X13_witness :
  extractGitRef (mkDecl None (Some (js "org/repo")) None None None None
                        (Some (js "abc123")) None None)
  = Some (mkRef ref_rev (js "abc123")).
Proof.
  destruct (X13_single_ref
              (mkDecl None (Some (js "org/repo")) None None None None
                      (Some (js "abc123")) None None)) as (_ & H & _).
  - exists [js "dependencies"; js "tool"],
      (Some (Toml.Table [(js "gh", Fixtures.str "org/repo");
                         (js "rev", Fixtures.str "abc123")])), [].
    vm_compute. reflexivity.
  - now apply H.
Defined.

(** X14.  A declaration that fits no form.  A dependency whose value is
    neither a string nor a table, or a table without [gh], [git] and
    [path] whose [type] is not the string [claude-plugin], is turned down
    by every option of the union; the parse fails with
    [invalid_manifest] and the message holds one line for the entry, with
    the text of the error map for an invalid union. *)
Theorem X14_no_form :
  forall parseToml errorMap contents doc deps alias v,
    parseToml contents = Toml.Parsed doc ->
    Obj.get doc (js "dependencies") = Some (Toml.Table deps) ->
    Obj.get deps alias = Some v ->
    match v with
    | Toml.String _ => False
    | Toml.Table t =>
        Obj.has t (js "gh") = false /\ Obj.has t (js "git") = false
        /\ Obj.has t (js "path") = false
        /\ Obj.get t (js "type") <> Some (Toml.String CLAUDE_PLUGIN)
    | _ => True
    end ->
    DependencyDeclaration [js "dependencies"; alias] (Some v)
    = (Zod.INVALID, [Zod.mkIssue Zod.invalid_union [js "dependencies"; alias] None])
    /\ exists msg,
         fails_with (parse parseToml errorMap contents) invalid_manifest msg
         /\ mentions msg (dependency_line alias (errorMap Zod.invalid_union)).
Proof.
  intros parseToml errorMap contents doc deps alias v Hdoc Hdeps Hraw Hv.
  assert (DependencyDeclaration [js "dependencies"; alias] (Some v)
          = (Zod.INVALID,
             [Zod.mkIssue Zod.invalid_union [js "dependencies"; alias] None])) as E.
  { destruct v as [s|b|x|d|l|t]; try (apply DependencyDeclaration_other; discriminate).
    - destruct Hv.
    - destruct Hv as (Hgh & Hgit & Hpath & Htype).
      now apply DependencyDeclaration_formless. }
  split; [assumption|].
  destruct (@dependency_invalid doc deps alias v Hdeps Hraw) as [Hinvalid Hissues];
    [now rewrite E|].
  destruct (parse_rejects parseToml errorMap contents Hdoc Hinvalid) as (msg & Hf & Hm).
  exists msg. split; [assumption|].
  change (dependency_line alias (errorMap Zod.invalid_union))
    with (issue_line errorMap
            (Zod.mkIssue Zod.invalid_union [js "dependencies"; alias] None)).
  apply Hm, Hissues. rewrite E. now left.
Qed.

Lemma X14_witness :
  exists msg,
    fails_with (parse Samples.parseToml Fixtures.en Samples.flag_text)
               invalid_manifest msg
    /\ mentions msg (js "dependencies.tool: Invalid input").
Proof.
  destruct (X14_no_form Samples.parseToml Fixtures.en Samples.flag_text
              Samples.flag_doc Samples.flag_deps (js "tool") (Toml.Boolean true)
              eq_refl eq_refl eq_refl I) as [_ H].
  exact H.
Defined.

(** X15.  The [dependencies] table is optional.  A document without it is
    parsed exactly as the same document with an empty [dependencies]
    table, and a successful result then has no dependencies. *)
Theorem X15_dependencies_optional :
  forall parseToml errorMap contents contents' doc,
    parseToml contents = Toml.Parsed doc ->
    Obj.get doc (js "dependencies") = None ->
    parseToml contents' = Toml.Parsed ((js "dependencies", Toml.Table []) :: doc) ->
    parse parseToml errorMap contents = parse parseToml errorMap contents'
    /\ (forall vm,
           parse parseToml errorMap contents = Return (ok vm) ->
           v_dependencies vm = []).
Proof.
  intros parseToml errorMap contents contents' doc Hdoc Hno Hdoc'. split.
  - unfold parse. rewrite Hdoc, Hdoc'. unfold Zod.schema_parse.
    fold (manifest_outcome doc).
    fold (manifest_outcome ((js "dependencies", Toml.Table []) :: doc)).
    now rewrite manifest_outcome_empty_dependencies.
  - intros vm Hok.
    destruct (parse_ok_inv parseToml errorMap contents Hok)
      as (doc' & m & Hdoc'' & Hm & Hdeps & _).
    rewrite Hdoc in Hdoc''. injection Hdoc'' as <-.
    rewrite (@empty_dependencies doc m Hno Hm) in Hdeps. simpl in Hdeps.
    now injection Hdeps as <-.
Qed.

Lemma X15_witness :
  parse Samples.parseToml Fixtures.en Fixtures.minimal_text
  = parse Samples.parseToml Fixtures.en Samples.empty_dependencies_text.
Proof.
  apply (X15_dependencies_optional Samples.parseToml Fixtures.en
           Fixtures.minimal_text Samples.empty_dependencies_text
           Fixtures.minimal_doc eq_refl eq_refl eq_refl).
Defined.

(** X16.  What a failure says.  For every input the parse ends in one of
    three ways, decided by the stage that stops it.  When the TOML parser
    throws, the error is of kind [invalid_toml], its message is the one of
    the thrown error (or [Invalid TOML syntax] when what was thrown is no
    error), and its cause is what was thrown; the schema is not consulted.
    When the schema turns the document down, the error is of kind
    [invalid_manifest], there is at least one issue, the message is
    [Invalid manifest: ] followed by one line [path: message] for each
    issue, in the order of the issues and separated by [; ], and the cause
    holds the issues.  Otherwise the parse succeeds. *)
Theorem X16_failures :
  forall parseToml errorMap contents,
    match parseToml contents with
    | Toml.Throws err =>
        parse parseToml errorMap contents
        = Return (fail (mkError invalid_toml (thrown_message err)
                                (Some (cause_thrown err))))
    | Toml.Parsed doc =>
        if Zod.isValid (fst (manifest_outcome doc))
        then exists vm, parse parseToml errorMap contents = Return (ok vm)
        else
          snd (manifest_outcome doc) <> []
          /\ parse parseToml errorMap contents
             = Return
                 (fail (mkError invalid_manifest
                          (js "Invalid manifest: "
                           ++ join (js "; ")
                                (map (fun i =>
                                        message_line (Zod.path i)
                                                     (Zod.message errorMap i))
                                     (snd (manifest_outcome doc))))
                          (Some (cause_zod (snd (manifest_outcome doc))))))
    end.
Proof.
  intros parseToml errorMap contents.
  destruct (parseToml contents) as [doc|err] eqn:Hdoc.
  - destruct (Zod.isValid (fst (manifest_outcome doc))) eqn:Hv.
    + apply isValid_OK in Hv as [m Hm].
      destruct (parse_valid_manifest parseToml errorMap contents Hdoc Hm)
        as (deps & _ & E).
      eexists. exact E.
    + split.
      * now apply sound_ManifestSchema.
      * now apply parse_schema_failure.
  - now apply parse_toml_failure.
Qed.
